(** * Filament [Engine.cpp]: resource lifecycle, shutdown, driver loop

    A shallow embedding of [filament/src/Engine.cpp].  Pointers are
    addresses ([N], with [0] for [nullptr]); the engine is a record that is
    threaded through every operation; every call the engine makes on one of
    its collaborators (resource lists, resources, heap allocator, driver,
    command queue, job system, ...) is appended, in program order, to the
    [trace] of the engine, so that ordering properties can be stated on it. *)

From stdpp Require Import base gmap sets list.
From Stdlib Require Import NArith Lia PrimFloat.

Set Default Proof Using "Type".
#[global] Set Warnings "-clear-no-such-hyp".
Open Scope N_scope.

(** ** Pointers and resource kinds *)

Abbreviation Ptr := N.
Definition nullptr : Ptr := 0.

(** The resource classes [T] the templates of the file are instantiated at. *)
Inductive Kind :=
  | FRenderer | FView | FScene | FSkybox | FIndexBuffer | FVertexBuffer
  | FTexture | FRenderTarget | FMaterial | FFence | FIndirectLight
  | FSwapChain | FStream | FMaterialInstance.

(** A reference to one [ResourceList] member of [FEngine]:
    [Renderers] is [mRenderers], ..., and [MaterialInstances m] is the
    entry [mMaterialInstances.find(m)->second]. *)
Inductive ListRef :=
  | Renderers | Views | Scenes | Skyboxes | IndexBuffers | VertexBuffers
  | Textures | RenderTargets | Materials | Fences | IndirectLights
  | SwapChains | Streams
  | MaterialInstances (material : Ptr).

#[global] Instance Kind_eq_dec : EqDecision Kind.
Proof. solve_decision. Defined.
#[global] Instance ListRef_eq_dec : EqDecision ListRef.
Proof. solve_decision. Defined.

(** The element type [T] of [ResourceList<T>] for each list. *)
Definition elemType (list : ListRef) : Kind :=
  match list with
  | Renderers => FRenderer | Views => FView | Scenes => FScene
  | Skyboxes => FSkybox | IndexBuffers => FIndexBuffer
  | VertexBuffers => FVertexBuffer | Textures => FTexture
  | RenderTargets => FRenderTarget | Materials => FMaterial
  | Fences => FFence | IndirectLights => FIndirectLight
  | SwapChains => FSwapChain | Streams => FStream
  | MaterialInstances _ => FMaterialInstance
  end.

(** ** Resource lists *)

(** Modelled from the spec: [ResourceList<T>] is declared in
    [details/Engine.h], which is not part of the sources.  It is "an
    ownership set recording every live instance of one resource kind",
    with insert, remove-by-identity returning whether the element was
    present, emptiness and size queries, and "take all and clear". *)
Module ResourceList.
Definition insert (p : Ptr) (l : gset Ptr) : gset Ptr := {[p]} ∪ l.
Definition remove (p : Ptr) (l : gset Ptr) : bool * gset Ptr :=
  (bool_decide (p ∈ l), l ∖ {[p]}).
Definition empty (l : gset Ptr) : bool := bool_decide (l = ∅).
Definition size (l : gset Ptr) : nat := base.size l.
Definition getListAndClear (l : gset Ptr) : list Ptr * gset Ptr :=
  (elements l, ∅).
End ResourceList.

(** The resource lists of [FEngine], grouped in one record. *)
Record ResourceLists := mkResourceLists {
  mRenderers : gset Ptr;
  mViews : gset Ptr;
  mScenes : gset Ptr;
  mSkyboxes : gset Ptr;
  mIndexBuffers : gset Ptr;
  mVertexBuffers : gset Ptr;
  mTextures : gset Ptr;
  mRenderTargets : gset Ptr;
  mMaterials : gset Ptr;
  mFences : gset Ptr;
  mIndirectLights : gset Ptr;
  mSwapChains : gset Ptr;
  mStreams : gset Ptr;
  mMaterialInstances : gmap Ptr (gset Ptr)
}.

Definition getList (list : ListRef) (r : ResourceLists) : gset Ptr :=
  match list with
  | Renderers => mRenderers r | Views => mViews r | Scenes => mScenes r
  | Skyboxes => mSkyboxes r | IndexBuffers => mIndexBuffers r
  | VertexBuffers => mVertexBuffers r | Textures => mTextures r
  | RenderTargets => mRenderTargets r | Materials => mMaterials r
  | Fences => mFences r | IndirectLights => mIndirectLights r
  | SwapChains => mSwapChains r | Streams => mStreams r
  | MaterialInstances m => default ∅ (mMaterialInstances r !! m)
  end.

(** Writing through a list reference.  [MaterialInstances m] refers to an
    existing entry of the map: the write alters that entry and never adds
    one ([emplace] does, see [createMaterialInstance]). *)
Definition setList (list : ListRef) (v : gset Ptr) (r : ResourceLists)
  : ResourceLists :=
  {|
     mRenderers := match list with Renderers => v | _ => mRenderers r end;
     mViews := match list with Views => v | _ => mViews r end;
     mScenes := match list with Scenes => v | _ => mScenes r end;
     mSkyboxes := match list with Skyboxes => v | _ => mSkyboxes r end;
     mIndexBuffers := match list with IndexBuffers => v | _ => mIndexBuffers r end;
     mVertexBuffers := match list with VertexBuffers => v | _ => mVertexBuffers r end;
     mTextures := match list with Textures => v | _ => mTextures r end;
     mRenderTargets := match list with RenderTargets => v | _ => mRenderTargets r end;
     mMaterials := match list with Materials => v | _ => mMaterials r end;
     mFences := match list with Fences => v | _ => mFences r end;
     mIndirectLights := match list with IndirectLights => v | _ => mIndirectLights r end;
     mSwapChains := match list with SwapChains => v | _ => mSwapChains r end;
     mStreams := match list with Streams => v | _ => mStreams r end;
     mMaterialInstances :=
       match list with
       | MaterialInstances m => alter (λ _, v) m (mMaterialInstances r)
       | _ => mMaterialInstances r
       end |}.

Definition noResources : ResourceLists :=
  mkResourceLists ∅ ∅ ∅ ∅ ∅ ∅ ∅ ∅ ∅ ∅ ∅ ∅ ∅ ∅.

(** ** Command buffer queue *)

(** A command buffer entry: "an immutable byte range plus metadata (begin
    pointer, size)". *)
Record Slice := mkSlice { begin : Ptr; sliceSize : N }.

#[global] Instance Slice_eq_dec : EqDecision Slice.
Proof. solve_decision. Defined.

(** Modelled from the spec: [CommandBufferQueue] is declared in
    [private/backend/CommandBufferQueue.h], which is not part of the
    sources.  The queue holds the range written by the producer since the
    last flush, the descriptors published and not yet consumed, and the
    exit signal. *)
Record CommandBufferQueue := mkQueue {
  mCircularBuffer : Slice;
  mCommandBuffersToExecute : list Slice;
  mExitRequested : bool
}.

Module Queue.
(** "flush(): makes all bytes written by the producer up to now visible
    to the consumer and publishes a new buffer descriptor". *)
Definition flush (q : CommandBufferQueue) : CommandBufferQueue :=
  let b := mCircularBuffer q in
  {| mCircularBuffer := mkSlice (begin b + sliceSize b) 0;
     mCommandBuffersToExecute := mCommandBuffersToExecute q ++ [b];
     mExitRequested := mExitRequested q |}.

(** "requestExit(): signals the consumer to stop waiting and return an
    empty result on its next wake-up; idempotent". *)
Definition requestExit (q : CommandBufferQueue) : CommandBufferQueue :=
  {| mCircularBuffer := mCircularBuffer q;
     mCommandBuffersToExecute := mCommandBuffersToExecute q;
     mExitRequested := true |}.

(** "waitForCommands(): suspends the calling thread until at least one
    buffer descriptor is available or an exit has been requested; returns
    the available descriptors (possibly empty, which signals exit now)".
    [None] is the suspended caller.  Without threads "both roles run
    inline on the single thread": nobody could wake a suspended caller,
    and the call hands out what is available at once. *)
Definition waitForCommands (threading : bool) (q : CommandBufferQueue)
  : option (list Slice * CommandBufferQueue) :=
  match mCommandBuffersToExecute q with
  | [] =>
      if threading && negb (mExitRequested q) then None else Some ([], q)
  | buffers =>
      Some (buffers,
            {| mCircularBuffer := mCircularBuffer q;
               mCommandBuffersToExecute := [];
               mExitRequested := mExitRequested q |})
  end.
End Queue.

(** ** Entities and component managers *)

Abbreviation Entity := N.

Local Open Scope float_scope.

(** The math library's [mat4f]: four columns of four floats. *)
Record float4 := mkFloat4 { x : float; y : float; z : float; w : float }.
Record mat4f := mkMat4f
  { col0 : float4; col1 : float4; col2 : float4; col3 : float4 }.

(** Modelled from the spec: the math library is not part of the sources;
    the default constructor [mat4f()] yields the identity matrix. *)
Definition mat4f_default : mat4f :=
  mkMat4f (mkFloat4 1 0 0 0) (mkFloat4 0 1 0 0)
          (mkFloat4 0 0 1 0) (mkFloat4 0 0 0 1).

Local Close Scope float_scope.

(** One transform component: the instance of the parent ([0] is the null
    instance, no parent) and the local transform. *)
Record Transform := mkTransform { parent : N; localTransform : mat4f }.

(** The four component managers of the engine. *)
Inductive Manager :=
  | FRenderableManager | FLightManager | FTransformManager | FCameraManager.

#[global] Instance Manager_eq_dec : EqDecision Manager.
Proof. solve_decision. Defined.

(** Modelled from the spec: the component managers are not part of the
    sources.  A manager records which entities own a component; the
    transform manager also records the component of each.  The "GC sweep"
    is the "removal of component-manager entries whose owning entity no
    longer exists". *)
Module Components.
Definition hasComponent (tcm : gmap Entity Transform) (e : Entity) : bool :=
  bool_decide (is_Some (tcm !! e)).
Definition create (e : Entity) (parent : N) (localTransform : mat4f)
    (tcm : gmap Entity Transform) : gmap Entity Transform :=
  <[e := mkTransform parent localTransform]> tcm.
Definition gc (em : gset Entity) (m : gset Entity) : gset Entity :=
  filter (λ e, e ∈ em) m.
Definition gcTransforms (em : gset Entity) (tcm : gmap Entity Transform)
  : gmap Entity Transform :=
  filter (λ kv, kv.1 ∈ em) tcm.
End Components.

(** ** Job system *)

Inductive RunFlags := NO_FLAGS | DONT_SIGNAL.

#[global] Instance RunFlags_eq_dec : EqDecision RunFlags.
Proof. solve_decision. Defined.

(** A job: its parent, the work it wraps (here always the [gc] member of
    one component manager, bound to the entity manager), the flags it was
    submitted with ([None] until [run]) and whether it has completed. *)
Record Job := mkJob {
  jobParent : option nat;
  jobWork : option Manager;
  jobRun : option RunFlags;
  jobDone : bool
}.

(** ** Calls on collaborators *)

Inductive Backend := DEFAULT | OPENGL | VULKAN | METAL | NOOP.

#[global] Instance Backend_eq_dec : EqDecision Backend.
Proof. solve_decision. Defined.

Inductive Subsystem :=
  | PostProcessManager | ResourceAllocator | DFG
  | RenderableManager | LightManager | CameraManager.

#[global] Instance Subsystem_eq_dec : EqDecision Subsystem.
Proof. solve_decision. Defined.

Inductive Event :=
  (* resource lists, resources and the heap allocator *)
  | HeapMake (T : Kind) (p : Ptr)
  | ListInsert (list : ListRef) (p : Ptr)
  | ListRemove (list : ListRef) (p : Ptr) (found : bool)
  | ListGetListAndClear (list : ListRef)
  | Terminate (T : Kind) (p : Ptr)
  | HeapDestroy (T : Kind) (p : Ptr)
  (* slog.d and the non-fatal panic log *)
  | LogCreated (instance : Ptr)
  | LogResolvedBackend (backend : Backend)
  | LogHighWatermark
  | LogLeaked (T : Kind) (n : nat)
  | LogDoesntExist (T : Kind) (p : Ptr)
  | PanicLog (material : Ptr) (instances : nat)
  (* engine-owned state *)
  | SubsystemTerminate (s : Subsystem)
  | DestroyRenderPrimitive
  | Init
  | RenderableCreate (builder : Ptr) (e : Entity)
  (* driver and command queue *)
  | DriverPurge
  | QueueFlush (b : Slice)
  | QueueRequestExit
  | WaitForCommands (buffers : list Slice)
  | StreamExecute (begin : Ptr)
  | ReleaseBuffer (b : Slice)
  | DriverTerminate
  | DriverAllocate (size alignment : N)
  (* threads and job system *)
  | ThreadStart
  | BarrierLatch
  | BarrierAwait
  | SetThreadName
  | SetThreadPriority
  | SetThreadAffinity
  | ThreadJoin
  | JobSystemAdopt
  | JobSystemCreateJob (job : nat) (parent : option nat) (work : option Manager)
  | JobSystemRun (job : nat) (flags : RunFlags)
  | JobSystemRunAndWait (job : nat)
  | JobExecuted (job : nat)
  | JobSystemEmancipate
  | MarkTerminated.

#[global] Instance Event_eq_dec : EqDecision Event.
Proof. solve_decision. Defined.

(** ** The engine *)

Inductive ThreadStatus := ThreadNotStarted | ThreadRunning | ThreadReturned.

#[global] Instance ThreadStatus_eq_dec : EqDecision ThreadStatus.
Proof. solve_decision. Defined.

Record FEngine := mkFEngine {
  mBackend : Backend;
  mPlatform : Ptr;
  mOwnPlatform : bool;
  mSharedGLContext : Ptr;
  mDriver : Ptr;
  mDriverThread : ThreadStatus;
  mCommandBufferQueue : CommandBufferQueue;
  lists : ResourceLists;
  mFullScreenTriangleVb : Ptr;
  mFullScreenTriangleIb : Ptr;
  mDefaultIblTexture : Ptr;
  mDefaultIbl : Ptr;
  mDefaultMaterial : Ptr;
  mSkyboxMaterial : Ptr;
  mEntityManager : gset Entity;
  mRenderableManager : gset Entity;
  mTransformManager : gmap Entity Transform;
  mLightManager : gset Entity;
  mCameraManager : gset Entity;
  mJobSystem : list Job;
  mTerminated : bool;
  trace : list Event
}.

Definition set_mBackend (v : Backend) (e : FEngine) : FEngine :=
  let '(mkFEngine _ a2 a3 a4 a5 a6 a7 a8 a9 a10 a11 a12 a13 a14 a15 a16 a17
                  a18 a19 a20 a21 a22) := e in
  mkFEngine v a2 a3 a4 a5 a6 a7 a8 a9 a10 a11 a12 a13 a14 a15 a16 a17 a18 a19
            a20 a21 a22.
Definition set_mPlatform (v : Ptr) (e : FEngine) : FEngine :=
  let '(mkFEngine a1 _ a3 a4 a5 a6 a7 a8 a9 a10 a11 a12 a13 a14 a15 a16 a17
                  a18 a19 a20 a21 a22) := e in
  mkFEngine a1 v a3 a4 a5 a6 a7 a8 a9 a10 a11 a12 a13 a14 a15 a16 a17 a18 a19
            a20 a21 a22.
Definition set_mOwnPlatform (v : bool) (e : FEngine) : FEngine :=
  let '(mkFEngine a1 a2 _ a4 a5 a6 a7 a8 a9 a10 a11 a12 a13 a14 a15 a16 a17
                  a18 a19 a20 a21 a22) := e in
  mkFEngine a1 a2 v a4 a5 a6 a7 a8 a9 a10 a11 a12 a13 a14 a15 a16 a17 a18 a19
            a20 a21 a22.
Definition set_mDriver (v : Ptr) (e : FEngine) : FEngine :=
  let '(mkFEngine a1 a2 a3 a4 _ a6 a7 a8 a9 a10 a11 a12 a13 a14 a15 a16 a17
                  a18 a19 a20 a21 a22) := e in
  mkFEngine a1 a2 a3 a4 v a6 a7 a8 a9 a10 a11 a12 a13 a14 a15 a16 a17 a18 a19
            a20 a21 a22.
Definition set_mDriverThread (v : ThreadStatus) (e : FEngine) : FEngine :=
  let '(mkFEngine a1 a2 a3 a4 a5 _ a7 a8 a9 a10 a11 a12 a13 a14 a15 a16 a17
                  a18 a19 a20 a21 a22) := e in
  mkFEngine a1 a2 a3 a4 a5 v a7 a8 a9 a10 a11 a12 a13 a14 a15 a16 a17 a18 a19
            a20 a21 a22.
Definition set_mCommandBufferQueue (v : CommandBufferQueue) (e : FEngine)
  : FEngine :=
  let '(mkFEngine a1 a2 a3 a4 a5 a6 _ a8 a9 a10 a11 a12 a13 a14 a15 a16 a17
                  a18 a19 a20 a21 a22) := e in
  mkFEngine a1 a2 a3 a4 a5 a6 v a8 a9 a10 a11 a12 a13 a14 a15 a16 a17 a18 a19
            a20 a21 a22.
Definition set_lists (v : ResourceLists) (e : FEngine) : FEngine :=
  let '(mkFEngine a1 a2 a3 a4 a5 a6 a7 _ a9 a10 a11 a12 a13 a14 a15 a16 a17
                  a18 a19 a20 a21 a22) := e in
  mkFEngine a1 a2 a3 a4 a5 a6 a7 v a9 a10 a11 a12 a13 a14 a15 a16 a17 a18 a19
            a20 a21 a22.
Definition set_mRenderableManager (v : gset Entity) (e : FEngine) : FEngine :=
  let '(mkFEngine a1 a2 a3 a4 a5 a6 a7 a8 a9 a10 a11 a12 a13 a14 a15 _ a17
                  a18 a19 a20 a21 a22) := e in
  mkFEngine a1 a2 a3 a4 a5 a6 a7 a8 a9 a10 a11 a12 a13 a14 a15 v a17 a18 a19
            a20 a21 a22.
Definition set_mTransformManager (v : gmap Entity Transform) (e : FEngine)
  : FEngine :=
  let '(mkFEngine a1 a2 a3 a4 a5 a6 a7 a8 a9 a10 a11 a12 a13 a14 a15 a16 _
                  a18 a19 a20 a21 a22) := e in
  mkFEngine a1 a2 a3 a4 a5 a6 a7 a8 a9 a10 a11 a12 a13 a14 a15 a16 v a18 a19
            a20 a21 a22.
Definition set_mLightManager (v : gset Entity) (e : FEngine) : FEngine :=
  let '(mkFEngine a1 a2 a3 a4 a5 a6 a7 a8 a9 a10 a11 a12 a13 a14 a15 a16 a17
                  _ a19 a20 a21 a22) := e in
  mkFEngine a1 a2 a3 a4 a5 a6 a7 a8 a9 a10 a11 a12 a13 a14 a15 a16 a17 v a19
            a20 a21 a22.
Definition set_mCameraManager (v : gset Entity) (e : FEngine) : FEngine :=
  let '(mkFEngine a1 a2 a3 a4 a5 a6 a7 a8 a9 a10 a11 a12 a13 a14 a15 a16 a17
                  a18 _ a20 a21 a22) := e in
  mkFEngine a1 a2 a3 a4 a5 a6 a7 a8 a9 a10 a11 a12 a13 a14 a15 a16 a17 a18 v
            a20 a21 a22.
Definition set_mJobSystem (v : list Job) (e : FEngine) : FEngine :=
  let '(mkFEngine a1 a2 a3 a4 a5 a6 a7 a8 a9 a10 a11 a12 a13 a14 a15 a16 a17
                  a18 a19 _ a21 a22) := e in
  mkFEngine a1 a2 a3 a4 a5 a6 a7 a8 a9 a10 a11 a12 a13 a14 a15 a16 a17 a18 a19
            v a21 a22.
Definition set_mTerminated (v : bool) (e : FEngine) : FEngine :=
  let '(mkFEngine a1 a2 a3 a4 a5 a6 a7 a8 a9 a10 a11 a12 a13 a14 a15 a16 a17
                  a18 a19 a20 _ a22) := e in
  mkFEngine a1 a2 a3 a4 a5 a6 a7 a8 a9 a10 a11 a12 a13 a14 a15 a16 a17 a18 a19
            a20 v a22.
Definition set_trace (v : list Event) (e : FEngine) : FEngine :=
  let '(mkFEngine a1 a2 a3 a4 a5 a6 a7 a8 a9 a10 a11 a12 a13 a14 a15 a16 a17
                  a18 a19 a20 a21 _) := e in
  mkFEngine a1 a2 a3 a4 a5 a6 a7 a8 a9 a10 a11 a12 a13 a14 a15 a16 a17 a18 a19
            a20 a21 v.

(** What a debug build logs, and a release build does not. *)
Definition logged (NDEBUG : bool) (msg : Event) : list Event :=
  if NDEBUG then [] else [msg].

(** ** Engine operations as state transformers *)

(** An operation of the engine takes the engine and returns a result and
    the engine it leaves. *)
Definition M (A : Type) : Type := FEngine → A * FEngine.

#[global] Instance M_ret : MRet M := λ A a e, (a, e).
#[global] Instance M_bind : MBind M :=
  λ A B f m e, let '(a, e') := m e in f a e'.

Definition get : M FEngine := λ e, (e, e).

(** Runs [f] on every element, in order: [for (T* item : copy) ...]. *)
Fixpoint forEach {A : Type} (l : list A) (f : A → M unit) : M unit :=
  match l with
  | [] => mret tt
  | a :: l' => f a ;; forEach l' f
  end.

(** The engine an operation leaves. *)
Definition exec {A : Type} (m : M A) (e : FEngine) : FEngine := (m e).2.

(** Appends one call to the trace. *)
Definition emit (ev : Event) : M unit :=
  λ e, (tt, set_trace (trace e ++ [ev]) e).

(** [list.insert(p)] *)
Definition list_insert (list : ListRef) (p : Ptr) : M unit :=
  λ e, (tt, set_lists
              (setList list (ResourceList.insert p (getList list (lists e)))
                 (lists e))
              (set_trace (trace e ++ [ListInsert list p]) e)).

(** [list.remove(ptr)] *)
Definition list_remove (list : ListRef) (ptr : Ptr) : M bool :=
  λ e, let '(found, l) := ResourceList.remove ptr (getList list (lists e)) in
       (found, set_lists (setList list l (lists e))
                 (set_trace (trace e ++ [ListRemove list ptr found]) e)).

(** [list.empty()] and [list.size()] *)
Definition list_empty (list : ListRef) : M bool :=
  λ e, (ResourceList.empty (getList list (lists e)), e).
Definition list_size (list : ListRef) : M nat :=
  λ e, (ResourceList.size (getList list (lists e)), e).

(** [list.getListAndClear()] *)
Definition list_getListAndClear (list : ListRef) : M (Datatypes.list Ptr) :=
  λ e, let '(copy, l) :=
         ResourceList.getListAndClear (getList list (lists e)) in
       (copy, set_lists (setList list l (lists e))
                (set_trace (trace e ++ [ListGetListAndClear list]) e)).

(** [item->terminate( *this)] and [mHeapAllocator.destroy(item)]: the
    resource classes and the allocator are collaborators, their calls are
    recorded. *)
Definition terminate (T : Kind) (item : Ptr) : M unit := emit (Terminate T item).
Definition heap_destroy (T : Kind) (item : Ptr) : M unit :=
  emit (HeapDestroy T item).

(** Modelled from the spec: [ASSERT_PRECONDITION_NON_FATAL] comes from
    [utils/Panic.h], which is not part of the sources.  A violation is
    "reported non-fatally": it is logged and the macro yields [false]. *)
Definition ASSERT_PRECONDITION_NON_FATAL (cond : bool) (msg : Event) : M bool :=
  if cond then mret true else (emit msg ;; mret false).

Section Engine.

(** The two compile-time switches the file tests. *)
Variable UTILS_HAS_THREADING : bool.
Variable NDEBUG : bool.

(** [slog.d << ...] inside [#ifndef NDEBUG]. *)
Definition debug_log (msg : Event) : M unit :=
  if NDEBUG then mret tt else emit msg.

(** [FEngine::cleanupResourceList] *)
Definition cleanupResourceList (list : ListRef) : M unit :=
  empty ← list_empty list;
  if negb empty then
    n ← list_size list;
    debug_log (LogLeaked (elemType list) n) ;;
    copy ← list_getListAndClear list;
    forEach copy (λ item,
      terminate (elemType list) item ;;
      heap_destroy (elemType list) item)
  else mret tt.

(** [FEngine::terminateAndDestroy] *)
Definition terminateAndDestroy (ptr : Ptr) (list : ListRef) : M unit :=
  if bool_decide (ptr ≠ nullptr) then
    removed ← list_remove list ptr;
    if (removed : bool) then
      terminate (elemType list) ptr ;;
      heap_destroy (elemType list) ptr
    else
      debug_log (LogDoesntExist (elemType list) ptr)
  else mret tt.

(** [FEngine::destroy(const FMaterial* )] *)
Definition destroy_FMaterial (ptr : Ptr) : M unit :=
  if bool_decide (ptr ≠ nullptr) then
    λ e,
      match mMaterialInstances (lists e) !! ptr with
      | Some instances =>
          (ok ← ASSERT_PRECONDITION_NON_FATAL
                  (ResourceList.empty instances)
                  (PanicLog ptr (ResourceList.size instances));
           if negb ok then mret tt
           else terminateAndDestroy ptr Materials) e
      | None => terminateAndDestroy ptr Materials e
      end
  else mret tt.

(** The overloads [FEngine::destroy(const T* )] that forward to
    [terminateAndDestroy]. *)
Definition destroy_FVertexBuffer (p : Ptr) := terminateAndDestroy p VertexBuffers.
Definition destroy_FIndexBuffer (p : Ptr) := terminateAndDestroy p IndexBuffers.
Definition destroy_FRenderer (p : Ptr) := terminateAndDestroy p Renderers.
Definition destroy_FScene (p : Ptr) := terminateAndDestroy p Scenes.
Definition destroy_FSkybox (p : Ptr) := terminateAndDestroy p Skyboxes.
Definition destroy_FTexture (p : Ptr) := terminateAndDestroy p Textures.
Definition destroy_FRenderTarget (p : Ptr) := terminateAndDestroy p RenderTargets.
Definition destroy_FView (p : Ptr) := terminateAndDestroy p Views.
Definition destroy_FIndirectLight (p : Ptr) := terminateAndDestroy p IndirectLights.
Definition destroy_FFence (p : Ptr) := terminateAndDestroy p Fences.
Definition destroy_FSwapChain (p : Ptr) := terminateAndDestroy p SwapChains.
Definition destroy_FStream (p : Ptr) := terminateAndDestroy p Streams.

(** [FEngine::destroy(const FMaterialInstance* )].  [getMaterial] reads the
    material stored in the instance object.  The [assert] is compiled in
    debug builds only, where its failure aborts: [None]. *)
Definition destroy_FMaterialInstance (getMaterial : Ptr → Ptr) (ptr : Ptr)
  : FEngine → option (unit * FEngine) :=
  λ e,
    if bool_decide (ptr ≠ nullptr) then
      match mMaterialInstances (lists e) !! getMaterial ptr with
      | Some _ =>
          Some (terminateAndDestroy ptr (MaterialInstances (getMaterial ptr)) e)
      | None => if NDEBUG then Some (tt, e) else None
      end
    else Some (tt, e).

(** A client destroys the material instances [ps], one after the other. *)
Fixpoint destroyInstances (getMaterial : Ptr → Ptr) (ps : Datatypes.list Ptr)
    (e : FEngine) : option FEngine :=
  match ps with
  | [] => Some e
  | p :: ps =>
      match destroy_FMaterialInstance getMaterial p e with
      | Some (_, e) => destroyInstances getMaterial ps e
      | None => None
      end
  end.

End Engine.

(** *** Creation

    [mHeapAllocator.make<T>(...)] is a call on the allocator: the address
    it returns, [p], is an input of the model. *)

(** [FEngine::create(ResourceList<T>&, T::Builder const&)] *)
Definition create (list : ListRef) (p : Ptr) : M Ptr :=
  emit (HeapMake (elemType list) p) ;;
  list_insert list p ;;
  mret p.

Definition createVertexBuffer := create VertexBuffers.
Definition createIndexBuffer := create IndexBuffers.
Definition createTexture := create Textures.
Definition createIndirectLight := create IndirectLights.
Definition createMaterial := create Materials.
Definition createSkybox := create Skyboxes.
Definition createStream := create Streams.
Definition createRenderTarget := create RenderTargets.

(** [createScene], [createView], [createFence], [createSwapChain]:
    [if (p) { list.insert(p); } return p;] *)
Definition create_checked (list : ListRef) (p : Ptr) : M Ptr :=
  emit (HeapMake (elemType list) p) ;;
  (if bool_decide (p ≠ nullptr) then list_insert list p else mret tt) ;;
  mret p.

Definition createScene := create_checked Scenes.
Definition createView := create_checked Views.
Definition createFence := create_checked Fences.
Definition createSwapChain := create_checked SwapChains.

(** [FEngine::createMaterialInstance]: [emplace] adds an empty list for
    the material unless it has one already. *)
Definition createMaterialInstance (material : Ptr) (p : Ptr) : M Ptr :=
  emit (HeapMake FMaterialInstance p) ;;
  (if bool_decide (p ≠ nullptr) then
     (λ e,
        match mMaterialInstances (lists e) !! material with
        | Some _ => (tt, e)
        | None =>
            (tt, set_lists
                   (let r := lists e in
                    mkResourceLists (mRenderers r) (mViews r) (mScenes r)
                      (mSkyboxes r) (mIndexBuffers r) (mVertexBuffers r)
                      (mTextures r) (mRenderTargets r) (mMaterials r)
                      (mFences r) (mIndirectLights r) (mSwapChains r)
                      (mStreams r) (<[material := ∅]> (mMaterialInstances r)))
                   e)
        end) ;;
     list_insert (MaterialInstances material) p
   else mret tt) ;;
  mret p.

(** ** Operations that can suspend or abort

    [None] is a caller that never gets the control back: suspended for
    ever, or stopped by a fatal assertion or a dereferenced null pointer. *)
Definition B (A : Type) : Type := FEngine → option (A * FEngine).

#[global] Instance B_ret : MRet B := λ A a e, Some (a, e).
#[global] Instance B_bind : MBind B :=
  λ A B f m e, match m e with Some (a, e') => f a e' | None => None end.

Definition lift {A : Type} (m : M A) : B A := λ e, Some (m e).

(** ** Command queue and driver thread *)

(** [mCommandBufferQueue.releaseBuffer(item)] *)
Definition releaseBuffer (item : Slice) : M unit := emit (ReleaseBuffer item).

(** [commandQueue.flush()]; the call is recorded with the descriptor it
    publishes. *)
Definition queue_flush : M unit :=
  λ e, (tt, set_mCommandBufferQueue (Queue.flush (mCommandBufferQueue e))
              (set_trace
                 (trace e ++ [QueueFlush (mCircularBuffer (mCommandBufferQueue e))])
                 e)).

(** [FEngine::flushCommandBuffer] *)
Definition flushCommandBuffer : M unit :=
  emit DriverPurge ;;
  queue_flush.

(** [FEngine::flush] *)
Definition flush : M unit := flushCommandBuffer.

(** [mCommandBufferQueue.requestExit()] *)
Definition requestExit : M unit :=
  λ e, (tt, set_mCommandBufferQueue (Queue.requestExit (mCommandBufferQueue e))
              (set_trace (trace e ++ [QueueRequestExit]) e)).

Section Driver.

Variable UTILS_HAS_THREADING : bool.

(** [mCommandBufferQueue.waitForCommands()] *)
Definition waitForCommands : B (list Slice) :=
  λ e, match Queue.waitForCommands UTILS_HAS_THREADING (mCommandBufferQueue e) with
       | Some (buffers, q) =>
           Some (buffers,
                 set_mCommandBufferQueue q
                   (set_trace (trace e ++ [WaitForCommands buffers]) e))
       | None => None
       end.

(** [FEngine::execute] *)
Definition execute : B bool :=
  buffers ← waitForCommands;
  if bool_decide (buffers = []) then mret false
  else
    lift (forEach buffers (λ item,
            if bool_decide (begin item ≠ nullptr) then
              emit (StreamExecute (begin item)) ;;
              releaseBuffer item
            else mret tt)) ;;
    mret true.

(** The body of [while (true)] in [FEngine::loop]; [false] is [break]. *)
Definition loop_body : B bool :=
  lift (emit SetThreadAffinity) ;;
  execute.

(** [while (true) { ...; if (!execute()) break; }], with fuel. *)
Fixpoint loop_while (fuel : nat) : B unit :=
  match fuel with
  | O => λ _, None
  | S n => continue ← loop_body; if (continue : bool) then loop_while n else mret tt
  end.

(** After the loop: [getDriverApi().terminate(); return 0;] *)
Definition thread_return : M unit :=
  λ e, (tt, set_mDriverThread ThreadReturned e).
Definition loop_end : M unit :=
  emit DriverTerminate ;;
  thread_return.

(** [mDriverThread.join()] in the run in which the driver thread takes
    its turns only while the caller waits for it: the caller is suspended
    until the thread function has returned; meanwhile the driver thread
    runs, from the head of its loop, where it has two iterations ahead at
    most (see [loop_while_fuel]).  A thread that was never started cannot
    be joined.  The runs in which the driver thread takes its turns at any
    time are those of [run], below, where [thread_join] only waits. *)
Definition join : B unit :=
  λ e, match mDriverThread e with
       | ThreadReturned => lift (emit ThreadJoin) e
       | ThreadRunning =>
           (loop_while 2 ;; lift loop_end ;; lift (emit ThreadJoin)) e
       | ThreadNotStarted => None
       end.

Variable NDEBUG : bool.

(** [mTerminated = true;] *)
Definition mark_terminated : M unit :=
  λ e, (tt, set_mTerminated true (set_trace (trace e ++ [MarkTerminated]) e)).

(** [FEngine::shutdown], lines 242 to 295: the engine destroys its own
    state, then cleans up after the user.  The calls are recorded; the
    commands they serialise are added by [recording], below. *)
Definition shutdown_cleanup : M unit :=
  debug_log NDEBUG LogHighWatermark ;;
  (* Destroy our own state first *)
  emit (SubsystemTerminate PostProcessManager) ;;
  emit (SubsystemTerminate ResourceAllocator) ;;
  emit (SubsystemTerminate DFG) ;;
  emit (SubsystemTerminate RenderableManager) ;;
  emit (SubsystemTerminate LightManager) ;;
  emit (SubsystemTerminate CameraManager) ;;
  emit DestroyRenderPrimitive ;;
  (e ← get; destroy_FIndexBuffer NDEBUG (mFullScreenTriangleIb e)) ;;
  (e ← get; destroy_FVertexBuffer NDEBUG (mFullScreenTriangleVb e)) ;;
  (e ← get; destroy_FTexture NDEBUG (mDefaultIblTexture e)) ;;
  (e ← get; destroy_FIndirectLight NDEBUG (mDefaultIbl e)) ;;
  (e ← get; destroy_FMaterial NDEBUG (mDefaultMaterial e)) ;;
  (* clean-up after the user; try to destroy objects in the inverse
     dependency *)
  cleanupResourceList NDEBUG Renderers ;;
  cleanupResourceList NDEBUG Views ;;
  cleanupResourceList NDEBUG Scenes ;;
  cleanupResourceList NDEBUG Skyboxes ;;
  (* this must be done after Skyboxes and before materials *)
  (e ← get; destroy_FMaterial NDEBUG (mSkyboxMaterial e)) ;;
  cleanupResourceList NDEBUG IndexBuffers ;;
  cleanupResourceList NDEBUG VertexBuffers ;;
  cleanupResourceList NDEBUG Textures ;;
  cleanupResourceList NDEBUG RenderTargets ;;
  cleanupResourceList NDEBUG Materials ;;
  (e ← get;
   forEach (map_to_list (mMaterialInstances (lists e))) (λ item,
     cleanupResourceList NDEBUG (MaterialInstances item.1))) ;;
  cleanupResourceList NDEBUG Fences.

(** [FEngine::shutdown], in the run in which the driver thread takes its
    turns only while the caller waits in [join]; [shutdown_statements], below,
    gives its statements for the runs in which the two threads take turns
    in any order. *)
Definition shutdown : B unit :=
  lift shutdown_cleanup ;;
  (* There might be commands added by the terminate() calls *)
  lift flushCommandBuffer ;;
  (if negb UTILS_HAS_THREADING then execute ;; mret tt else mret tt) ;;
  (* terminate the rendering engine *)
  lift requestExit ;;
  (if UTILS_HAS_THREADING then join else mret tt) ;;
  (* detach this thread from the jobsystem *)
  lift (emit JobSystemEmancipate) ;;
  lift mark_terminated.

End Driver.

(** *** The driver thread and the client thread, interleaved

    With threads the client thread and the driver thread take turns, in
    any order; each turn is one call on the state they share. *)

(** What the client thread does to the command queue. *)
Inductive Action :=
  | ClientWrite (n : N)
  | ClientFlush
  | ClientRequestExit.

(** The action as a statement of the client thread; [ClientFlush] is
    [FEngine::flush]. *)

(** The driver API writes [n] more bytes of commands. *)
Definition client_write (n : N) : M unit :=
  λ e, let q := mCommandBufferQueue e in
       let b := mCircularBuffer q in
       (tt, set_mCommandBufferQueue
              (mkQueue (mkSlice (begin b) (sliceSize b + n))
                       (mCommandBuffersToExecute q) (mExitRequested q)) e).

Definition produce (a : Action) : B unit :=
  match a with
  | ClientWrite n => lift (client_write n)
  | ClientFlush => lift flush
  | ClientRequestExit => lift requestExit
  end.

(** Where the driver thread stands in lines 437 to 447 of [FEngine::loop]
    and in the [execute] it calls: at the head of [while (true)]; in
    [execute], about to call [waitForCommands], or suspended in it; in the
    [for] of [execute], with the buffers still to look at; between
    [mCommandStream.execute(item.begin)] and [releaseBuffer(item)]; after
    the [break]. *)
Inductive DriverPc :=
  | AtLoopHead
  | InWaitForCommands
  | Replaying (buffers : list Slice)
  | Releasing (item : Slice) (buffers : list Slice)
  | AfterLoop.

#[global] Instance DriverPc_eq_dec : EqDecision DriverPc.
Proof. solve_decision. Defined.

(** The next call of the driver thread, and where it then stands; a
    thread suspended in [waitForCommands] makes none.  These are the
    statements of [loop_body], [execute] and [loop_end], one at a time. *)
Definition driver_step (pc : DriverPc) : B DriverPc :=
  match pc with
  | AtLoopHead =>
      (* looks like thread affinity needs to be reset regularly *)
      lift (emit SetThreadAffinity) ;; mret InWaitForCommands
  | InWaitForCommands =>
      (* wait until we get command buffers to be executed (or thread exit
         requested) *)
      buffers ← waitForCommands true;
      (* if (buffers.empty()) return false, and [loop] breaks *)
      mret (if bool_decide (buffers = []) then AfterLoop else Replaying buffers)
  | Replaying [] =>
      (* return true, and [loop] goes on *)
      mret AtLoopHead
  | Replaying (item :: buffers) =>
      (* execute all command buffers *)
      if bool_decide (begin item ≠ nullptr) then
        lift (emit (StreamExecute (begin item))) ;; mret (Releasing item buffers)
      else mret (Replaying buffers)
  | Releasing item buffers =>
      lift (releaseBuffer item) ;; mret (Replaying buffers)
  | AfterLoop =>
      (* terminate() is a synchronous API *)
      lift loop_end ;; mret AfterLoop
  end.

(** [mDriverThread.join()] under interleaving: the caller is suspended
    until the thread function has returned. *)
Definition thread_join : B unit :=
  λ e, match mDriverThread e with
       | ThreadReturned => lift (emit ThreadJoin) e
       | _ => None
       end.

(** The two threads: the engine they share, where the driver thread
    stands, and the statements the client thread has still to run. *)
Record Threads := mkThreads {
  shared : FEngine;
  driverPc : DriverPc;
  clientTodo : list (B unit)
}.

(** Whose turn it is. *)
Inductive Turn := ClientTurn | DriverTurn.

(** The client thread runs its next statement, unless it is suspended
    in it. *)
Definition client_turn (th : Threads) : Threads :=
  match clientTodo th with
  | [] => th
  | statement :: rest =>
      match statement (shared th) with
      | Some (_, e) => mkThreads e (driverPc th) rest
      | None => th
      end
  end.

(** The driver thread, if it runs, makes its next call. *)
Definition driver_turn (th : Threads) : Threads :=
  match mDriverThread (shared th) with
  | ThreadRunning =>
      match driver_step (driverPc th) (shared th) with
      | Some (pc, e) => mkThreads e pc (clientTodo th)
      | None => th
      end
  | _ => th
  end.

(** One turn, and the run of a schedule of turns. *)
Definition turn (th : Threads) (t : Turn) : Threads :=
  match t with
  | ClientTurn => client_turn th
  | DriverTurn => driver_turn th
  end.

Definition run (schedule : list Turn) (th : Threads) : Threads :=
  foldl turn th schedule.

(** *** The commands of the cleanup

    "There might be commands added by the terminate() calls": a call on
    [driver], which is the command stream, or a [terminate] that makes
    such calls, serialises commands at the end of the circular buffer.
    How many bytes a call serialises is up to the collaborator:
    [commandBytes]. *)
Section CommandStream.

Variable commandBytes : Event → N.

(** The bytes of the commands that [calls] serialise. *)
Definition serialised (calls : list Event) : N :=
  foldr (λ ev n, commandBytes ev + n)%N 0%N calls.

(** [m], with the commands that the calls it makes serialise: they are
    in the circular buffer before anything is flushed. *)
Definition recording {A : Type} (m : M A) : M A :=
  λ e, let '(a, e') := m e in
       (a, exec (client_write (serialised (drop (length (trace e)) (trace e')))) e').

Variable UTILS_HAS_THREADING : bool.
Variable NDEBUG : bool.

(** The statements of [FEngine::shutdown], as the client thread runs them
    one after the other: lines 242 to 295 with the commands they
    serialise, then lines 297 to 315, where [flushCommandBuffer] is its
    two calls.  Lines 242 to 295 are one statement: what they do depends
    neither on the queue nor on the state of the driver thread
    ([uniform_shutdown_cleanup]). *)
Definition shutdown_statements : list (B unit) :=
  [ lift (recording (shutdown_cleanup NDEBUG));
    (* There might be commands added by the terminate() calls *)
    lift (emit DriverPurge);
    lift queue_flush ]
  ++ (if negb UTILS_HAS_THREADING
      then [execute UTILS_HAS_THREADING ;; mret tt] else [])
  (* terminate the rendering engine *)
  ++ [ lift requestExit ]
  ++ (if UTILS_HAS_THREADING then [thread_join] else [])
  (* detach this thread from the jobsystem *)
  ++ [ lift (emit JobSystemEmancipate);
       (* mTerminated = true *)
       lift mark_terminated ].

End CommandStream.

(** What a trace says was flushed, replayed and released, in order. *)
Definition flushed (tr : list Event) : list Slice :=
  omap (λ ev, match ev with QueueFlush b => Some b | _ => None end) tr.
Definition executed (tr : list Event) : list Ptr :=
  omap (λ ev, match ev with StreamExecute p => Some p | _ => None end) tr.
Definition released (tr : list Event) : list Slice :=
  omap (λ ev, match ev with ReleaseBuffer b => Some b | _ => None end) tr.
Definition nonEmpty (buffers : list Slice) : list Slice :=
  filter (λ item, begin item ≠ nullptr) buffers.

(** ** Engine factory and instance registry *)

Inductive GlobalEvent :=
  | MutexLock
  | MutexUnlock
  | EnginesFind (engine : Ptr) (found : bool)
  | EnginesInsert (handle : Ptr)
  | PanicPostcondition (engine : Ptr).

(** [sEngines] and [sEnginesLock]: the registry maps the address of an
    engine to the pointer that owns it; the lock is held or free. *)
Record Globals := mkGlobals {
  sEngines : gmap Ptr Ptr;
  sEnginesLock : bool;
  gtrace : list GlobalEvent
}.

(** What a call comes to: it returns a value, or the caller never gets the
    control back (suspended on a lock, aborted, or a null pointer was
    dereferenced). *)
Inductive Outcome (A : Type) :=
  | Returns (a : A)
  | NeverReturns.
Arguments Returns {A} a.
Arguments NeverReturns {A}.

(** Modelled from the spec: [ASSERT_POSTCONDITION] comes from
    [utils/Panic.h], which is not part of the sources; when the condition
    is false it "fails fatally": "abort the process after logging". *)
Definition ASSERT_POSTCONDITION (cond : bool) (msg : GlobalEvent) (g : Globals)
  : Outcome unit * Globals :=
  if cond then (Returns tt, g)
  else (NeverReturns,
        mkGlobals (sEngines g) (sEnginesLock g) (gtrace g ++ [msg])).

(** [FEngine::assertValid]: a caller that finds the lock held is
    suspended. *)
Definition assertValid (engine : Ptr) (g : Globals) : Outcome unit * Globals :=
  if sEnginesLock g then (NeverReturns, g)
  else
    (* scope for the lock *)
    let g1 := mkGlobals (sEngines g) true (gtrace g ++ [MutexLock]) in
    let valid := bool_decide (is_Some (sEngines g1 !! engine)) in
    let g2 := mkGlobals (sEngines g1) (sEnginesLock g1)
                (gtrace g1 ++ [EnginesFind engine valid]) in
    let g3 := mkGlobals (sEngines g2) false (gtrace g2 ++ [MutexUnlock]) in
    ASSERT_POSTCONDITION valid (PanicPostcondition engine) g3.

Section Factory.

Variable UTILS_HAS_THREADING : bool.

(** The collaborators of the factory: [platform->createDriver(context)],
    which yields the driver or [nullptr], and [DefaultPlatform::create],
    which yields a platform and may resolve the backend it was given. *)
Variable createDriver : Ptr → Ptr → Ptr.
Variable DefaultPlatform_create : Backend → Ptr * Backend.

(** The constructor [FEngine::FEngine]; [em] is [EntityManager::get()] and
    [buffer] the address of the circular buffer of the new queue. *)
Definition FEngine_new (backend : Backend) (platform sharedGLContext : Ptr)
    (em : gset Entity) (buffer : Ptr) : FEngine :=
  mkFEngine backend platform false sharedGLContext nullptr ThreadNotStarted
    (mkQueue (mkSlice buffer 0) [] false) noResources
    nullptr nullptr nullptr nullptr nullptr nullptr
    em ∅ ∅ ∅ ∅ [] false [JobSystemAdopt].

(** The platform the driver is created from: the one given, or a default
    one that the engine then owns.  [create] (without threads) and [loop]
    (with threads) both start with these lines. *)
Definition resolve_platform : M Ptr :=
  λ e, let platform := mPlatform e in
       let e := set_mPlatform nullptr e in
       if bool_decide (platform = nullptr) then
         let '(platform, backend) := DefaultPlatform_create (mBackend e) in
         (platform,
          set_mOwnPlatform true (set_mPlatform platform (set_mBackend backend e)))
       else (platform, e).

(** The platform [resolve_platform] yields for a new engine. *)
Definition resolved (backend : Backend) (platform : Ptr) : Ptr :=
  if bool_decide (platform = nullptr) then (DefaultPlatform_create backend).1
  else platform.

Definition create_driver (platform : Ptr) : M unit :=
  λ e, (tt, set_mDriver (createDriver platform (mSharedGLContext e)) e).

(** [FEngine::loop] up to the test of [mDriver]: [true] when the driver
    exists; otherwise the thread function returns.  The material debugger
    ([FILAMENT_ENABLE_MATDBG]) is taken to be compiled out. *)
Definition loop_begin : M bool :=
  e ← get;
  platform ← resolve_platform;
  (if bool_decide (mPlatform e = nullptr)
   then e ← get; emit (LogResolvedBackend (mBackend e)) else mret tt) ;;
  create_driver platform ;;
  emit BarrierLatch ;;
  e ← get;
  if bool_decide (mDriver e = nullptr) then thread_return ;; mret false
  else mret true.

(** [FEngine::loop] *)
Definition loop (fuel : nat) : B unit :=
  ok ← lift loop_begin;
  if (ok : bool) then
    lift (emit SetThreadName ;; emit SetThreadPriority) ;;
    loop_while UTILS_HAS_THREADING fuel ;;
    lift loop_end
  else mret tt.

(** [FEngine::init] starts with [CommandStream( *mDriver, ...)]: without a
    driver a null pointer is dereferenced.  The engine's own resources are
    built by builders that are not part of the sources; the call is
    recorded. *)
Definition init : B unit :=
  λ e, if bool_decide (mDriver e = nullptr) then None else lift (emit Init) e.

Definition thread_running : M unit :=
  λ e, (tt, set_mDriverThread ThreadRunning e).

(** [std::thread(&FEngine::loop, instance)] *)
Definition thread_start : M unit :=
  emit ThreadStart ;;
  thread_running.

(** The end of [FEngine::create]: the instance is added to the list of
    active engines under the lock, then initialized; without threads the
    pending commands are executed. *)
Definition register_and_init (instance : Ptr) (g : Globals) (e : FEngine)
  : Outcome Ptr * Globals * FEngine :=
  if sEnginesLock g then (NeverReturns, g, e)
  else
    let g := mkGlobals (<[instance := instance]> (sEngines g)) false
               (gtrace g ++ [MutexLock; EnginesInsert instance; MutexUnlock]) in
    match init e with
    | None => (NeverReturns, g, e)
    | Some (_, e) =>
        if negb UTILS_HAS_THREADING then
          match execute UTILS_HAS_THREADING e with
          | Some (_, e) => (Returns instance, g, e)
          | None => (NeverReturns, g, e)
          end
        else (Returns instance, g, e)
    end.

(** [FEngine::create(Backend, Platform*, void* )].  [instance] is the
    address [new FEngine] returns.  With threads, the new thread runs up to
    the latch of the barrier the creator awaits. *)
Definition FEngine_create (backend : Backend) (platform sharedGLContext : Ptr)
    (em : gset Entity) (buffer : Ptr) (instance : Ptr) (g : Globals)
  : Outcome Ptr * Globals * FEngine :=
  let e := exec (emit (LogCreated instance))
             (FEngine_new backend platform sharedGLContext em buffer) in
  if negb UTILS_HAS_THREADING then
    let e := exec (platform ← resolve_platform; create_driver platform) e in
    register_and_init instance g e
  else
    let e := exec (thread_start ;; loop_begin ;; emit BarrierAwait) e in
    if bool_decide (mDriver e = nullptr) then
      (* something went horribly wrong during driver initialization *)
      match join UTILS_HAS_THREADING e with
      | Some (_, e) => (Returns nullptr, g, e)
      | None => (NeverReturns, g, e)
      end
    else register_and_init instance g e.

End Factory.

(** ** Garbage collection of components *)

(** Modelled from the spec: the job system ([utils/JobSystem.h]) is not
    part of the sources.  It offers "createJob(), run(job, flags),
    runAndWait(parent): fork/join primitives with a don't-signal flag".
    A job is named by its index in the list of jobs. *)
Module JobSystem.
Definition createJob (parent : option nat) (work : option Manager)
    (js : list Job) : nat * list Job :=
  (length js, js ++ [mkJob parent work None false]).

Definition run (job : nat) (flags : RunFlags) (js : list Job) : list Job :=
  alter (λ j, mkJob (jobParent j) (jobWork j) (Some flags) (jobDone j)) job js.

Definition complete (job : nat) (js : list Job) : list Job :=
  alter (λ j, mkJob (jobParent j) (jobWork j) (jobRun j) true) job js.

(** A job and the children created under it. *)
Definition inFamily (parent : nat) (ij : nat * Job) : bool :=
  bool_decide (ij.1 = parent) || bool_decide (jobParent ij.2 = Some parent).

(** The jobs of the family that were submitted and have not completed. *)
Definition runnable (parent : nat) (js : list Job) : list nat :=
  (filter (λ ij, inFamily parent ij && bool_decide (is_Some (jobRun ij.2))
                 && negb (jobDone ij.2))
          (imap (λ i j, (i, j)) js)).*1.

(** Whether the whole family has completed. *)
Definition finished (parent : nat) (js : list Job) : bool :=
  forallb (λ ij, implb (inFamily parent ij) (jobDone ij.2))
          (imap (λ i j, (i, j)) js).
End JobSystem.

Definition js_createJob (parent : option nat) (work : option Manager) : M nat :=
  λ e, let '(job, js) := JobSystem.createJob parent work (mJobSystem e) in
       (job, set_mJobSystem js
               (set_trace (trace e ++ [JobSystemCreateJob job parent work]) e)).

Definition js_run (job : nat) (flags : RunFlags) : M unit :=
  λ e, (tt, set_mJobSystem (JobSystem.run job flags (mJobSystem e))
              (set_trace (trace e ++ [JobSystemRun job flags]) e)).

(** The sweep a job wraps: [&FRenderableManager::gc, &mRenderableManager,
    em] and the like, [em] being a reference to [mEntityManager]. *)
Definition sweep (m : Manager) : M unit :=
  λ e,
    let em := mEntityManager e in
    (tt, match m with
         | FRenderableManager =>
             set_mRenderableManager (Components.gc em (mRenderableManager e)) e
         | FLightManager =>
             set_mLightManager (Components.gc em (mLightManager e)) e
         | FTransformManager =>
             set_mTransformManager
               (Components.gcTransforms em (mTransformManager e)) e
         | FCameraManager =>
             set_mCameraManager (Components.gc em (mCameraManager e)) e
         end).

Definition job_complete (job : nat) : M unit :=
  λ e, (tt, set_mJobSystem (JobSystem.complete job (mJobSystem e))
              (set_trace (trace e ++ [JobExecuted job]) e)).

(** A worker executes one job: its work, if any, then its completion. *)
Definition executeJob (job : nat) : M unit :=
  λ e, match mJobSystem e !! job with
       | Some j =>
           (match jobWork j with Some m => sweep m | None => mret tt end ;;
            job_complete job) e
       | None => (tt, e)
       end.

Section GC.

(** The order in which the workers of the job system execute the jobs that
    are ready. *)
Variable scheduler : list nat → list nat.

(** The caller of [wait] gets the control back once the whole family of
    the job has completed. *)
Definition js_wait (job : nat) : B unit :=
  λ e, if JobSystem.finished job (mJobSystem e) then Some (tt, e) else None.

Definition js_submit (job : nat) : M unit :=
  λ e, (tt, set_mJobSystem (JobSystem.run job NO_FLAGS (mJobSystem e))
              (set_trace (trace e ++ [JobSystemRunAndWait job]) e)).

(** [js.runAndWait(parent)]: the job is submitted, the jobs of its family
    are executed in the order of the scheduler, and the caller waits for
    the family. *)
Definition js_runAndWait (job : nat) : B unit :=
  lift (js_submit job ;;
        e ← get;
        forEach (scheduler (JobSystem.runnable job (mJobSystem e))) executeJob) ;;
  js_wait job.

(** [FEngine::gc] *)
Definition gc : B unit :=
  parent ← lift (js_createJob None None);
  lift (job ← js_createJob (Some parent) (Some FRenderableManager);
        js_run job DONT_SIGNAL) ;;
  lift (job ← js_createJob (Some parent) (Some FLightManager);
        js_run job DONT_SIGNAL) ;;
  lift (job ← js_createJob (Some parent) (Some FTransformManager);
        js_run job DONT_SIGNAL) ;;
  lift (job ← js_createJob (Some parent) (Some FCameraManager);
        js_run job DONT_SIGNAL) ;;
  js_runAndWait parent.

End GC.

(** ** Stream allocations and renderables *)

Section StreamAlloc.

(** The pointer [getDriverApi().allocate(size, alignment)] yields. *)
Variable allocate : N → N → Ptr.

Definition driver_allocate (size alignment : N) : M Ptr :=
  emit (DriverAllocate size alignment) ;;
  mret (allocate size alignment).

(** [FEngine::streamAlloc] *)
Definition streamAlloc (size alignment : N) : M Ptr :=
  (* we allow this only for small allocations *)
  if 1024 <? size then mret nullptr
  else driver_allocate size alignment.

End StreamAlloc.

(** [mRenderableManager.create(builder, entity)] *)
Definition renderable_create (builder : Ptr) (entity : Entity) : M unit :=
  λ e, (tt, set_mRenderableManager ({[entity]} ∪ mRenderableManager e)
              (set_trace (trace e ++ [RenderableCreate builder entity]) e)).

(** [tcm.create(entity, parent, localTransform)] *)
Definition tcm_create (entity : Entity) (parent : N) (localTransform : mat4f)
  : M unit :=
  λ e, (tt, set_mTransformManager
              (Components.create entity parent localTransform
                 (mTransformManager e)) e).

(** [FEngine::createRenderable] *)
Definition createRenderable (builder : Ptr) (entity : Entity) : M unit :=
  renderable_create builder entity ;;
  e ← get;
  (* if this entity doesn't have a transform component, add one. *)
  if negb (Components.hasComponent (mTransformManager e) entity) then
    tcm_create entity 0 mat4f_default
  else mret tt.

(** ** Renderers *)

(** The call [p->init()] on a new renderer. *)
Inductive RendererCall := RendererInit (p : Ptr).

(** [FEngine::createRenderer]; the calls made on the new renderer are
    yielded with its address. *)
Definition createRenderer (p : Ptr) : M (Ptr * list RendererCall) :=
  emit (HeapMake FRenderer p) ;;
  if bool_decide (p ≠ nullptr) then
    list_insert Renderers p ;;
    mret (p, [RendererInit p])
  else mret (p, []).

(** ** The material of the skyboxes *)

Definition set_mSkyboxMaterial (v : Ptr) (e : FEngine) : FEngine :=
  let '(mkFEngine a1 a2 a3 a4 a5 a6 a7 a8 a9 a10 a11 a12 a13 _ a15 a16 a17
                  a18 a19 a20 a21 a22) := e in
  mkFEngine a1 a2 a3 a4 a5 a6 a7 a8 a9 a10 a11 a12 a13 v a15 a16 a17 a18 a19
            a20 a21 a22.

(** [mSkyboxMaterial = material; return material;] *)
Definition store_mSkyboxMaterial (material : Ptr) : M Ptr :=
  λ e, (material, set_mSkyboxMaterial material e).

Section SkyboxMaterial.

(** [FSkybox::createMaterial(engine)], which is not part of the sources:
    it builds a material with the engine and yields it. *)
Variable FSkybox_createMaterial : M Ptr.

(** [FEngine::getSkyboxMaterial] *)
Definition getSkyboxMaterial : M Ptr :=
  e ← get;
  if bool_decide (mSkyboxMaterial e = nullptr) then
    material ← FSkybox_createMaterial;
    store_mSkyboxMaterial material
  else mret (mSkyboxMaterial e).

End SkyboxMaterial.

(** ** Preparing a frame *)

Section Prepare.

(** [material->getDefaultInstance()] reads the default instance stored in
    the material. *)
Variable getDefaultInstance : Ptr → Ptr.

(** [FEngine::prepare]: the material instances on which [commit(driver)]
    is called, in the order of the calls.  The engine is only read. *)
Definition prepare (e : FEngine) : list Ptr :=
  (map_to_list (mMaterialInstances (lists e))
     ≫= λ materialInstanceList, elements materialInstanceList.2)
  (* Commit default material instances. *)
  ++ (getDefaultInstance <$> elements (mMaterials (lists e))).

End Prepare.

(** ** Executing by hand *)

(** Modelled from the spec: [ASSERT_PRECONDITION] comes from
    [utils/Panic.h], which is not part of the sources.  Its violation is a
    fatal misuse, which "abort[s] the process after logging". *)
Definition ASSERT_PRECONDITION (cond : bool) : B unit :=
  λ e, if cond then Some (tt, e) else None.

(** [Engine::execute] *)
Definition Engine_execute (UTILS_HAS_THREADING : bool) : B unit :=
  ASSERT_PRECONDITION (negb UTILS_HAS_THREADING) ;;
  lift flush ;;
  execute UTILS_HAS_THREADING ;;
  mret tt.

(** ** The life of an engine as its client drives it *)

(** The calls by which a client creates and destroys resources; [p] is the
    address the allocator yields, or the resource to destroy. *)
Inductive Call :=
  | CreateVertexBuffer (p : Ptr)
  | CreateIndexBuffer (p : Ptr)
  | CreateTexture (p : Ptr)
  | CreateIndirectLight (p : Ptr)
  | CreateMaterial (p : Ptr)
  | CreateSkybox (p : Ptr)
  | CreateStream (p : Ptr)
  | CreateRenderTarget (p : Ptr)
  | CreateRenderer (p : Ptr)
  | CreateMaterialInstance (p : Ptr)
  | CreateScene (p : Ptr)
  | CreateView (p : Ptr)
  | CreateFence (p : Ptr)
  | CreateSwapChain (p : Ptr)
  | DestroyVertexBuffer (p : Ptr)
  | DestroyIndexBuffer (p : Ptr)
  | DestroyRenderer (p : Ptr)
  | DestroyScene (p : Ptr)
  | DestroySkybox (p : Ptr)
  | DestroyTexture (p : Ptr)
  | DestroyRenderTarget (p : Ptr)
  | DestroyView (p : Ptr)
  | DestroyIndirectLight (p : Ptr)
  | DestroyFence (p : Ptr)
  | DestroySwapChain (p : Ptr)
  | DestroyStream (p : Ptr)
  | DestroyMaterial (p : Ptr)
  | DestroyMaterialInstance (p : Ptr).

(** A call whose result the client drops. *)
Definition ignore {A : Type} (m : M A) : B unit := lift (m ;; mret tt).

Section Client.

Variable UTILS_HAS_THREADING : bool.
Variable NDEBUG : bool.

(** [ptr->getMaterial()] reads the material stored in a material instance
    when it was made: the instance at [p] is made for [getMaterial p]. *)
Variable getMaterial : Ptr → Ptr.

Definition call (c : Call) : B unit :=
  match c with
  | CreateVertexBuffer p => ignore (createVertexBuffer p)
  | CreateIndexBuffer p => ignore (createIndexBuffer p)
  | CreateTexture p => ignore (createTexture p)
  | CreateIndirectLight p => ignore (createIndirectLight p)
  | CreateMaterial p => ignore (createMaterial p)
  | CreateSkybox p => ignore (createSkybox p)
  | CreateStream p => ignore (createStream p)
  | CreateRenderTarget p => ignore (createRenderTarget p)
  | CreateRenderer p => ignore (createRenderer p)
  | CreateMaterialInstance p => ignore (createMaterialInstance (getMaterial p) p)
  | CreateScene p => ignore (createScene p)
  | CreateView p => ignore (createView p)
  | CreateFence p => ignore (createFence p)
  | CreateSwapChain p => ignore (createSwapChain p)
  | DestroyVertexBuffer p => lift (destroy_FVertexBuffer NDEBUG p)
  | DestroyIndexBuffer p => lift (destroy_FIndexBuffer NDEBUG p)
  | DestroyRenderer p => lift (destroy_FRenderer NDEBUG p)
  | DestroyScene p => lift (destroy_FScene NDEBUG p)
  | DestroySkybox p => lift (destroy_FSkybox NDEBUG p)
  | DestroyTexture p => lift (destroy_FTexture NDEBUG p)
  | DestroyRenderTarget p => lift (destroy_FRenderTarget NDEBUG p)
  | DestroyView p => lift (destroy_FView NDEBUG p)
  | DestroyIndirectLight p => lift (destroy_FIndirectLight NDEBUG p)
  | DestroyFence p => lift (destroy_FFence NDEBUG p)
  | DestroySwapChain p => lift (destroy_FSwapChain NDEBUG p)
  | DestroyStream p => lift (destroy_FStream NDEBUG p)
  | DestroyMaterial p => lift (destroy_FMaterial NDEBUG p)
  | DestroyMaterialInstance p => destroy_FMaterialInstance NDEBUG getMaterial p
  end.

(** The calls of a client, one after the other. *)
Fixpoint calls (cs : list Call) : B unit :=
  match cs with
  | [] => mret tt
  | c :: cs => call c ;; calls cs
  end.

(** The calls of a client, then the shutdown of the engine. *)
Definition lifetime (cs : list Call) : B unit :=
  calls cs ;; shutdown UTILS_HAS_THREADING NDEBUG.

End Client.

(** ** Engines of the process: creation and destruction *)

(** The calls of [Engine::destroy] and of the destructor of the engine
    on what the process holds besides the registry. *)
Inductive ProcessEvent :=
  | EnginesErase (handle : Ptr)
  | PanicDestructor (engine : Ptr)
  | DeleteResourceAllocator (engine : Ptr)
  | DeleteDriver (driver : Ptr)
  | DefaultPlatformDestroy (platform : Ptr).

#[global] Instance ProcessEvent_eq_dec : EqDecision ProcessEvent.
Proof. solve_decision. Defined.

(** The registry of the engines, the engine objects alive, by address,
    and the calls made. *)
Record Process := mkProcess {
  globals : Globals;
  heap : gmap Ptr FEngine;
  ptrace : list ProcessEvent
}.

(** [FEngine::~FEngine], on the engine at address [this].  Modelled from
    the spec: [ASSERT_DESTRUCTOR] comes from [utils/Panic.h], which is not
    part of the sources; "destructing an engine instance that still
    reports itself non-terminated" is a fatal misuse, which "abort[s] the
    process after logging". *)
Definition FEngine_destructor (this : Ptr) (e : FEngine)
  : Outcome unit * list ProcessEvent :=
  if mTerminated e then
    (Returns tt,
     [DeleteResourceAllocator this; DeleteDriver (mDriver e)]
     ++ (if mOwnPlatform e then [DefaultPlatformDestroy (mPlatform e)] else []))
  else (NeverReturns, [PanicDestructor this]).

Section Process.

Variable UTILS_HAS_THREADING : bool.
Variable NDEBUG : bool.
Variable createDriver : Ptr → Ptr → Ptr.
Variable DefaultPlatform_create : Backend → Ptr * Backend.

(** [Engine::create]; the engine [new FEngine] makes is at [instance]. *)
Definition Engine_create (backend : Backend) (platform sharedGLContext : Ptr)
    (em : gset Entity) (buffer : Ptr) (instance : Ptr) (w : Process)
  : Outcome Ptr * Process :=
  let '(r, g, e) :=
    FEngine_create UTILS_HAS_THREADING createDriver DefaultPlatform_create
      backend platform sharedGLContext em buffer instance (globals w) in
  (r, mkProcess g (<[instance := e]> (heap w)) (ptrace w)).

(** [Engine::destroy(Engine** engine)].  [engine] is [None] when the
    pointer is null, and otherwise the handle it points to; the call
    yields the handle as it leaves it.  A caller that finds the lock held
    is suspended. *)
Definition Engine_destroy_handle (engine : option Ptr) (w : Process)
  : Outcome (option Ptr) * Process :=
  match engine with
  | None => (Returns None, w)
  | Some handle =>
      let g := globals w in
      if sEnginesLock g then (NeverReturns, w)
      else
        match sEngines g !! handle with
        | Some filamentEngine =>
            let g :=
              mkGlobals (delete handle (sEngines g)) false
                (gtrace g ++ [MutexLock; EnginesFind handle true; MutexUnlock]) in
            let w1 := mkProcess g (heap w) (ptrace w ++ [EnginesErase handle]) in
            (* Make sure to call into shutdown() without the lock held *)
            if bool_decide (filamentEngine ≠ nullptr) then
              match heap w !! filamentEngine with
              | Some e =>
                  match shutdown UTILS_HAS_THREADING NDEBUG e with
                  | Some (_, e) =>
                      (* clear the user's handle; the owner of the engine
                         then goes out of scope *)
                      match FEngine_destructor filamentEngine e with
                      | (Returns _, deleted) =>
                          (Returns (Some nullptr),
                           mkProcess g (delete filamentEngine (heap w))
                             (ptrace w1 ++ deleted))
                      | (NeverReturns, deleted) =>
                          (NeverReturns,
                           mkProcess g (<[filamentEngine := e]> (heap w))
                             (ptrace w1 ++ deleted))
                      end
                  | None => (NeverReturns, w1)
                  end
              | None => (NeverReturns, w1)
              end
            else (Returns (Some handle), w1)
        | None =>
            (Returns (Some handle),
             mkProcess
               (mkGlobals (sEngines g) false
                  (gtrace g ++ [MutexLock; EnginesFind handle false; MutexUnlock]))
               (heap w) (ptrace w))
        end
  end.

(** [Engine::destroy(Engine* engine)]: [destroy(&engine)], on the copy of
    the handle the call was given. *)
Definition Engine_destroy (engine : Ptr) (w : Process) : Outcome unit * Process :=
  let '(r, w) := Engine_destroy_handle (Some engine) w in
  (match r with Returns _ => Returns tt | NeverReturns => NeverReturns end, w).

End Process.

(** ** Reading traces and sample engines *)

(** How many times a call occurs in a trace. *)
Definition occurrences (ev : Event) (tr : list Event) : nat :=
  length (filter (ev =.) tr).

(** An engine as its constructor leaves it, with no default platform. *)
Definition freshEngine : FEngine := FEngine_new OPENGL 1 0 ∅ 4096.

(** Only the lists and the trace differ between [e] and an engine built
    from it by [set_lists] and [set_trace]. *)
Definition same_but_lists_trace (e e' : FEngine) : Prop :=
  e' = set_lists (lists e') (set_trace (trace e') e).

(** An engine as [create] leaves it when threads are available: the
    driver exists and its thread runs. *)
Definition runningEngine : FEngine :=
  set_mDriverThread ThreadRunning (set_mDriver 7 freshEngine).

(** ** Vocabulary of the properties *)

(** The calls of the part of [shutdown] that terminates and cleans up. *)
Definition is_cleanup (ev : Event) : Prop :=
  match ev with
  | ListRemove _ _ _ | ListGetListAndClear _ | Terminate _ _
  | HeapDestroy _ _ | LogHighWatermark | LogLeaked _ _ | LogDoesntExist _ _
  | PanicLog _ _ | SubsystemTerminate _ | DestroyRenderPrimitive => True
  | _ => False
  end.

(** An operation that only shrinks resource lists and only makes calls of
    the cleanup kind: it leaves the rest of the engine, and the domain of
    the map of material instances, as they were. *)
Definition cleans {A : Type} (m : M A) : Prop :=
  ∀ e, ∃ evs,
    same_but_lists_trace e (m e).2
    ∧ trace (m e).2 = trace e ++ evs
    ∧ Forall is_cleanup evs
    ∧ (∀ list, getList list (lists (m e).2) ⊆ getList list (lists e))
    ∧ dom (mMaterialInstances (lists (m e).2))
      = dom (mMaterialInstances (lists e)).

(** Such an operation that moreover leaves every list of [S] empty. *)
Definition sweeps {A : Type} (S : ListRef → Prop) (m : M A) : Prop :=
  cleans m ∧ ∀ e list, S list → getList list (lists (m e).2) = ∅.

(** The lists [shutdown] sweeps: all but three. *)
Definition swept (list : ListRef) : Prop :=
  list ≠ IndirectLights ∧ list ≠ SwapChains ∧ list ≠ Streams.

(** A list that is a member of the engine, not an entry of the map of
    material instances. *)
Definition engineList (list : ListRef) : Prop :=
  ∀ material, list ≠ MaterialInstances material.

(** The calls that terminate and free the items of a list. *)
Definition itemCalls (T : Kind) (items : list Ptr) : list Event :=
  items ≫= λ item, [Terminate T item; HeapDestroy T item].

(** How often the resource at [p] was terminated, or freed, plus one if it
    is still in the list. *)
Definition registered (list : ListRef) (p : Ptr) (e : FEngine) : nat :=
  if bool_decide (p ∈ getList list (lists e)) then 1 else 0.
Definition terminations (list : ListRef) (p : Ptr) (e : FEngine) : nat :=
  occurrences (Terminate (elemType list) p) (trace e) + registered list p e.
Definition frees (list : ListRef) (p : Ptr) (e : FEngine) : nat :=
  occurrences (HeapDestroy (elemType list) p) (trace e) + registered list p e.

(** An operation under which a resource of a list of the engine is
    terminated and freed exactly when it leaves the list. *)
Definition conserves {A : Type} (m : M A) : Prop :=
  ∀ e list p, engineList list →
    terminations list p (m e).2 = terminations list p e
    ∧ frees list p (m e).2 = frees list p e.

(** The calls that replay and release a batch of buffers. *)
Definition replay (buffers : list Slice) : list Event :=
  buffers ≫= λ item,
    if bool_decide (begin item ≠ nullptr)
    then [StreamExecute (begin item); ReleaseBuffer item] else [].

(** Whether one of the jobs [order] wraps the sweep of manager [m]. *)
Definition worksOn (js : list Job) (order : list nat) (m : Manager) : bool :=
  existsb (λ i, bool_decide (jobWork <$> js !! i = Some (Some m))) order.

(** The jobs [order] marked as completed. *)
Definition completeAll (js : list Job) (order : list nat) : list Job :=
  foldl (λ js i, JobSystem.complete i js) js order.

(** Every parent named by a job is itself a job. *)
Definition wf_jobs (js : list Job) : Prop :=
  ∀ i j p, js !! i = Some j → jobParent j = Some p → (p < length js)%nat.

(** The jobs [gc] creates under the parent it creates as job [parent]:
    the parent, then one child per component manager. *)
Definition gcFamily (parent : nat) (done : bool) : list Job :=
  [ mkJob None None (Some NO_FLAGS) done;
    mkJob (Some parent) (Some FRenderableManager) (Some DONT_SIGNAL) done;
    mkJob (Some parent) (Some FLightManager) (Some DONT_SIGNAL) done;
    mkJob (Some parent) (Some FTransformManager) (Some DONT_SIGNAL) done;
    mkJob (Some parent) (Some FCameraManager) (Some DONT_SIGNAL) done ].

(** The names of the jobs of the family, the parent first. *)
Definition familyIds (parent : nat) : list nat :=
  [parent; parent + 1; parent + 2; parent + 3; parent + 4]%nat.

(** The calls by which [gc] creates and submits the jobs of its family. *)
Definition forkCalls (parent : nat) : list Event :=
  [ JobSystemCreateJob parent None None;
    JobSystemCreateJob (parent + 1) (Some parent) (Some FRenderableManager);
    JobSystemRun (parent + 1) DONT_SIGNAL;
    JobSystemCreateJob (parent + 2) (Some parent) (Some FLightManager);
    JobSystemRun (parent + 2) DONT_SIGNAL;
    JobSystemCreateJob (parent + 3) (Some parent) (Some FTransformManager);
    JobSystemRun (parent + 3) DONT_SIGNAL;
    JobSystemCreateJob (parent + 4) (Some parent) (Some FCameraManager);
    JobSystemRun (parent + 4) DONT_SIGNAL;
    JobSystemRunAndWait parent ].

(** What the engine is after calls [evs] that left [js] as job system. *)
Definition with_jobs (js : list Job) (evs : list Event) (e : FEngine) : FEngine :=
  set_mJobSystem js (set_trace (trace e ++ evs) e).

(** An engine that holds no resource, and has made, terminated and freed
    none. *)
Definition unused (e : FEngine) : Prop :=
  lists e = noResources
  ∧ ∀ T p, (HeapMake T p ∉ trace e) ∧ (Terminate T p ∉ trace e)
           ∧ (HeapDestroy T p ∉ trace e).

(** The one list a resource at [p] of the element type of [list] can be
    in: the list of the engine for its type, or, for a material instance,
    the list of its material. *)
Definition tracked (getMaterial : Ptr → Ptr) (list : ListRef) (p : Ptr) : Prop :=
  engineList list ∨ list = MaterialInstances (getMaterial p).

(** The list that holds the resources of type [T]. *)
Definition listOf (getMaterial : Ptr → Ptr) (T : Kind) (p : Ptr) : ListRef :=
  match T with
  | FRenderer => Renderers | FView => Views | FScene => Scenes
  | FSkybox => Skyboxes | FIndexBuffer => IndexBuffers
  | FVertexBuffer => VertexBuffers | FTexture => Textures
  | FRenderTarget => RenderTargets | FMaterial => Materials
  | FFence => Fences | FIndirectLight => IndirectLights
  | FSwapChain => SwapChains | FStream => Streams
  | FMaterialInstance => MaterialInstances (getMaterial p)
  end.

(** The types of the resources whose creation checks the allocation:
    [if (p) { list.insert(p); }]. *)
Definition checkedKind (T : Kind) : Prop :=
  match T with
  | FRenderer | FView | FScene | FFence | FSwapChain | FMaterialInstance => True
  | _ => False
  end.

(** The books of the engine balance: a material instance is only in the
    list of its material; a resource was freed as often as it was
    terminated, and, counting it once more while it is in its list, at
    most as often as it was made; a resource that was made and is not
    null is in its list unless it was freed; and no list whose insertions
    are checked holds the null pointer, which was neither terminated nor
    freed as a resource of such a list. *)
Definition balanced (getMaterial : Ptr → Ptr) (e : FEngine) : Prop :=
  (∀ m p, p ∈ getList (MaterialInstances m) (lists e) → m = getMaterial p)
  ∧ (∀ list p, tracked getMaterial list p →
       let T := elemType list in
       occurrences (Terminate T p) (trace e)
       = occurrences (HeapDestroy T p) (trace e)
       ∧ (occurrences (HeapDestroy T p) (trace e) + registered list p e
          ≤ occurrences (HeapMake T p) (trace e))%nat
       ∧ (p ≠ nullptr → 0 < occurrences (HeapMake T p) (trace e) →
          0 < registered list p e + occurrences (HeapDestroy T p) (trace e))%nat)
  ∧ ∀ list, checkedKind (elemType list) →
      (nullptr ∉ getList list (lists e))
      ∧ (Terminate (elemType list) nullptr ∉ trace e)
      ∧ (HeapDestroy (elemType list) nullptr ∉ trace e).

(** An operation that keeps the books balanced. *)
Definition keeps {A : Type} (getMaterial : Ptr → Ptr) (m : M A) : Prop :=
  ∀ e, balanced getMaterial e → balanced getMaterial (m e).2.

(** The types of the resources [shutdown] sweeps. *)
Definition sweptKind (T : Kind) : Prop :=
  T ≠ FIndirectLight ∧ T ≠ FSwapChain ∧ T ≠ FStream.

(** *** The two threads *)

(** The calls of the driver thread, or, without threads, of the [execute]
    that stands for it. *)
Definition is_driver (ev : Event) : Prop :=
  match ev with
  | SetThreadAffinity | WaitForCommands _ | StreamExecute _
  | ReleaseBuffer _ | DriverTerminate => True
  | _ => False
  end.

#[global] Instance is_driver_dec ev : Decision (is_driver ev).
Proof. destruct ev; simpl; apply _. Defined.

(** The calls of the iteration under way that the driver thread has still
    to make. *)
Definition unfinished (pc : DriverPc) : list Event :=
  match pc with
  | Replaying buffers => replay buffers
  | Releasing item buffers => ReleaseBuffer item :: replay buffers
  | _ => []
  end.

(** The buffers the driver thread has taken and not replayed yet. *)
Definition taken (pc : DriverPc) : list Slice :=
  match pc with
  | Replaying buffers | Releasing _ buffers => buffers
  | _ => []
  end.

(** The calls of the iterations of the loop that took the batches
    [batches]. *)
Definition iterations (batches : list (list Slice)) : list Event :=
  batches ≫= λ buffers,
    SetThreadAffinity :: WaitForCommands buffers :: replay buffers.

(** The calls of the iteration that finds nothing to replay, as far as
    the driver thread has got in it. *)
Definition loop_tail (s : ThreadStatus) (pc : DriverPc) : list Event :=
  match s, pc with
  | ThreadReturned, _ => [SetThreadAffinity; WaitForCommands []; DriverTerminate]
  | _, AfterLoop => [SetThreadAffinity; WaitForCommands []]
  | _, InWaitForCommands => [SetThreadAffinity]
  | _, _ => []
  end.

(** What links the two threads to the engine [e0] they started from, [tr]
    being the calls made since and [batches] the batches handed out to the
    driver thread. *)
Definition loop_inv (e0 : FEngine) (th : Threads) (tr : list Event)
    (batches : list (list Slice)) : Prop :=
  let e := shared th in
  trace e = trace e0 ++ tr
  ∧ Forall (λ buffers, buffers ≠ []) batches
  ∧ concat batches ++ mCommandBuffersToExecute (mCommandBufferQueue e)
    = mCommandBuffersToExecute (mCommandBufferQueue e0) ++ flushed tr
  ∧ filter is_driver tr ++ unfinished (driverPc th)
    = iterations batches ++ loop_tail (mDriverThread e) (driverPc th)
  ∧ mDriverThread e ≠ ThreadNotStarted
  ∧ (mDriverThread e = ThreadReturned → driverPc th = AfterLoop)
  ∧ (driverPc th = AfterLoop ↔ WaitForCommands [] ∈ tr)
  ∧ occurrences DriverTerminate tr
    = (if bool_decide (mDriverThread e = ThreadReturned) then 1 else 0)%nat
  ∧ (driverPc th = AfterLoop → mExitRequested (mCommandBufferQueue e) = true).

(** The driver thread gets from [th] to [th'] by turns of its own. *)
Definition reaches (th th' : Threads) : Prop :=
  ∃ k, run (replicate k DriverTurn) th = th'.

(** The statements [statements] run one after the other, by one thread. *)
Fixpoint seq_run (statements : list (B unit)) (e : FEngine) : option FEngine :=
  match statements with
  | [] => Some e
  | statement :: rest =>
      match statement e with
      | Some (_, e') => seq_run rest e'
      | None => None
      end
  end.

(** [e], but for what the driver thread and the queue make of it: the
    trace, the command queue and the state of the thread. *)
Definition driver_view (t : list Event) (q : CommandBufferQueue)
    (s : ThreadStatus) (e : FEngine) : FEngine :=
  set_trace t (set_mCommandBufferQueue q (set_mDriverThread s e)).

(** An operation that does not look at the queue nor at the driver
    thread: it gives the same result, changes the lists in the same way
    and makes the same calls whatever the driver thread has done. *)
Definition uniform {A : Type} (m : M A) : Prop :=
  ∀ e, ∃ a l evs, ∀ t q s,
    m (driver_view t q s e) = (a, set_lists l (driver_view (t ++ evs) q s e)).

(** The driver thread runs, is in its loop, and no exit is requested. *)
Definition in_loop (th : Threads) : Prop :=
  mDriverThread (shared th) = ThreadRunning
  ∧ driverPc th ≠ AfterLoop
  ∧ mExitRequested (mCommandBufferQueue (shared th)) = false.

(** Where the buffer [b], the last one flushed, stands, [d] being the
    calls of the driver thread since the flush: it is the last of the
    buffers to replay; or it is replayed and about to be released; or it
    is done with, like all the others. *)
Definition replayed (b : Slice) (th : Threads) (d : list Event) : Prop :=
  let pc := driverPc th in
  let pending := mCommandBuffersToExecute (mCommandBufferQueue (shared th)) in
  ((∃ pre, taken pc ++ pending = pre ++ [b]) ∧ pc ≠ AfterLoop)
  ∨ (pc = Releasing b [] ∧ pending = [] ∧ begin b ≠ nullptr
     ∧ last (executed d) = Some (begin b))
  ∨ (taken pc = [] ∧ pending = [] ∧ (∀ x bs, pc ≠ Releasing x bs)
     ∧ (begin b ≠ nullptr →
        last (executed d) = Some (begin b) ∧ last (released d) = Some b)).

(** How the driver thread leaves its loop, [d] being its calls since the
    exit was requested. *)
Definition leaving (th : Threads) (d : list Event) : Prop :=
  match mDriverThread (shared th) with
  | ThreadRunning =>
      driverPc th = AfterLoop → ∃ d', d = d' ++ [WaitForCommands []]
  | ThreadReturned =>
      driverPc th = AfterLoop
      ∧ ∃ d', d = d' ++ [WaitForCommands []; DriverTerminate]
  | ThreadNotStarted => False
  end.

(** The calls of the client thread among [tr]. *)
Definition callerCalls (tr : list Event) : list Event :=
  filter (λ ev, ¬ is_driver ev) tr.

Section ShutdownVocabulary.

Variable NDEBUG : bool.
Variable commandBytes : Event → N.
Variable e0 : FEngine.

(** The calls of the cleanup and the buffer they are serialised in. *)
Definition cleanupCalls : list Event :=
  drop (length (trace e0)) (trace (exec (shutdown_cleanup NDEBUG) e0)).
Definition flushedBuffer : Slice :=
  let b0 := mCircularBuffer (mCommandBufferQueue e0) in
  mkSlice (begin b0) (sliceSize b0 + serialised commandBytes cleanupCalls).

(** Where the client thread stands in [shutdown] after [k] statements,
    [tr] being the calls of both threads since it started. *)
Inductive at_position : nat → Threads → list Event → Prop :=
  | at_cleanup th tr q :
      shared th = driver_view (trace e0 ++ tr) q ThreadRunning e0 →
      mCircularBuffer q = mCircularBuffer (mCommandBufferQueue e0) →
      mExitRequested q = false →
      driverPc th ≠ AfterLoop →
      Forall is_driver tr →
      at_position 0 th tr
  | at_purge th tr :
      in_loop th →
      callerCalls tr = cleanupCalls →
      mCircularBuffer (mCommandBufferQueue (shared th)) = flushedBuffer →
      mTerminated (shared th) = mTerminated e0 →
      at_position 1 th tr
  | at_flush th tr :
      in_loop th →
      callerCalls tr = cleanupCalls ++ [DriverPurge] →
      mCircularBuffer (mCommandBufferQueue (shared th)) = flushedBuffer →
      mTerminated (shared th) = mTerminated e0 →
      at_position 2 th tr
  | at_requestExit th tr1 tr2 :
      in_loop th →
      callerCalls tr1 = cleanupCalls ++ [DriverPurge] →
      Forall is_driver tr2 →
      replayed flushedBuffer th tr2 →
      mTerminated (shared th) = mTerminated e0 →
      at_position 3 th (tr1 ++ QueueFlush flushedBuffer :: tr2)
  | at_join th tr1 tr2 tr3 :
      mExitRequested (mCommandBufferQueue (shared th)) = true →
      callerCalls tr1 = cleanupCalls ++ [DriverPurge] →
      Forall is_driver tr2 →
      Forall is_driver tr3 →
      replayed flushedBuffer th (tr2 ++ tr3) →
      leaving th tr3 →
      mTerminated (shared th) = mTerminated e0 →
      at_position 4 th
        (tr1 ++ QueueFlush flushedBuffer :: tr2 ++ QueueRequestExit :: tr3)
  | at_end j th tr1 tr2 tr3 :
      (j ≤ 2)%nat →
      mDriverThread (shared th) = ThreadReturned →
      callerCalls tr1 = cleanupCalls ++ [DriverPurge] →
      Forall is_driver tr2 →
      Forall is_driver tr3 →
      mCommandBuffersToExecute (mCommandBufferQueue (shared th)) = [] →
      (begin flushedBuffer ≠ nullptr →
       last (executed (tr2 ++ tr3)) = Some (begin flushedBuffer)
       ∧ last (released (tr2 ++ tr3)) = Some flushedBuffer) →
      (∃ d, tr3 = d ++ [WaitForCommands []; DriverTerminate]) →
      mTerminated (shared th)
      = (if bool_decide (j = 2%nat) then true else mTerminated e0) →
      at_position (5 + j) th
        (tr1 ++ QueueFlush flushedBuffer :: tr2 ++ QueueRequestExit :: tr3
         ++ take (S j) [ThreadJoin; JobSystemEmancipate; MarkTerminated]).

Definition shutdown_inv (th : Threads) : Prop :=
  ∃ k tr, clientTodo th = drop k (shutdown_statements commandBytes true NDEBUG)
          ∧ trace (shared th) = trace e0 ++ tr
          ∧ at_position k th tr.

(** The engine, as the statements of [shutdown] but the last leave it. *)
Definition unthreaded (l : ResourceLists) (t : list Event)
    (q : CommandBufferQueue) : FEngine :=
  set_lists l (driver_view (trace e0 ++ t) q ThreadNotStarted e0).

End ShutdownVocabulary.

(** * Properties *)

(** ** Counting calls *)

Lemma occurrences_nil ev : occurrences ev [] = 0%nat.
Proof. done. Qed.

Lemma occurrences_cons ev x tr :
  occurrences ev (x :: tr)
  = ((if decide (ev = x) then 1 else 0) + occurrences ev tr)%nat.
Proof. unfold occurrences. rewrite filter_cons. by case_decide. Qed.

Lemma occurrences_app ev tr tr' :
  occurrences ev (tr ++ tr') = (occurrences ev tr + occurrences ev tr')%nat.
Proof. unfold occurrences. by rewrite filter_app, length_app. Qed.

Lemma occurrences_not_elem_of ev tr : ev ∉ tr → occurrences ev tr = 0%nat.
Proof.
  induction tr as [| x tr IH]; [done |]. intros Hin.
  rewrite occurrences_cons, IH by set_solver.
  case_decide; [set_solver | done].
Qed.

(** ** Sequencing *)

Lemma M_bind_eq {A C} (m : M A) (k : A → M C) e :
  (m ≫= k) e = k (m e).1 (m e).2.
Proof. unfold mbind, M_bind. by destruct (m e). Qed.

Lemma B_bind_lift {A C} (m : M A) (k : A → B C) e :
  (lift m ≫= k) e = k (m e).1 (m e).2.
Proof. unfold mbind, B_bind, lift. by destruct (m e). Qed.

(** ** Records and list references *)

Lemma trace_set_lists v e : trace (set_lists v e) = trace e.
Proof. by destruct e. Qed.
Lemma lists_set_lists v e : lists (set_lists v e) = v.
Proof. by destruct e. Qed.
Lemma trace_set_trace v e : trace (set_trace v e) = v.
Proof. by destruct e. Qed.
Lemma lists_set_trace v e : lists (set_trace v e) = lists e.
Proof. by destruct e. Qed.
Lemma set_lists_id e : set_lists (lists e) e = e.
Proof. by destruct e. Qed.
Lemma set_trace_set_trace v v' e :
  set_trace v (set_trace v' e) = set_trace v e.
Proof. by destruct e. Qed.
Lemma set_lists_set_lists v v' e :
  set_lists v (set_lists v' e) = set_lists v e.
Proof. by destruct e. Qed.
Lemma set_trace_set_lists v r e :
  set_trace v (set_lists r e) = set_lists r (set_trace v e).
Proof. by destruct e. Qed.

Lemma same_but_lists_trace_refl e : same_but_lists_trace e e.
Proof. by destruct e. Qed.

Lemma same_but_lists_trace_trans e1 e2 e3 :
  same_but_lists_trace e1 e2 → same_but_lists_trace e2 e3 →
  same_but_lists_trace e1 e3.
Proof.
  unfold same_but_lists_trace. intros H12 H23.
  rewrite H23 at 1. rewrite H12 at 1. by destruct e1.
Qed.

Lemma same_but_lists_trace_thread e e' :
  same_but_lists_trace e e' → mDriverThread e' = mDriverThread e.
Proof. intros ->. by destruct e. Qed.

Lemma same_but_lists_trace_queue e e' :
  same_but_lists_trace e e' → mCommandBufferQueue e' = mCommandBufferQueue e.
Proof. intros ->. by destruct e. Qed.

Lemma getList_setList_same list v r :
  (∀ m, list = MaterialInstances m → is_Some (mMaterialInstances r !! m)) →
  getList list (setList list v r) = v.
Proof.
  intros Hm. destruct list; simpl; try done.
  destruct (Hm material eq_refl) as [old Hold].
  by rewrite lookup_alter_eq, Hold.
Qed.

Lemma getList_setList_other list list' v r :
  list ≠ list' → getList list' (setList list v r) = getList list' r.
Proof.
  intros Hne. destruct list, list'; simpl; try done.
  rewrite lookup_alter_ne; [done | congruence].
Qed.

Lemma setList_getList list r : setList list (getList list r) r = r.
Proof.
  destruct r, list; unfold setList; simpl; try done. f_equal.
  apply map_eq. intros m'. destruct (decide (material = m')) as [<- | Hne].
  - rewrite lookup_alter_eq. by destruct (_ !! material).
  - by rewrite lookup_alter_ne.
Qed.

Lemma getList_nonempty_entry list r p :
  p ∈ getList list r →
  ∀ m, list = MaterialInstances m → is_Some (mMaterialInstances r !! m).
Proof.
  intros Hp m ->. simpl in Hp. destruct (_ !! m); [eauto | set_solver].
Qed.

(** ** Destroying one resource *)

Ltac unfold_M :=
  unfold exec, mbind, M_bind, mret, M_ret, terminate, heap_destroy,
    debug_log, emit, list_remove, list_empty, list_size,
    list_getListAndClear, list_insert, get in *.

Section Destroy.

Variable NDEBUG : bool.

Lemma terminateAndDestroy_null list e :
  terminateAndDestroy NDEBUG nullptr list e = (tt, e).
Proof. done. Qed.

Lemma terminateAndDestroy_present ptr list e :
  ptr ≠ nullptr → ptr ∈ getList list (lists e) →
  terminateAndDestroy NDEBUG ptr list e =
    (tt, set_lists (setList list (getList list (lists e) ∖ {[ptr]}) (lists e))
           (set_trace
              (trace e ++ [ListRemove list ptr true;
                           Terminate (elemType list) ptr;
                           HeapDestroy (elemType list) ptr]) e)).
Proof.
  intros Hnull Hin. unfold terminateAndDestroy.
  rewrite bool_decide_eq_true_2 by done.
  unfold_M. unfold ResourceList.remove.
  rewrite bool_decide_eq_true_2 by done.
  destruct e; simpl. by rewrite <- !app_assoc.
Qed.

Lemma terminateAndDestroy_absent ptr list e :
  ptr ≠ nullptr → ptr ∉ getList list (lists e) →
  terminateAndDestroy NDEBUG ptr list e =
    (tt, set_trace
           (trace e ++ ListRemove list ptr false
                       :: logged NDEBUG (LogDoesntExist (elemType list) ptr))
           e).
Proof.
  intros Hnull Hin. unfold terminateAndDestroy, logged.
  rewrite bool_decide_eq_true_2 by done.
  unfold_M. unfold ResourceList.remove.
  rewrite bool_decide_eq_false_2 by done.
  assert (getList list (lists e) ∖ {[ptr]} = getList list (lists e)) as ->
    by set_solver.
  rewrite setList_getList.
  destruct NDEBUG, e; simpl; by rewrite <- ?app_assoc.
Qed.

(** C3, amended: the generic destroy does nothing on a null pointer; on a pointer
    that is in the list it removes the pointer from the list, then
    terminates the resource, then frees it, in this order, and leaves every
    other list alone; on a non-null pointer that is not in the list it
    neither terminates nor frees anything: the engine is left as it was
    but for the failed removal, which a debug build logs.  A second
    destroy of the same pointer is therefore such a no-op, and the pointer
    is freed once. *)
Theorem terminateAndDestroy_protocol (ptr : Ptr) (list : ListRef) (e : FEngine) :
  let T := elemType list in
  let once := exec (terminateAndDestroy NDEBUG ptr list) e in
  let twice := exec (terminateAndDestroy NDEBUG ptr list) once in
  (ptr = nullptr → once = e)
  ∧ (ptr ≠ nullptr → ptr ∈ getList list (lists e) →
       trace once = trace e ++ [ListRemove list ptr true;
                                Terminate T ptr; HeapDestroy T ptr]
       ∧ getList list (lists once) = getList list (lists e) ∖ {[ptr]}
       ∧ (∀ other, other ≠ list →
            getList other (lists once) = getList other (lists e))
       ∧ twice = set_trace
                   (trace once ++ ListRemove list ptr false
                      :: logged NDEBUG (LogDoesntExist T ptr)) once
       ∧ occurrences (HeapDestroy T ptr) (trace twice)
         = S (occurrences (HeapDestroy T ptr) (trace e)))
  ∧ (ptr ≠ nullptr → ptr ∉ getList list (lists e) →
       once = set_trace
                (trace e ++ ListRemove list ptr false
                   :: logged NDEBUG (LogDoesntExist T ptr)) e).
Proof.
  intros T once twice. split; [| split].
  - intros ->. done.
  - intros Hnull Hin.
    assert (Honce : once = set_lists
              (setList list (getList list (lists e) ∖ {[ptr]}) (lists e))
              (set_trace (trace e ++ [ListRemove list ptr true;
                 Terminate T ptr; HeapDestroy T ptr]) e)).
    { unfold once, exec. by rewrite terminateAndDestroy_present. }
    assert (Hlist : getList list (lists once) = getList list (lists e) ∖ {[ptr]}).
    { rewrite Honce, lists_set_lists.
      apply getList_setList_same. by eapply getList_nonempty_entry. }
    assert (Htwice : twice = set_trace
              (trace once ++ ListRemove list ptr false
                 :: logged NDEBUG (LogDoesntExist T ptr)) once).
    { unfold twice, exec. rewrite terminateAndDestroy_absent; [done | done |].
      rewrite Hlist. set_solver. }
    split_and!; [| done | | done |].
    + by rewrite Honce, trace_set_lists, trace_set_trace.
    + intros other Hne. rewrite Honce, lists_set_lists.
      by apply getList_setList_other.
    + rewrite Htwice, trace_set_trace, Honce, trace_set_lists, trace_set_trace.
      unfold logged.
      destruct NDEBUG;
        rewrite !occurrences_app, !occurrences_cons, occurrences_nil;
        repeat case_decide; try done; lia.
  - intros Hnull Hin. unfold once, exec.
    by rewrite terminateAndDestroy_absent.
Qed.

End Destroy.

Lemma terminateAndDestroy_protocol_witness :
  let e := exec (createVertexBuffer 16) freshEngine in
  let twice := exec (terminateAndDestroy false 16 VertexBuffers)
                 (exec (terminateAndDestroy false 16 VertexBuffers) e) in
  occurrences (HeapDestroy FVertexBuffer 16) (trace twice) = 1%nat
  ∧ exec (terminateAndDestroy false 16 Textures) e
    = set_trace (trace e ++ [ListRemove Textures 16 false;
                             LogDoesntExist FTexture 16]) e.
Proof.
  intros e twice. split.
  - destruct (terminateAndDestroy_protocol false 16 VertexBuffers e)
      as (_ & Hpresent & _).
    destruct Hpresent as (_ & _ & _ & _ & Hocc); [done | by vm_compute |].
    exact Hocc.
  - destruct (terminateAndDestroy_protocol false 16 Textures e)
      as (_ & _ & Habsent).
    apply Habsent; [done | by vm_compute].
Defined.

(** ** Destroying a material *)

Section DestroyMaterial.

Variable NDEBUG : bool.

Lemma destroy_FMaterial_refused material e :
  material ≠ nullptr →
  getList (MaterialInstances material) (lists e) ≠ ∅ →
  destroy_FMaterial NDEBUG material e =
    (tt, set_trace
           (trace e ++ [PanicLog material
              (base.size (getList (MaterialInstances material) (lists e)))])
           e).
Proof.
  intros Hnull Hinst. unfold destroy_FMaterial.
  rewrite bool_decide_eq_true_2 by done. simpl in *.
  destruct (mMaterialInstances (lists e) !! material) as [instances |];
    [| done]. simpl in *.
  unfold ASSERT_PRECONDITION_NON_FATAL, ResourceList.empty.
  by rewrite bool_decide_eq_false_2.
Qed.

Lemma destroy_FMaterial_allowed material e :
  material ≠ nullptr →
  getList (MaterialInstances material) (lists e) = ∅ →
  destroy_FMaterial NDEBUG material e
  = terminateAndDestroy NDEBUG material Materials e.
Proof.
  intros Hnull Hinst. unfold destroy_FMaterial.
  rewrite bool_decide_eq_true_2 by done. simpl in *.
  destruct (mMaterialInstances (lists e) !! material) as [instances |];
    [| done]. simpl in *. subst.
  unfold ASSERT_PRECONDITION_NON_FATAL, ResourceList.empty.
  by rewrite bool_decide_eq_true_2.
Qed.

Lemma destroyInstances_all getMaterial material ps : ∀ e,
  NoDup ps → nullptr ∉ ps →
  (∀ p, p ∈ ps → getMaterial p = material) →
  getList (MaterialInstances material) (lists e) = list_to_set ps →
  ∃ e', destroyInstances NDEBUG getMaterial ps e = Some e'
        ∧ getList (MaterialInstances material) (lists e') = ∅
        ∧ (∀ other, other ≠ MaterialInstances material →
             getList other (lists e') = getList other (lists e))
        ∧ ∀ p, occurrences (HeapDestroy FMaterialInstance p) (trace e')
               = (occurrences (HeapDestroy FMaterialInstance p) (trace e)
                  + if bool_decide (p ∈ ps) then 1 else 0)%nat.
Proof.
  induction ps as [| p ps IH]; intros e Hdup Hnull Hmat Hset.
  - exists e. split_and!; [done | done | done |]. intros p.
    rewrite bool_decide_eq_false_2; [lia | set_solver].
  - apply NoDup_cons in Hdup as [Hp Hdup].
    assert (Hin : p ∈ getList (MaterialInstances material) (lists e))
      by (rewrite Hset; set_solver).
    assert (Hpnull : p ≠ nullptr) by set_solver.
    simpl. unfold destroy_FMaterialInstance.
    rewrite bool_decide_eq_true_2 by done.
    rewrite (Hmat p) by set_solver.
    destruct (getList_nonempty_entry _ _ _ Hin material eq_refl) as [l Hl].
    rewrite Hl. rewrite terminateAndDestroy_present by done.
    set (e1 := set_lists _ _).
    assert (Hl1 : getList (MaterialInstances material) (lists e1)
                  = list_to_set ps).
    { unfold e1. rewrite lists_set_lists, getList_setList_same.
      - rewrite Hset. set_solver.
      - by eapply getList_nonempty_entry. }
    destruct (IH e1) as (e' & Hrun & Hempty & Hother & Hocc);
      [done | set_solver | set_solver | done |].
    exists e'. split_and!; [done | done | |].
    + intros other Hne. rewrite Hother by done. unfold e1.
      rewrite lists_set_lists. by apply getList_setList_other.
    + intros q. rewrite Hocc. unfold e1.
      rewrite trace_set_lists, trace_set_trace.
      rewrite occurrences_app, !occurrences_cons, occurrences_nil. simpl.
      repeat case_decide; try done; repeat case_bool_decide;
        simplify_eq; try lia; set_solver.
Qed.

(** C2: while a material has a registered instance, destroying it reports
    a non-fatal precondition violation and changes nothing else: the
    material stays in its list and its instances stay registered.  With no
    instance left the destroy goes through and removes the material from
    its list; and destroying every instance of the material, in any order,
    leads to such a state. *)
Theorem destroy_FMaterial_instances (material : Ptr) (e : FEngine) :
  material ≠ nullptr →
  let instances := getList (MaterialInstances material) (lists e) in
  (instances ≠ ∅ →
     exec (destroy_FMaterial NDEBUG material) e
     = set_trace (trace e ++ [PanicLog material (base.size instances)]) e)
  ∧ (instances = ∅ → material ∈ mMaterials (lists e) →
       let e' := exec (destroy_FMaterial NDEBUG material) e in
       mMaterials (lists e') = mMaterials (lists e) ∖ {[material]}
       ∧ trace e' = trace e ++ [ListRemove Materials material true;
                                Terminate FMaterial material;
                                HeapDestroy FMaterial material])
  ∧ (∀ (getMaterial : Ptr → Ptr) (ps : list Ptr),
       ps ≡ₚ elements instances → nullptr ∉ instances →
       (∀ p, p ∈ instances → getMaterial p = material) →
       ∃ e1, destroyInstances NDEBUG getMaterial ps e = Some e1
             ∧ getList (MaterialInstances material) (lists e1) = ∅
             ∧ mMaterials (lists e1) = mMaterials (lists e)
             ∧ (material ∈ mMaterials (lists e) →
                material ∉ mMaterials
                  (lists (exec (destroy_FMaterial NDEBUG material) e1)))).
Proof.
  intros Hnull instances. split_and!.
  - intros Hinst. unfold exec. by rewrite destroy_FMaterial_refused.
  - intros Hinst Hin e'. unfold e', exec.
    rewrite destroy_FMaterial_allowed, terminateAndDestroy_present by done.
    simpl. by rewrite lists_set_lists, trace_set_lists, trace_set_trace.
  - intros getMaterial ps Hperm Hnotnull Hmat.
    destruct (destroyInstances_all getMaterial material ps e)
      as (e1 & Hrun & Hempty & Hother & _).
    + rewrite Hperm. apply NoDup_elements.
    + rewrite Hperm. set_solver.
    + intros p Hp. apply Hmat. rewrite Hperm in Hp. set_solver.
    + unfold instances in Hperm. apply set_eq. intros p.
      rewrite elem_of_list_to_set, Hperm. set_solver.
    + exists e1. split_and!; [done | done | by apply (Hother Materials) |].
      intros Hin. unfold exec.
      rewrite destroy_FMaterial_allowed, terminateAndDestroy_present; try done.
      * simpl. rewrite lists_set_lists. simpl. set_solver.
      * rewrite (Hother Materials); done.
Qed.

End DestroyMaterial.

Lemma destroy_FMaterial_instances_witness :
  let e := exec (createMaterial 9 ;; createMaterialInstance 9 10) freshEngine in
  exec (destroy_FMaterial false 9) e
  = set_trace (trace e ++ [PanicLog 9 1]) e
  ∧ ∃ e1, destroyInstances false (λ _, 9) [10] e = Some e1
          ∧ 9 ∉ mMaterials (lists (exec (destroy_FMaterial false 9) e1)).
Proof.
  intros e.
  destruct (destroy_FMaterial_instances false 9 e) as (Hrefused & _ & Hall);
    [done |].
  split.
  - apply Hrefused. by vm_compute.
  - destruct (Hall (λ _, 9) [10]) as (e1 & Hrun & _ & _ & Hgone);
      [by vm_compute | by vm_compute | done |].
    exists e1. split; [done |]. apply Hgone. by vm_compute.
Defined.

(** The amended C3 is needed because a release build logs nothing: *)
Lemma terminateAndDestroy_release_build_silent :
  let e := exec (createVertexBuffer 16) freshEngine in
  let e' := exec (terminateAndDestroy true 16 Textures) e in
  16 ≠ nullptr ∧ (16 ∉ getList Textures (lists e))
  ∧ trace e' = trace e ++ [ListRemove Textures 16 false]
  ∧ occurrences (LogDoesntExist FTexture 16) (trace e') = 0%nat.
Proof. by vm_compute. Qed.

(** ** Stream allocations *)

(** C9: a size above 1024 bytes yields the null pointer and the driver is
    not called; any other size yields what the driver's [allocate] yields
    for that size and alignment. *)
Theorem streamAlloc_small_only (allocate : N → N → Ptr) (size alignment : N)
    (e : FEngine) :
  (size > 1024 → streamAlloc allocate size alignment e = (nullptr, e))
  ∧ (size ≤ 1024 →
       streamAlloc allocate size alignment e
       = driver_allocate allocate size alignment e
       ∧ (streamAlloc allocate size alignment e).1 = allocate size alignment
       ∧ trace (exec (streamAlloc allocate size alignment) e)
         = trace e ++ [DriverAllocate size alignment]).
Proof.
  unfold streamAlloc. split; intros Hsize.
  - apply N.gt_lt, N.ltb_lt in Hsize. by rewrite Hsize.
  - apply N.ltb_ge in Hsize. rewrite Hsize. split_and!; [done | done |].
    unfold driver_allocate. unfold_M. by destruct e.
Qed.

Lemma streamAlloc_small_only_witness :
  streamAlloc (λ size alignment, 4096 + alignment) 1025 8 freshEngine
  = (nullptr, freshEngine)
  ∧ (streamAlloc (λ size alignment, 4096 + alignment) 1024 8 freshEngine).1
    = 4104.
Proof.
  split.
  - apply (streamAlloc_small_only (λ size alignment, 4096 + alignment) 1025 8).
    lia.
  - apply (streamAlloc_small_only (λ size alignment, 4096 + alignment) 1024 8).
    lia.
Defined.

(** ** Renderables and their transform component *)

(** C10: after [createRenderable] the entity has a transform component; if
    it had none, the component is the new one, with the identity as local
    transform and no parent (the null instance), and the components of the
    other entities are untouched; if it had one, the transform manager is
    left as it was. *)
Theorem createRenderable_transform (builder : Ptr) (entity : Entity)
    (e : FEngine) :
  let e' := exec (createRenderable builder entity) e in
  let identity :=
    mkMat4f (mkFloat4 1 0 0 0) (mkFloat4 0 1 0 0)
            (mkFloat4 0 0 1 0) (mkFloat4 0 0 0 1) in
  Components.hasComponent (mTransformManager e') entity = true
  ∧ (mTransformManager e !! entity = None →
       mTransformManager e' !! entity = Some (mkTransform 0 identity)
       ∧ ∀ other, other ≠ entity →
           mTransformManager e' !! other = mTransformManager e !! other)
  ∧ (is_Some (mTransformManager e !! entity) →
       mTransformManager e' = mTransformManager e).
Proof.
  intros e' identity. unfold e', createRenderable, Components.hasComponent.
  unfold renderable_create, tcm_create, Components.hasComponent,
    Components.create. unfold_M.
  destruct e as [? ? ? ? ? ? ? ? ? ? ? ? ? ? ? ? tcm ? ? ? ? ?]. simpl.
  destruct (tcm !! entity) as [t |] eqn:Hlookup.
  - rewrite (bool_decide_eq_true_2 (is_Some (Some t))) by eauto. simpl.
    rewrite Hlookup. split_and!; [by apply bool_decide_eq_true_2 | done | done].
  - rewrite (bool_decide_eq_false_2 (is_Some None)) by (by intros [? ?]).
    simpl. rewrite lookup_insert_eq. split_and!.
    + by apply bool_decide_eq_true_2.
    + intros _. split; [done |]. intros other Hne. by rewrite lookup_insert_ne.
    + by intros [? ?].
Qed.

Lemma createRenderable_transform_witness :
  mTransformManager (exec (createRenderable 64 7) freshEngine) !! 7
  = Some (mkTransform 0 mat4f_default).
Proof.
  apply (createRenderable_transform 64 7 freshEngine). done.
Defined.

(** ** The instance registry *)

(** C7: [assertValid], called with the lock free, takes the lock, looks the
    handle up in the registry and releases the lock; it fails fatally,
    after logging the postcondition, exactly when the handle is not in the
    registry, and returns otherwise; the registry is left as it was and the
    lock is free again. *)
Theorem assertValid_membership (engine : Ptr) (g : Globals) :
  sEnginesLock g = false →
  let member := bool_decide (engine ∈ dom (sEngines g)) in
  let result := assertValid engine g in
  (result.1 = NeverReturns ↔ engine ∉ dom (sEngines g))
  ∧ (result.1 = Returns tt ↔ engine ∈ dom (sEngines g))
  ∧ sEngines result.2 = sEngines g
  ∧ sEnginesLock result.2 = false
  ∧ gtrace result.2
    = gtrace g ++ [MutexLock; EnginesFind engine member; MutexUnlock]
              ++ (if member then [] else [PanicPostcondition engine]).
Proof.
  intros Hlock member result. unfold result, assertValid. rewrite Hlock.
  simpl. unfold member.
  assert (Hdec : bool_decide (is_Some (sEngines g !! engine))
                 = bool_decide (engine ∈ dom (sEngines g))).
  { apply bool_decide_ext. by rewrite elem_of_dom. }
  rewrite Hdec. unfold ASSERT_POSTCONDITION.
  destruct (bool_decide (engine ∈ dom (sEngines g))) eqn:Hmem; simpl;
    rewrite <- ?app_assoc; simpl.
  - apply bool_decide_eq_true in Hmem. split_and!; done.
  - apply bool_decide_eq_false in Hmem. split_and!; done.
Qed.

Lemma assertValid_membership_witness :
  (assertValid 77 (mkGlobals {[77 := 77]} false [])).1 = Returns tt
  ∧ (assertValid 78 (mkGlobals {[77 := 77]} false [])).1 = NeverReturns.
Proof.
  split.
  - apply (assertValid_membership 77 (mkGlobals {[77 := 77]} false []));
      [done | by vm_compute].
  - apply (assertValid_membership 78 (mkGlobals {[77 := 77]} false []));
      [done | by vm_compute].
Defined.

(** ** The engine factory when the driver cannot be created *)

Section FactoryFailure.

Variable createDriver : Ptr → Ptr → Ptr.
Variable DefaultPlatform_create : Backend → Ptr * Backend.

Lemma resolve_platform_new backend platform sharedGLContext em buffer :
  (resolve_platform DefaultPlatform_create
     (FEngine_new backend platform sharedGLContext em buffer)).1
  = resolved DefaultPlatform_create backend platform.
Proof.
  unfold resolve_platform, resolved. simpl.
  case_bool_decide; [| done]. by destruct (DefaultPlatform_create backend).
Qed.

(** With threads, a failed driver creation makes [create] return the null
    handle, after joining the thread, and the registry is not touched. *)
Lemma FEngine_create_threaded_failure backend platform sharedGLContext em
    buffer instance g :
  createDriver (resolved DefaultPlatform_create backend platform) sharedGLContext = nullptr →
  ∃ e, FEngine_create true createDriver DefaultPlatform_create backend
         platform sharedGLContext em buffer instance g
       = (Returns nullptr, g, e)
       ∧ mDriver e = nullptr ∧ mDriverThread e = ThreadReturned.
Proof.
  intros Hfail. unfold FEngine_create, resolved in *. simpl.
  unfold loop_begin, resolve_platform, create_driver, thread_start,
    thread_running, thread_return. unfold_M. simpl.
  case_bool_decide; simpl.
  - destruct (DefaultPlatform_create backend) as [p b]; simpl in *.
    rewrite Hfail. simpl. eexists. by split_and!.
  - rewrite Hfail. simpl. eexists. by split_and!.
Qed.

(** Without threads the result of [createDriver] is not tested: the
    instance is registered, and [init] then dereferences the null driver. *)
Lemma FEngine_create_unthreaded_failure backend platform sharedGLContext em
    buffer instance g :
  sEnginesLock g = false →
  createDriver (resolved DefaultPlatform_create backend platform) sharedGLContext = nullptr →
  ∃ g' e, FEngine_create false createDriver DefaultPlatform_create backend
            platform sharedGLContext em buffer instance g
          = (NeverReturns, g', e)
          ∧ sEngines g' = <[instance := instance]> (sEngines g)
          ∧ mDriver e = nullptr.
Proof.
  intros Hlock Hfail. unfold FEngine_create, resolved in *. simpl.
  unfold register_and_init, init, resolve_platform, create_driver.
  unfold_M. simpl. rewrite Hlock.
  case_bool_decide; simpl.
  - destruct (DefaultPlatform_create backend) as [p b]; simpl in *.
    rewrite Hfail. simpl. do 2 eexists. by split_and!.
  - rewrite Hfail. simpl. do 2 eexists. by split_and!.
Qed.

End FactoryFailure.

(** C1, at an input where the code departs from it: built without
    threads, with a platform whose driver cannot be created, [create]
    registers the instance (address [77]) and never returns the null
    handle. *)
Theorem FEngine_create_unthreaded_registers_failed_instance :
  let createDriver := λ _ _ : Ptr, nullptr in
  let result :=
    FEngine_create false createDriver (λ backend, (55, backend))
      OPENGL 1 0 ∅ 4096 77 (mkGlobals ∅ false []) in
  mDriver result.2 = nullptr
  ∧ result.1.1 = NeverReturns
  ∧ sEngines result.1.2 !! 77 = Some 77.
Proof. by vm_compute. Qed.

(** ** Operations that only clean up *)

Lemma getList_setList_subseteq list list' v r :
  v ⊆ getList list r → getList list' (setList list v r) ⊆ getList list' r.
Proof.
  intros Hv. destruct (decide (list = list')) as [<- | Hne].
  - destruct list; simpl in *; try done.
    rewrite lookup_alter_eq. by destruct (_ !! material).
  - by rewrite getList_setList_other.
Qed.

Lemma dom_setList list v r :
  dom (mMaterialInstances (setList list v r)) = dom (mMaterialInstances r).
Proof. destruct list; simpl; try done. by rewrite dom_alter_L. Qed.

Lemma cleans_ret {A} (a : A) : cleans (mret a).
Proof.
  intros e. exists []. simpl. rewrite app_nil_r.
  split_and!; [apply same_but_lists_trace_refl | done | done | done | done].
Qed.

Lemma cleans_get : cleans get.
Proof. apply (cleans_ret (A := unit) tt). Qed.

Lemma cleans_step {A} list v (ev : FEngine → Event) (f : FEngine → A) :
  (∀ e, is_cleanup (ev e)) →
  (∀ e, v e ⊆ getList list (lists e)) →
  cleans (λ e, (f e, set_lists (setList list (v e) (lists e))
                       (set_trace (trace e ++ [ev e]) e))).
Proof.
  intros Hev Hv e. exists [ev e]. cbn [snd].
  rewrite lists_set_lists, trace_set_lists, trace_set_trace.
  split_and!; [by destruct e | done | by constructor | |].
  - intros list'. by apply getList_setList_subseteq.
  - by rewrite dom_setList.
Qed.

Lemma cleans_emit ev : is_cleanup ev → cleans (emit ev).
Proof.
  intros Hev e. exists [ev]. unfold emit. simpl.
  rewrite trace_set_trace, lists_set_trace.
  split_and!; [by destruct e | done | by constructor | done | done].
Qed.

Lemma cleans_bind {A B} (m : M A) (k : A → M B) :
  cleans m → (∀ a, cleans (k a)) → cleans (m ≫= k).
Proof.
  intros Hm Hk e. unfold mbind, M_bind.
  destruct (Hm e) as (evs1 & Hsame1 & Htr1 & Hev1 & Hsub1 & Hdom1).
  destruct (m e) as [a e1]. simpl in *.
  destruct (Hk a e1) as (evs2 & Hsame2 & Htr2 & Hev2 & Hsub2 & Hdom2).
  exists (evs1 ++ evs2). split_and!.
  - by eapply same_but_lists_trace_trans.
  - by rewrite Htr2, Htr1, app_assoc.
  - by apply Forall_app.
  - intros list. etrans; [apply Hsub2 | apply Hsub1].
  - by rewrite Hdom2.
Qed.

Lemma cleans_forEach {A} (l : list A) (f : A → M unit) :
  (∀ a, cleans (f a)) → cleans (forEach l f).
Proof.
  intros Hf. induction l as [| a l IH]; simpl.
  - apply cleans_ret.
  - by apply cleans_bind.
Qed.

Section Cleaning.

Variable NDEBUG : bool.

Lemma cleans_debug_log ev : is_cleanup ev → cleans (debug_log NDEBUG ev).
Proof.
  intros Hev. unfold debug_log.
  destruct NDEBUG; [apply cleans_ret | by apply cleans_emit].
Qed.

Lemma cleans_terminateAndDestroy ptr list :
  cleans (terminateAndDestroy NDEBUG ptr list).
Proof.
  unfold terminateAndDestroy. case_bool_decide; [| apply cleans_ret].
  apply cleans_bind.
  - unfold list_remove, ResourceList.remove.
    apply (cleans_step list (λ e, getList list (lists e) ∖ {[ptr]})
             (λ e, ListRemove list ptr _)); [done | set_solver].
  - intros [|].
    + apply cleans_bind; [by apply cleans_emit | intros _; by apply cleans_emit].
    + by apply cleans_debug_log.
Qed.

Lemma cleans_each_item T (copy : list Ptr) :
  cleans (forEach copy (λ item, terminate T item ;; heap_destroy T item)).
Proof.
  apply cleans_forEach. intros item.
  apply cleans_bind; [by apply cleans_emit | intros _; by apply cleans_emit].
Qed.

Lemma cleans_cleanupResourceList list :
  cleans (cleanupResourceList NDEBUG list).
Proof.
  unfold cleanupResourceList.
  apply cleans_bind; [apply (cleans_ret (A := unit) tt) |].
  intros [|]; simpl; [apply cleans_ret |].
  apply cleans_bind; [apply (cleans_ret (A := unit) tt) | intros n].
  apply cleans_bind; [by apply cleans_debug_log | intros _].
  apply cleans_bind; [| intros copy; apply cleans_each_item].
  unfold list_getListAndClear, ResourceList.getListAndClear.
  apply (cleans_step list (λ _, ∅) (λ _, ListGetListAndClear list));
    [done | set_solver].
Qed.

Lemma cleans_destroy_FMaterial ptr : cleans (destroy_FMaterial NDEBUG ptr).
Proof.
  unfold destroy_FMaterial. case_bool_decide; [| apply cleans_ret].
  intros e. destruct (mMaterialInstances (lists e) !! ptr) as [instances |].
  - revert e. apply cleans_bind.
    + unfold ASSERT_PRECONDITION_NON_FATAL.
      destruct (ResourceList.empty instances); [apply cleans_ret |].
      apply cleans_bind; [by apply cleans_emit | intros _; apply cleans_ret].
    + intros [|]; simpl; [apply cleans_terminateAndDestroy | apply cleans_ret].
  - apply cleans_terminateAndDestroy.
Qed.

(** *** Sweeping *)

Lemma cleans_sweeps {A} (m : M A) : cleans m → sweeps (λ _, False) m.
Proof. intros Hm. split; [done | by intros]. Qed.

Lemma sweeps_bind {A B} S1 S2 (m : M A) (k : A → M B) :
  sweeps S1 m → (∀ a, sweeps S2 (k a)) →
  sweeps (λ list, S1 list ∨ S2 list) (m ≫= k).
Proof.
  intros [Hm Hm0] Hk. split.
  - apply cleans_bind; [done | intros a; apply Hk].
  - intros e list HS. unfold mbind, M_bind.
    specialize (Hm0 e list). destruct (m e) as [a e1]. simpl in *.
    destruct (Hk a) as [Hka Hk0]. destruct HS as [HS | HS].
    + destruct (Hka e1) as (_ & _ & _ & _ & Hsub & _).
      specialize (Hsub list). rewrite Hm0 in Hsub by done. set_solver.
    + by apply Hk0.
Qed.

Lemma sweeps_cleanupResourceList list :
  sweeps (λ list', list' = list) (cleanupResourceList NDEBUG list).
Proof.
  split; [apply cleans_cleanupResourceList |].
  intros e ? ->. unfold cleanupResourceList.
  unfold mbind at 1, M_bind at 1, list_empty, ResourceList.empty.
  case_bool_decide as Hempty; [done |]. cbn [negb].
  unfold mbind at 1, M_bind at 1, list_size.
  unfold mbind at 1, M_bind at 1.
  destruct (debug_log NDEBUG _ e) as [[] e1] eqn:Hlog.
  assert (He1 : lists e1 = lists e).
  { unfold debug_log in Hlog. destruct NDEBUG; unfold_M; simplify_eq;
      [done | apply lists_set_trace]. }
  unfold mbind at 1, M_bind at 1, list_getListAndClear,
    ResourceList.getListAndClear.
  set (e2 := set_lists _ _).
  assert (He2 : getList list (lists e2) = ∅).
  { unfold e2. rewrite lists_set_lists. apply getList_setList_same.
    intros m ->. rewrite He1. simpl in Hempty.
    destruct (_ !! m); [eauto | done]. }
  destruct (cleans_each_item (elemType list)
              (elements (getList list (lists e1))) e2)
    as (_ & _ & _ & _ & Hsub & _).
  specialize (Hsub list). rewrite He2 in Hsub. set_solver.
Qed.

Lemma sweeps_each_instance (items : list (Ptr * gset Ptr)) :
  ∀ e material, material ∈ items.*1 →
    getList (MaterialInstances material)
      (lists (forEach items (λ item,
                cleanupResourceList NDEBUG (MaterialInstances item.1)) e).2)
    = ∅.
Proof.
  induction items as [| item items IH]; intros e material Hin; [set_solver |].
  simpl. unfold mbind, M_bind.
  destruct (cleanupResourceList NDEBUG (MaterialInstances item.1) e)
    as [[] e1] eqn:Hfirst.
  destruct (decide (material ∈ items.*1)) as [Hrest | Hrest];
    [by apply IH |].
  assert (material = item.1) as -> by set_solver.
  pose proof (proj2 (sweeps_cleanupResourceList (MaterialInstances item.1))
                e _ eq_refl) as Hempty.
  rewrite Hfirst in Hempty. cbn [snd] in Hempty.
  destruct (cleans_forEach items
              (λ item, cleanupResourceList NDEBUG (MaterialInstances item.1))
              (λ a, cleans_cleanupResourceList _) e1)
    as (_ & _ & _ & _ & Hsub & _).
  specialize (Hsub (MaterialInstances item.1)). rewrite Hempty in Hsub.
  set_solver.
Qed.

Lemma sweeps_instances :
  sweeps (λ list, ∃ material, list = MaterialInstances material)
    (e ← get;
     forEach (map_to_list (mMaterialInstances (lists e))) (λ item,
       cleanupResourceList NDEBUG (MaterialInstances item.1))).
Proof.
  split.
  - apply cleans_bind; [apply cleans_get | intros e0].
    apply cleans_forEach. intros item. apply cleans_cleanupResourceList.
  - intros e ? [material ->]. unfold mbind, M_bind, get.
    destruct (mMaterialInstances (lists e) !! material) as [l |] eqn:Hl.
    + apply sweeps_each_instance.
      apply list_elem_of_fmap. exists (material, l).
      split; [done | by apply elem_of_map_to_list].
    + destruct (cleans_forEach (map_to_list (mMaterialInstances (lists e)))
                  (λ item, cleanupResourceList NDEBUG (MaterialInstances item.1))
                  (λ a, cleans_cleanupResourceList _) e)
        as (_ & _ & _ & _ & Hsub & _).
      specialize (Hsub (MaterialInstances material)). simpl in Hsub.
      rewrite Hl in Hsub. simpl in *. set_solver.
Qed.

Lemma sweeps_weaken {A} (S S' : ListRef → Prop) (m : M A) :
  (∀ list, S' list → S list) → sweeps S m → sweeps S' m.
Proof. intros HS [Hm Hm0]. split; [done |]. intros e list ?. by apply Hm0, HS. Qed.

Ltac clean_step :=
  repeat first
    [ apply cleans_debug_log | apply cleans_emit
    | apply cleans_terminateAndDestroy | apply cleans_destroy_FMaterial
    | apply cleans_get | apply cleans_bind; [| intros ?] | exact I ].

Ltac sweep_step :=
  first [ apply sweeps_cleanupResourceList | apply sweeps_instances
        | apply cleans_sweeps; clean_step ].

Ltac pick_disjunct :=
  solve [ reflexivity | by eexists | left; pick_disjunct | right; pick_disjunct ].

(** The first part of [shutdown] only cleans up, and leaves every list
    empty but those of the indirect lights, swap chains and streams. *)
Lemma shutdown_cleanup_sweeps : sweeps swept (shutdown_cleanup NDEBUG).
Proof.
  eapply sweeps_weaken; [| unfold shutdown_cleanup;
    repeat first [ apply sweeps_cleanupResourceList
                 | eapply sweeps_bind; [sweep_step | intros ?] ] ].
  intros list (H1 & H2 & H3). destruct list; try done; pick_disjunct.
Qed.

(** *** Each resource is terminated and freed when it leaves its list *)

Lemma elemType_engineList list list' :
  engineList list → elemType list' = elemType list → list' = list.
Proof.
  intros Hlist Heq.
  destruct list; try (by destruct (Hlist material)); by destruct list'.
Qed.

Lemma conserves_ret {A} (a : A) : conserves (mret a).
Proof. by intros e list p _. Qed.

Lemma conserves_bind {A C} (m : M A) (k : A → M C) :
  conserves m → (∀ a, conserves (k a)) → conserves (m ≫= k).
Proof.
  intros Hm Hk e list p Hlist. rewrite M_bind_eq.
  destruct (Hm e list p Hlist) as [Ht1 Hf1].
  destruct (Hk (m e).1 (m e).2 list p Hlist) as [Ht2 Hf2].
  split; congruence.
Qed.

Lemma conserves_forEach {A} (l : list A) (f : A → M unit) :
  (∀ a, conserves (f a)) → conserves (forEach l f).
Proof.
  intros Hf. induction l as [| a l IH]; simpl.
  - apply conserves_ret.
  - by apply conserves_bind.
Qed.

(** Calls other than [terminate] and [destroy] on a resource, added to the
    trace with the lists left alone. *)
Lemma conserves_calls {A} (m : M A) :
  (∀ e, ∃ evs, lists (m e).2 = lists e ∧ trace (m e).2 = trace e ++ evs
               ∧ Forall (λ ev, ∀ T p, ev ≠ Terminate T p ∧ ev ≠ HeapDestroy T p)
                   evs) →
  conserves m.
Proof.
  intros Hm e list p _. destruct (Hm e) as (evs & Hl & Htr & Hevs).
  unfold terminations, frees, registered. rewrite Hl, Htr, !occurrences_app.
  rewrite Forall_forall in Hevs.
  rewrite (occurrences_not_elem_of (Terminate _ _) evs),
    (occurrences_not_elem_of (HeapDestroy _ _) evs); [lia | |];
    intros Hin; by destruct (Hevs _ Hin (elemType list) p).
Qed.

Lemma conserves_emit ev :
  (∀ T p, ev ≠ Terminate T p ∧ ev ≠ HeapDestroy T p) → conserves (emit ev).
Proof.
  intros Hev. apply conserves_calls. intros e. exists [ev]. unfold emit. simpl.
  rewrite lists_set_trace, trace_set_trace.
  split_and!; [done | done |]. constructor; [done | constructor].
Qed.

Lemma conserves_debug_log ev :
  (∀ T p, ev ≠ Terminate T p ∧ ev ≠ HeapDestroy T p) →
  conserves (debug_log NDEBUG ev).
Proof.
  intros Hev. unfold debug_log.
  destruct NDEBUG; [apply conserves_ret | by apply conserves_emit].
Qed.

Lemma conserves_terminateAndDestroy ptr list' :
  conserves (terminateAndDestroy NDEBUG ptr list').
Proof.
  intros e list p Hlist.
  destruct (decide (ptr = nullptr)) as [-> | Hnull]; [done |].
  destruct (decide (ptr ∈ getList list' (lists e))) as [Hin | Hin].
  - rewrite terminateAndDestroy_present by done. cbn [snd].
    unfold terminations, frees, registered.
    rewrite lists_set_lists, trace_set_lists, trace_set_trace.
    rewrite !occurrences_app, !occurrences_cons, !occurrences_nil.
    destruct (decide (list' = list)) as [-> | Hne].
    + rewrite getList_setList_same by by eapply getList_nonempty_entry.
      repeat case_decide; simplify_eq; repeat case_bool_decide;
        try lia; set_solver.
    + rewrite getList_setList_other by done.
      repeat case_decide; simplify_eq; try lia;
        exfalso; apply Hne; by apply elemType_engineList.
  - rewrite terminateAndDestroy_absent by done. cbn [snd].
    unfold terminations, frees, registered, logged.
    rewrite lists_set_trace, trace_set_trace.
    destruct NDEBUG;
      rewrite !occurrences_app, !occurrences_cons, ?occurrences_nil;
      repeat case_decide; simplify_eq; lia.
Qed.

Lemma forEach_items T (copy : list Ptr) : ∀ e,
  forEach copy (λ item, terminate T item ;; heap_destroy T item) e
  = (tt, set_trace (trace e ++ itemCalls T copy) e).
Proof.
  induction copy as [| item copy IH]; intros e.
  - unfold itemCalls. simpl. rewrite app_nil_r. by destruct e.
  - cbn [forEach]. rewrite M_bind_eq, IH. unfold_M.
    unfold itemCalls. simpl.
    rewrite !trace_set_trace, !set_trace_set_trace.
    by rewrite <- !app_assoc.
Qed.

Lemma occurrences_itemCalls T T' p (items : list Ptr) :
  NoDup items →
  occurrences (Terminate T p) (itemCalls T' items)
  = (if bool_decide (T = T' ∧ p ∈ items) then 1 else 0)%nat
  ∧ occurrences (HeapDestroy T p) (itemCalls T' items)
    = (if bool_decide (T = T' ∧ p ∈ items) then 1 else 0)%nat.
Proof.
  induction 1 as [| item items Hitem _ [IHt IHf]].
  - split; (rewrite bool_decide_eq_false_2; [done | set_solver]).
  - unfold itemCalls in *. cbn [mbind list_bind app].
    rewrite !occurrences_cons, IHt, IHf.
    split; repeat case_decide; simplify_eq; repeat case_bool_decide;
      try lia; exfalso; set_solver.
Qed.

(** What [cleanupResourceList] does to a list that is not empty. *)
Lemma cleanupResourceList_nonempty list e :
  getList list (lists e) ≠ ∅ →
  lists (cleanupResourceList NDEBUG list e).2 = setList list ∅ (lists e)
  ∧ trace (cleanupResourceList NDEBUG list e).2
    = trace e
      ++ logged NDEBUG
           (LogLeaked (elemType list)
              (ResourceList.size (getList list (lists e))))
      ++ [ListGetListAndClear list]
      ++ itemCalls (elemType list) (elements (getList list (lists e))).
Proof.
  intros Hne. unfold cleanupResourceList.
  rewrite M_bind_eq. unfold list_empty, ResourceList.empty. cbn [fst snd].
  rewrite bool_decide_eq_false_2 by done. cbn [negb].
  rewrite M_bind_eq. unfold list_size. cbn [fst snd].
  rewrite M_bind_eq, M_bind_eq, forEach_items. cbn [snd].
  rewrite lists_set_trace, trace_set_trace.
  unfold list_getListAndClear, ResourceList.getListAndClear. cbn [fst snd].
  rewrite lists_set_lists, trace_set_lists, trace_set_trace.
  unfold debug_log, logged.
  destruct NDEBUG; unfold_M; cbn [fst snd];
    rewrite ?lists_set_trace, ?trace_set_trace;
    (split; [done |]); by rewrite <- ?app_assoc.
Qed.

Lemma conserves_cleanupResourceList list' :
  conserves (cleanupResourceList NDEBUG list').
Proof.
  intros e list p Hlist.
  destruct (decide (getList list' (lists e) = ∅)) as [Hempty | Hne].
  { unfold cleanupResourceList. rewrite M_bind_eq.
    unfold list_empty, ResourceList.empty. cbn [fst snd].
    by rewrite bool_decide_eq_true_2. }
  destruct (cleanupResourceList_nonempty list' e Hne) as [Hl Htr].
  unfold terminations, frees, registered. rewrite Hl, Htr.
  destruct (occurrences_itemCalls (elemType list) (elemType list') p
              (elements (getList list' (lists e))) (NoDup_elements _))
    as [Ht Hf].
  rewrite !occurrences_app, Ht, Hf.
  rewrite !(occurrences_not_elem_of _ (logged NDEBUG _)),
    !(occurrences_not_elem_of _ [ListGetListAndClear list']);
    try (unfold logged; destruct NDEBUG; set_solver).
  destruct (decide (list' = list)) as [-> | Hother].
  - rewrite getList_setList_same.
    + repeat case_bool_decide; try lia; exfalso; set_solver.
    + intros m ->. by destruct (Hlist m).
  - rewrite getList_setList_other by done.
    rewrite (bool_decide_eq_false_2 (_ ∧ _)); [lia |].
    intros [Heq _]. apply Hother. by apply elemType_engineList.
Qed.

Lemma conserves_get : conserves get.
Proof. by intros e list p _. Qed.

Lemma conserves_destroy_FMaterial ptr :
  conserves (destroy_FMaterial NDEBUG ptr).
Proof.
  unfold destroy_FMaterial. case_bool_decide; [| apply conserves_ret].
  intros e. destruct (mMaterialInstances (lists e) !! ptr) as [instances |].
  - revert e. apply conserves_bind.
    + unfold ASSERT_PRECONDITION_NON_FATAL.
      destruct (ResourceList.empty instances); [apply conserves_ret |].
      apply conserves_bind;
        [by apply conserves_emit | intros _; apply conserves_ret].
    + intros [|]; simpl;
        [apply conserves_terminateAndDestroy | apply conserves_ret].
  - apply conserves_terminateAndDestroy.
Qed.

Ltac conserve_step :=
  repeat lazymatch goal with
  | |- conserves (mbind _ _) => apply conserves_bind; [| intros ?; cbv beta]
  | |- conserves (debug_log _ _) => apply conserves_debug_log; by intros
  | |- conserves (emit _) => apply conserves_emit; by intros
  | |- conserves get => apply conserves_get
  | |- conserves (cleanupResourceList _ _) =>
      apply conserves_cleanupResourceList
  | |- conserves (forEach _ _) => apply conserves_forEach; intros ?
  | |- conserves (destroy_FMaterial _ _) => apply conserves_destroy_FMaterial
  | |- conserves _ => apply conserves_terminateAndDestroy
  end.

Lemma conserves_shutdown_cleanup : conserves (shutdown_cleanup NDEBUG).
Proof. unfold shutdown_cleanup. conserve_step. Qed.

(** Every resource that is in one of the lists [shutdown] sweeps, other
    than the lists of material instances, is terminated once and freed
    once by the cleanup, and a resource that is in none of them is
    neither terminated nor freed. *)
Lemma shutdown_cleanup_once e list p :
  engineList list → swept list →
  occurrences (Terminate (elemType list) p)
    (trace (shutdown_cleanup NDEBUG e).2)
  = (occurrences (Terminate (elemType list) p) (trace e)
     + registered list p e)%nat
  ∧ occurrences (HeapDestroy (elemType list) p)
      (trace (shutdown_cleanup NDEBUG e).2)
    = (occurrences (HeapDestroy (elemType list) p) (trace e)
       + registered list p e)%nat.
Proof.
  intros Hlist Hswept.
  destruct (conserves_shutdown_cleanup e list p Hlist) as [Ht Hf].
  destruct shutdown_cleanup_sweeps as [_ Hempty].
  unfold terminations, frees in Ht, Hf. unfold registered in Ht at 1, Hf at 1.
  rewrite (Hempty e list Hswept) in Ht, Hf.
  rewrite bool_decide_eq_false_2 in Ht, Hf by set_solver. lia.
Qed.

End Cleaning.

(** ** Executing command buffers *)

Lemma queue_set_trace v e :
  mCommandBufferQueue (set_trace v e) = mCommandBufferQueue e.
Proof. by destruct e. Qed.
Lemma thread_set_trace v e : mDriverThread (set_trace v e) = mDriverThread e.
Proof. by destruct e. Qed.
Lemma set_queue_id v e :
  set_mCommandBufferQueue (mCommandBufferQueue e) (set_trace v e)
  = set_trace v e.
Proof. by destruct e. Qed.

Lemma forEach_replay (buffers : list Slice) : ∀ e,
  forEach buffers (λ item,
    if bool_decide (begin item ≠ nullptr) then
      emit (StreamExecute (begin item)) ;; releaseBuffer item
    else mret tt) e
  = (tt, set_trace (trace e ++ replay buffers) e).
Proof.
  induction buffers as [| item buffers IH]; intros e.
  - simpl. rewrite app_nil_r. by destruct e.
  - simpl. unfold mbind at 1, M_bind at 1. unfold replay. simpl.
    case_bool_decide.
    + unfold releaseBuffer. unfold_M. rewrite IH.
      rewrite !trace_set_trace, !set_trace_set_trace.
      by rewrite <- !app_assoc.
    + unfold mret, M_ret. by rewrite IH.
Qed.

Section Execute.

Variable UTILS_HAS_THREADING : bool.

(** With buffers pending, [execute] takes them all, replays and releases
    them in order, and yields [true]. *)
Lemma execute_buffers e :
  mCommandBuffersToExecute (mCommandBufferQueue e) ≠ [] →
  execute UTILS_HAS_THREADING e =
    Some (true,
          set_trace
            (trace e
             ++ WaitForCommands (mCommandBuffersToExecute (mCommandBufferQueue e))
             :: replay (mCommandBuffersToExecute (mCommandBufferQueue e)))
            (set_mCommandBufferQueue
               (mkQueue (mCircularBuffer (mCommandBufferQueue e)) []
                        (mExitRequested (mCommandBufferQueue e))) e)).
Proof.
  intros Hpending. unfold execute, waitForCommands, Queue.waitForCommands.
  unfold mbind at 1, B_bind at 1.
  destruct (mCommandBuffersToExecute (mCommandBufferQueue e))
    as [| item buffers] eqn:Hq; [done |].
  rewrite bool_decide_eq_false_2 by done.
  unfold mbind, B_bind, lift, mret, B_ret. rewrite forEach_replay.
  f_equal. f_equal. destruct e; simpl. by rewrite <- app_assoc.
Qed.

(** With nothing pending and either no threads or the exit requested,
    [execute] yields [false] and replays nothing. *)
Lemma execute_exit e :
  mCommandBuffersToExecute (mCommandBufferQueue e) = [] →
  UTILS_HAS_THREADING && negb (mExitRequested (mCommandBufferQueue e)) = false →
  execute UTILS_HAS_THREADING e
  = Some (false, set_trace (trace e ++ [WaitForCommands []]) e).
Proof.
  intros Hq Hexit. unfold execute, waitForCommands, Queue.waitForCommands.
  unfold mbind at 1, B_bind at 1. rewrite Hq, Hexit. simpl.
  unfold mret, B_ret. by rewrite set_queue_id.
Qed.

(** With nothing pending, threads, and no exit requested, the caller of
    [execute] is suspended. *)
Lemma execute_suspended e :
  mCommandBuffersToExecute (mCommandBufferQueue e) = [] →
  UTILS_HAS_THREADING && negb (mExitRequested (mCommandBufferQueue e)) = true →
  execute UTILS_HAS_THREADING e = None.
Proof.
  intros Hq Hexit. unfold execute, waitForCommands, Queue.waitForCommands.
  unfold mbind at 1, B_bind at 1. by rewrite Hq, Hexit.
Qed.

Lemma loop_body_buffers e :
  mCommandBuffersToExecute (mCommandBufferQueue e) ≠ [] →
  loop_body UTILS_HAS_THREADING e =
    Some (true,
          set_trace
            (trace e
             ++ SetThreadAffinity
             :: WaitForCommands (mCommandBuffersToExecute (mCommandBufferQueue e))
             :: replay (mCommandBuffersToExecute (mCommandBufferQueue e)))
            (set_mCommandBufferQueue
               (mkQueue (mCircularBuffer (mCommandBufferQueue e)) []
                        (mExitRequested (mCommandBufferQueue e))) e)).
Proof.
  intros Hpending. unfold loop_body, mbind, B_bind, lift, emit.
  rewrite execute_buffers by by rewrite queue_set_trace.
  rewrite queue_set_trace, trace_set_trace. f_equal. f_equal.
  destruct e; simpl. by rewrite <- app_assoc.
Qed.

Lemma loop_body_exit e :
  mCommandBuffersToExecute (mCommandBufferQueue e) = [] →
  UTILS_HAS_THREADING && negb (mExitRequested (mCommandBufferQueue e)) = false →
  loop_body UTILS_HAS_THREADING e
  = Some (false,
          set_trace (trace e ++ [SetThreadAffinity; WaitForCommands []]) e).
Proof.
  intros Hq Hexit. unfold loop_body, mbind, B_bind, lift, emit.
  rewrite execute_exit by by rewrite queue_set_trace.
  rewrite trace_set_trace, set_trace_set_trace. by rewrite <- app_assoc.
Qed.

Lemma loop_body_suspended e :
  mCommandBuffersToExecute (mCommandBufferQueue e) = [] →
  UTILS_HAS_THREADING && negb (mExitRequested (mCommandBufferQueue e)) = true →
  loop_body UTILS_HAS_THREADING e = None.
Proof.
  intros Hq Hexit. unfold loop_body, mbind, B_bind, lift, emit.
  by rewrite execute_suspended by by rewrite queue_set_trace.
Qed.

Lemma loop_while_S n e :
  loop_while UTILS_HAS_THREADING (S n) e
  = match loop_body UTILS_HAS_THREADING e with
    | Some (true, e') => loop_while UTILS_HAS_THREADING n e'
    | Some (false, e') => Some (tt, e')
    | None => None
    end.
Proof.
  simpl. unfold mbind, B_bind.
  by destruct (loop_body UTILS_HAS_THREADING e) as [[[|] e'] |].
Qed.

(** A driver thread that runs alone leaves its loop, or is suspended for
    ever, within two iterations: more fuel changes nothing. *)
Lemma loop_while_fuel n e :
  loop_while UTILS_HAS_THREADING (2 + n) e = loop_while UTILS_HAS_THREADING 2 e.
Proof.
  assert (Hone : ∀ e1 m, mCommandBuffersToExecute (mCommandBufferQueue e1) = [] →
            loop_while UTILS_HAS_THREADING (S m) e1
            = loop_while UTILS_HAS_THREADING 1 e1).
  { intros e1 m Hq. rewrite !loop_while_S.
    destruct (UTILS_HAS_THREADING && negb (mExitRequested (mCommandBufferQueue e1)))
      eqn:Hexit.
    - by rewrite loop_body_suspended.
    - by rewrite loop_body_exit. }
  destruct (mCommandBuffersToExecute (mCommandBufferQueue e)) as [| item l] eqn:Hq.
  - change (2 + n)%nat with (S (S n)).
    by rewrite (Hone e (S n)), (Hone e 1%nat).
  - change (2 + n)%nat with (S (S n)).
    rewrite (loop_while_S (S n)), (loop_while_S 1).
    rewrite loop_body_buffers by by rewrite Hq.
    apply Hone. by destruct e.
Qed.

End Execute.

(** With the exit requested and buffers pending, joining a running driver
    thread lets it replay the buffers, leave its loop and terminate the
    driver. *)
Lemma join_drains e :
  mDriverThread e = ThreadRunning →
  mExitRequested (mCommandBufferQueue e) = true →
  mCommandBuffersToExecute (mCommandBufferQueue e) ≠ [] →
  join true e =
    Some (tt,
          set_trace
            (trace e
             ++ SetThreadAffinity
             :: WaitForCommands (mCommandBuffersToExecute (mCommandBufferQueue e))
             :: replay (mCommandBuffersToExecute (mCommandBufferQueue e))
             ++ [SetThreadAffinity; WaitForCommands []; DriverTerminate;
                 ThreadJoin])
            (set_mDriverThread ThreadReturned
               (set_mCommandBufferQueue
                  (mkQueue (mCircularBuffer (mCommandBufferQueue e)) [] true)
                  e))).
Proof.
  intros Hthread Hexit Hq. unfold join. rewrite Hthread.
  unfold mbind at 1, B_bind at 1.
  rewrite loop_while_S, loop_body_buffers by done.
  rewrite loop_while_S, loop_body_exit.
  2:{ by destruct e. }
  2:{ destruct e as [? ? ? ? ? ? [? ? ?]]; simpl in *. by subst. }
  unfold mret, B_ret, mbind, B_bind, lift, loop_end, thread_return.
  unfold_M. f_equal. f_equal.
  destruct e as [? ? ? ? ? ? [? ? ?]]; simpl in *. subst.
  by rewrite <- !app_assoc.
Qed.

(** ** Shutdown *)

Section Shutdown.

Variable NDEBUG : bool.

Lemma shutdown_without_threads e e_c :
  shutdown_cleanup NDEBUG e = (tt, e_c) →
  let q := mCommandBufferQueue e_c in
  let b := mCircularBuffer q in
  let pending := mCommandBuffersToExecute q ++ [b] in
  ∃ e', shutdown false NDEBUG e = Some (tt, e')
        ∧ trace e' = trace e_c ++ [DriverPurge; QueueFlush b]
                     ++ WaitForCommands pending :: replay pending
                     ++ [QueueRequestExit; JobSystemEmancipate; MarkTerminated]
        ∧ mTerminated e' = true
        ∧ mCommandBufferQueue e'
          = mkQueue (mkSlice (begin b + sliceSize b) 0) [] true
        ∧ lists e' = lists e_c
        ∧ mDriverThread e' = mDriverThread e_c.
Proof.
  intros Hc q b pending. unfold shutdown.
  unfold mbind at 1, B_bind at 1, lift at 1. rewrite Hc.
  unfold mbind at 1, B_bind at 1, lift at 1.
  unfold flushCommandBuffer, queue_flush. unfold_M.
  unfold B_bind. cbn [negb].
  rewrite execute_buffers.
  2:{ destruct e_c as [? ? ? ? ? ? [? pend ?]]; simpl. by destruct pend. }
  unfold B_ret, lift, requestExit, mark_terminated.
  eexists. split; [done |].
  destruct e_c as [? ? ? ? ? ? [? pend ?]]; simpl in *.
  split_and!; try done.
  rewrite <- !app_assoc. simpl. by rewrite <- ?app_assoc.
Qed.

Lemma shutdown_with_threads e e_c :
  shutdown_cleanup NDEBUG e = (tt, e_c) →
  mDriverThread e_c = ThreadRunning →
  let q := mCommandBufferQueue e_c in
  let b := mCircularBuffer q in
  let pending := mCommandBuffersToExecute q ++ [b] in
  ∃ e', shutdown true NDEBUG e = Some (tt, e')
        ∧ trace e' = trace e_c ++ [DriverPurge; QueueFlush b]
                     ++ QueueRequestExit :: SetThreadAffinity
                     :: WaitForCommands pending :: replay pending
                     ++ [SetThreadAffinity; WaitForCommands [];
                         DriverTerminate; ThreadJoin;
                         JobSystemEmancipate; MarkTerminated]
        ∧ mTerminated e' = true
        ∧ mCommandBufferQueue e'
          = mkQueue (mkSlice (begin b + sliceSize b) 0) [] true
        ∧ lists e' = lists e_c
        ∧ mDriverThread e' = ThreadReturned.
Proof.
  intros Hc Hthread q b pending. unfold shutdown.
  unfold mbind at 1, B_bind at 1, lift at 1. rewrite Hc.
  unfold mbind at 1, B_bind at 1, lift at 1.
  unfold flushCommandBuffer, queue_flush, requestExit. unfold_M.
  unfold B_bind, lift, B_ret. cbn [negb].
  rewrite join_drains.
  2:{ by destruct e_c. }
  2:{ by destruct e_c. }
  2:{ destruct e_c as [? ? ? ? ? ? [? pend ?]]; simpl. by destruct pend. }
  unfold mark_terminated. eexists. split; [done |].
  destruct e_c as [? ? ? ? ? ? [? pend ?]]; simpl in *.
  split_and!; try done.
  rewrite <- !app_assoc. simpl. by rewrite <- ?app_assoc.
Qed.

(** After [shutdown] every list is empty, but for those of the indirect
    lights, the swap chains and the streams, which it does not sweep. *)
Lemma shutdown_leaves_swept_lists_empty UTILS_HAS_THREADING e e' :
  (UTILS_HAS_THREADING = true → mDriverThread e = ThreadRunning) →
  shutdown UTILS_HAS_THREADING NDEBUG e = Some (tt, e') →
  ∀ list, swept list → getList list (lists e') = ∅.
Proof.
  intros Hthread Hrun list Hswept.
  destruct (shutdown_cleanup NDEBUG e) as [[] e_c] eqn:Hc.
  destruct shutdown_cleanup_sweeps with (NDEBUG := NDEBUG) as [Hclean Hempty].
  specialize (Hempty e list Hswept). rewrite Hc in Hempty.
  destruct (Hclean e) as (evs & Hsame & _). rewrite Hc in Hsame.
  destruct UTILS_HAS_THREADING.
  - destruct (shutdown_with_threads e e_c Hc) as (e2 & Hrun2 & _ & _ & _ & Hl & _).
    { rewrite (same_but_lists_trace_thread e e_c Hsame). by apply Hthread. }
    rewrite Hrun in Hrun2. simplify_eq. by rewrite Hl.
  - destruct (shutdown_without_threads e e_c Hc) as (e2 & Hrun2 & _ & _ & _ & Hl & _).
    rewrite Hrun in Hrun2. simplify_eq. by rewrite Hl.
Qed.

Lemma elem_of_replay ev buffers :
  ev ∈ replay buffers →
  ∃ b, ev = StreamExecute (begin b) ∨ ev = ReleaseBuffer b.
Proof.
  unfold replay. rewrite list_elem_of_bind. intros (b & Hev & _).
  exists b. case_bool_decide; set_solver.
Qed.

(** [shutdown] terminates once and frees once every resource that is in one
    of the lists it sweeps, other than the lists of material instances. *)
Lemma shutdown_frees_swept_once UTILS_HAS_THREADING e e' list p :
  (UTILS_HAS_THREADING = true → mDriverThread e = ThreadRunning) →
  shutdown UTILS_HAS_THREADING NDEBUG e = Some (tt, e') →
  engineList list → swept list →
  occurrences (Terminate (elemType list) p) (trace e')
  = (occurrences (Terminate (elemType list) p) (trace e)
     + registered list p e)%nat
  ∧ occurrences (HeapDestroy (elemType list) p) (trace e')
    = (occurrences (HeapDestroy (elemType list) p) (trace e)
       + registered list p e)%nat.
Proof.
  intros Hthread Hrun Hlist Hswept.
  destruct (shutdown_cleanup_once NDEBUG e list p Hlist Hswept) as [Ht Hf].
  destruct (shutdown_cleanup NDEBUG e) as [[] e_c] eqn:Hc.
  destruct shutdown_cleanup_sweeps with (NDEBUG := NDEBUG) as [Hclean _].
  destruct (Hclean e) as (evs & Hsame & _). rewrite Hc in Hsame.
  cbn [snd] in *. rewrite <- Ht, <- Hf.
  assert (Hrest : ∃ rest,
    trace e' = trace e_c ++ rest
    ∧ ∀ ev, ev ∈ rest → ∀ T q, ev ≠ Terminate T q ∧ ev ≠ HeapDestroy T q).
  { destruct UTILS_HAS_THREADING.
    - destruct (shutdown_with_threads e e_c Hc) as (e2 & Hrun2 & Htr & _).
      { rewrite (same_but_lists_trace_thread e e_c Hsame). by apply Hthread. }
      rewrite Hrun in Hrun2. simplify_eq. eexists. split; [exact Htr |].
      intros ev Hev T q.
      rewrite !elem_of_app, !elem_of_cons, !elem_of_app in Hev.
      destruct Hev as [Hev | [Hev | [Hev | [Hev | [Hev | Hev]]]]];
        try (apply elem_of_replay in Hev as [b Hev]); set_solver.
    - destruct (shutdown_without_threads e e_c Hc) as (e2 & Hrun2 & Htr & _).
      rewrite Hrun in Hrun2. simplify_eq. eexists. split; [exact Htr |].
      intros ev Hev T q.
      rewrite !elem_of_app, !elem_of_cons, !elem_of_app in Hev.
      destruct Hev as [Hev | [Hev | [Hev | Hev]]];
        try (apply elem_of_replay in Hev as [b Hev]); set_solver. }
  destruct Hrest as (rest & -> & Hrest). rewrite !occurrences_app.
  rewrite !(occurrences_not_elem_of _ rest); [lia | |];
    intros Hin; by destruct (Hrest _ Hin (elemType list) p).
Qed.

End Shutdown.

(** C6 as first stated fails in a build without threads: nothing is
    joined. *)
Lemma shutdown_without_threads_joins_nothing :
  ∃ e', shutdown false false (exec (createTexture 6) freshEngine)
        = Some (tt, e')
        ∧ mTerminated e' = true
        ∧ occurrences ThreadJoin (trace e') = 0%nat
        ∧ occurrences QueueRequestExit (trace e') = 1%nat.
Proof. eexists. by vm_compute. Qed.

(** C4, at an input where the code departs from it: a swap chain (address
    [5]) and a vertex buffer (address [6]) are left registered; [shutdown]
    terminates and frees the vertex buffer, but the swap chain is neither
    terminated nor freed and stays in its list. *)
Theorem shutdown_leaks_swap_chain :
  let e := exec (createSwapChain 5 ;; createVertexBuffer 6) runningEngine in
  ∃ e', shutdown true false e = Some (tt, e')
        ∧ mTerminated e' = true
        ∧ mVertexBuffers (lists e') = ∅
        ∧ occurrences (HeapDestroy FVertexBuffer 6) (trace e') = 1%nat
        ∧ mSwapChains (lists e') = {[5]}
        ∧ occurrences (Terminate FSwapChain 5) (trace e') = 0%nat
        ∧ occurrences (HeapDestroy FSwapChain 5) (trace e') = 0%nat.
Proof. eexists. by vm_compute. Qed.

(** ** What a trace says of the command buffers *)

Lemma flushed_app tr tr' : flushed (tr ++ tr') = flushed tr ++ flushed tr'.
Proof. apply omap_app. Qed.
Lemma executed_app tr tr' : executed (tr ++ tr') = executed tr ++ executed tr'.
Proof. apply omap_app. Qed.
Lemma released_app tr tr' : released (tr ++ tr') = released tr ++ released tr'.
Proof. apply omap_app. Qed.
Lemma nonEmpty_app l l' : nonEmpty (l ++ l') = nonEmpty l ++ nonEmpty l'.
Proof. apply filter_app. Qed.

Lemma replay_cons item buffers :
  replay (item :: buffers)
  = (if bool_decide (begin item ≠ nullptr)
     then [StreamExecute (begin item); ReleaseBuffer item] else [])
    ++ replay buffers.
Proof. done. Qed.

Lemma released_replay buffers : released (replay buffers) = nonEmpty buffers.
Proof.
  induction buffers as [| item buffers IH]; [done |].
  rewrite replay_cons, released_app, IH. unfold nonEmpty.
  rewrite filter_cons. case_bool_decide; by case_decide.
Qed.

Lemma executed_replay buffers :
  executed (replay buffers) = begin <$> nonEmpty buffers.
Proof.
  induction buffers as [| item buffers IH]; [done |].
  rewrite replay_cons, executed_app, IH. unfold nonEmpty.
  rewrite filter_cons. case_bool_decide; by case_decide.
Qed.

Lemma flushed_replay buffers : flushed (replay buffers) = [].
Proof.
  induction buffers as [| item buffers IH]; [done |].
  rewrite replay_cons, flushed_app, IH. by case_bool_decide.
Qed.

(** ** The driver thread and the client thread, interleaved *)

Lemma run_app s1 s2 th : run (s1 ++ s2) th = run s2 (run s1 th).
Proof. apply foldl_app. Qed.

Lemma iterations_snoc batches buffers :
  iterations (batches ++ [buffers])
  = iterations batches
    ++ SetThreadAffinity :: WaitForCommands buffers :: replay buffers.
Proof.
  unfold iterations. rewrite bind_app. simpl. by rewrite app_nil_r.
Qed.

Lemma filter_driver_snoc tr ev :
  filter is_driver (tr ++ [ev])
  = filter is_driver tr ++ (if decide (is_driver ev) then [ev] else []).
Proof.
  rewrite filter_app, filter_cons, filter_nil. by case_decide.
Qed.

Ltac run_driver_step :=
  unfold mbind, B_bind, lift, emit, mret, B_ret, releaseBuffer, loop_end,
    thread_return, M_bind, M_ret, waitForCommands, Queue.waitForCommands;
  simpl.

Lemma loop_inv_driver e0 th tr batches :
  loop_inv e0 th tr batches →
  ∃ tr' batches', loop_inv e0 (driver_turn th) tr' batches'.
Proof.
  intros (Htr & Hne & Hfifo & Hcalls & Hstarted & Hret & Hexit & Hterm & Hafter).
  destruct th as [e pc todo]. unfold driver_turn.
  cbn [shared driverPc clientTodo] in *.
  destruct (mDriverThread e) eqn:Hthread; [done | |].
  2:{ exists tr, batches. unfold loop_inv. cbn [shared driverPc clientTodo].
      by rewrite Hthread. }
  rewrite bool_decide_eq_false_2 in Hterm by done.
  destruct e as [? ? ? ? ? thread [circ pend exit] ? ? ? ? ? ? ? ? ? ? ? ? ? ? tr0].
  simpl in *. subst thread tr0.
  destruct pc as [| | [| item buffers] | item buffers |]; cbn [driver_step].
  - run_driver_step. exists (tr ++ [SetThreadAffinity]), batches.
    unfold loop_inv. simpl. rewrite filter_driver_snoc, flushed_app. simpl.
    rewrite !app_nil_r in *. rewrite occurrences_app, Hterm.
    split_and!; try done; try (by rewrite <- app_assoc).
    + by rewrite Hcalls.
    + split; [done |]. rewrite elem_of_app, list_elem_of_singleton.
      intros [Hin | Hin]; [by apply Hexit in Hin | done].
  - run_driver_step. destruct pend as [| item buffers].
    + destruct exit; simpl.
      * exists (tr ++ [WaitForCommands []]), batches.
        unfold loop_inv. simpl. rewrite filter_driver_snoc, flushed_app. simpl.
        rewrite !app_nil_r in *. rewrite occurrences_app, Hterm.
        split_and!; try done; try (by rewrite <- app_assoc).
        -- rewrite Hcalls. by rewrite <- app_assoc.
        -- split; [| done]. intros _. set_solver.
      * exists tr, batches. unfold loop_inv. simpl. by split_and!.
    + exists (tr ++ [WaitForCommands (item :: buffers)]),
        (batches ++ [item :: buffers]).
      unfold loop_inv. simpl. rewrite filter_driver_snoc, flushed_app. simpl.
      rewrite !app_nil_r in *. rewrite occurrences_app, Hterm.
      rewrite iterations_snoc, concat_app. simpl. rewrite !app_nil_r.
      split_and!; try done; try (by rewrite <- app_assoc).
      * apply Forall_app. split; [done |]. by constructor.
      * rewrite Hcalls, <- !app_assoc. done.
      * split; [done |]. rewrite elem_of_app, list_elem_of_singleton.
        intros [Hin | Hin]; [by apply Hexit in Hin | done].
  - run_driver_step. exists tr, batches. unfold loop_inv. simpl.
    simpl in Hcalls. rewrite app_nil_r in *.
    split_and!; try done. split; [done |]. intros Hin. by apply Hexit in Hin.
  - case_bool_decide as Hbegin.
    + run_driver_step. exists (tr ++ [StreamExecute (begin item)]), batches.
      unfold loop_inv. simpl. rewrite filter_driver_snoc, flushed_app. simpl.
      rewrite !app_nil_r in *. rewrite occurrences_app, Hterm.
      split_and!; try done; try (by rewrite <- app_assoc).
      * rewrite <- Hcalls. cbn [unfinished]. rewrite replay_cons, <- !app_assoc.
        by rewrite bool_decide_eq_true_2 by done.
      * split; [done |]. rewrite elem_of_app, list_elem_of_singleton.
        intros [Hin | Hin]; [by apply Hexit in Hin | done].
    + run_driver_step. exists tr, batches. unfold loop_inv. simpl.
      rewrite app_nil_r in *. split_and!; try done.
      * rewrite <- Hcalls. cbn [unfinished]. rewrite replay_cons.
        rewrite bool_decide_eq_false_2; [done |]. by intros ?.
      * split; [done |]. intros Hin. by apply Hexit in Hin.
  - run_driver_step. exists (tr ++ [ReleaseBuffer item]), batches.
    unfold loop_inv. simpl. rewrite filter_driver_snoc, flushed_app. simpl.
    rewrite !app_nil_r in *. rewrite occurrences_app, Hterm.
    split_and!; try done; try (by rewrite <- app_assoc).
    split; [done |]. rewrite elem_of_app, list_elem_of_singleton.
    intros [Hin | Hin]; [by apply Hexit in Hin | done].
  - run_driver_step. exists (tr ++ [DriverTerminate]), batches.
    unfold loop_inv. simpl. rewrite filter_driver_snoc, flushed_app. simpl.
    rewrite !app_nil_r in *. rewrite occurrences_app, Hterm.
    split_and!; try done; try (by rewrite <- app_assoc).
    + rewrite Hcalls. by rewrite <- !app_assoc.
    + split; [| done]. intros _. destruct Hexit as [Hexit _].
      rewrite elem_of_app. left. by apply Hexit.
Qed.

Lemma loop_inv_client e0 th tr batches a rest :
  loop_inv e0 th tr batches →
  clientTodo th = produce a :: rest →
  ∃ tr', loop_inv e0 (client_turn th) tr' batches
         ∧ clientTodo (client_turn th) = rest.
Proof.
  intros (Htr & Hne & Hfifo & Hcalls & Hstarted & Hret & Hexit & Hterm & Hafter) Htodo.
  destruct th as [e pc todo]. unfold client_turn.
  cbn [shared driverPc clientTodo] in *. subst todo.
  destruct e as [? ? ? ? ? thread [circ pend exit] ? ? ? ? ? ? ? ? ? ? ? ? ? ? tr0].
  simpl in *. subst tr0.
  destruct a as [n | |]; simpl.
  - exists tr. split; [| done]. unfold loop_inv. simpl. by split_and!.
  - exists (tr ++ [DriverPurge; QueueFlush circ]). split; [| done].
    unfold loop_inv. simpl.
    rewrite filter_app, flushed_app, occurrences_app. simpl.
    rewrite !app_nil_r, Nat.add_0_r.
    split_and!; try done.
    + by rewrite <- !app_assoc.
    + by rewrite !app_assoc, Hfifo.
    + rewrite Hexit. rewrite elem_of_app, !elem_of_cons, elem_of_nil.
      naive_solver.
  - exists (tr ++ [QueueRequestExit]). split; [| done].
    unfold loop_inv. simpl.
    rewrite filter_app, flushed_app, occurrences_app. simpl.
    rewrite !app_nil_r, Nat.add_0_r.
    split_and!; try done.
    + by rewrite <- !app_assoc.
    + rewrite Hexit. rewrite elem_of_app, !elem_of_cons, elem_of_nil.
      naive_solver.
Qed.

Lemma loop_inv_run e0 schedule : ∀ th actions tr batches,
  clientTodo th = produce <$> actions →
  loop_inv e0 th tr batches →
  ∃ actions' tr' batches',
    clientTodo (run schedule th) = produce <$> actions'
    ∧ loop_inv e0 (run schedule th) tr' batches'.
Proof.
  induction schedule as [| t schedule IH]; intros th actions tr batches Htodo Hinv.
  { by exists actions, tr, batches. }
  simpl. destruct t; simpl.
  - destruct actions as [| a rest].
    + unfold client_turn. rewrite Htodo. simpl.
      by apply (IH th [] tr batches).
    + destruct (loop_inv_client e0 th tr batches a _ Hinv Htodo)
        as (tr' & Hinv' & Htodo').
      by apply (IH _ rest tr' batches).
  - destruct (loop_inv_driver e0 th tr batches Hinv) as (tr' & batches' & Hinv').
    apply (IH _ actions tr' batches'); [| done].
    unfold driver_turn. destruct (mDriverThread (shared th)); try done.
    by destruct (driver_step (driverPc th) (shared th)) as [[? ?] |].
Qed.

(** *** The driver thread left alone *)

Lemma reaches_refl th : reaches th th.
Proof. by exists 0%nat. Qed.

Lemma reaches_step th : reaches th (driver_turn th).
Proof. by exists 1%nat. Qed.

Lemma reaches_trans th1 th2 th3 :
  reaches th1 th2 → reaches th2 th3 → reaches th1 th3.
Proof.
  intros [k1 <-] [k2 <-]. exists (k1 + k2)%nat.
  by rewrite replicate_add, run_app.
Qed.

Lemma reaches_turn th th' th'' :
  driver_turn th = th' → reaches th' th'' → reaches th th''.
Proof. intros <-. apply reaches_trans, reaches_step. Qed.

Lemma set_trace_id e : set_trace (trace e) e = e.
Proof. by destruct e. Qed.

(** The driver thread replays the buffers it has taken, one after the
    other, and is back at the head of its loop. *)
Lemma alone_replaying buffers : ∀ e c,
  mDriverThread e = ThreadRunning →
  reaches (mkThreads e (Replaying buffers) c)
          (mkThreads (set_trace (trace e ++ replay buffers) e) AtLoopHead c).
Proof.
  induction buffers as [| item buffers IH]; intros e c Hrun.
  - eapply reaches_turn; [| apply reaches_refl].
    unfold driver_turn. cbn [shared driverPc clientTodo driver_step].
    rewrite Hrun. unfold mret, B_ret, replay. simpl.
    by rewrite app_nil_r, set_trace_id.
  - eapply reaches_turn; [done |].
    unfold driver_turn. cbn [shared driverPc clientTodo driver_step].
    rewrite Hrun, replay_cons. case_bool_decide as Hbegin.
    + unfold mbind, B_bind, lift, emit, mret, B_ret. cbn [fst snd].
      eapply reaches_turn; [done |].
      unfold driver_turn. cbn [shared driverPc clientTodo driver_step].
      rewrite thread_set_trace, Hrun.
      unfold mbind, B_bind, lift, releaseBuffer, emit, mret, B_ret.
      cbn [fst snd].
      rewrite trace_set_trace, set_trace_set_trace.
      eapply reaches_trans; [apply IH; by rewrite thread_set_trace |].
      rewrite trace_set_trace, set_trace_set_trace, <- !app_assoc.
      apply reaches_refl.
    + unfold mret, B_ret. simpl. by apply IH.
Qed.

Ltac driver_turn_now Hrun :=
  unfold driver_turn; cbn [shared driverPc clientTodo driver_step];
  rewrite ?thread_set_trace, ?Hrun.

(** One iteration of the loop by the turns of the driver thread is
    [loop_body]. *)
Lemma alone_loop_body e c :
  mDriverThread e = ThreadRunning →
  match loop_body true e with
  | Some (continue, e') =>
      reaches (mkThreads e AtLoopHead c)
              (mkThreads e' (if continue : bool then AtLoopHead else AfterLoop) c)
  | None =>
      ∀ k, run (replicate (2 + k) DriverTurn) (mkThreads e AtLoopHead c)
           = mkThreads (exec (emit SetThreadAffinity) e) InWaitForCommands c
  end.
Proof.
  intros Hrun.
  destruct (mCommandBuffersToExecute (mCommandBufferQueue e))
    as [| item buffers] eqn:Hq.
  - destruct (mExitRequested (mCommandBufferQueue e)) eqn:Hexit.
    + rewrite loop_body_exit by (by rewrite ?Hq, ?Hexit).
      eapply reaches_turn; [done |]. driver_turn_now Hrun.
      unfold mbind, B_bind, lift, emit, mret, B_ret. cbn [fst snd].
      eapply reaches_turn; [| apply reaches_refl].
      driver_turn_now Hrun.
      unfold mbind, B_bind, waitForCommands, Queue.waitForCommands.
      rewrite queue_set_trace, Hq, Hexit. simpl.
      destruct e as [? ? ? ? ? ? [? ? ?]]. simpl.
      by rewrite <- !app_assoc.
    + rewrite loop_body_suspended by (by rewrite ?Hq, ?Hexit).
      assert (Hstuck : driver_turn
                (mkThreads (exec (emit SetThreadAffinity) e) InWaitForCommands c)
              = mkThreads (exec (emit SetThreadAffinity) e) InWaitForCommands c).
      { unfold exec, emit. cbn [fst snd]. driver_turn_now Hrun.
        unfold mbind, B_bind, waitForCommands, Queue.waitForCommands.
        by rewrite queue_set_trace, Hq, Hexit. }
      intros k. change (2 + k)%nat with (S (S k)). simpl.
      replace (driver_turn (mkThreads e AtLoopHead c))
        with (mkThreads (exec (emit SetThreadAffinity) e) InWaitForCommands c).
      2:{ by driver_turn_now Hrun. }
      rewrite Hstuck. induction k as [| k IH]; [done |].
      simpl. by rewrite Hstuck.
  - rewrite loop_body_buffers by (by rewrite Hq).
    eapply reaches_turn; [done |]. driver_turn_now Hrun.
    unfold mbind, B_bind, lift, emit, mret, B_ret. cbn [fst snd].
    eapply reaches_turn; [done |]. driver_turn_now Hrun.
    unfold mbind, B_bind, waitForCommands, Queue.waitForCommands.
    rewrite queue_set_trace, Hq. cbn [mret B_ret].
    rewrite bool_decide_eq_false_2 by done.
    eapply reaches_trans; [apply alone_replaying; by destruct e |].
    rewrite <- Hq. destruct e as [? ? ? ? ? ? [? ? ?]]. simpl.
    rewrite <- !app_assoc. apply reaches_refl.
Qed.

Lemma alone_loop_end e c :
  mDriverThread e = ThreadRunning →
  driver_turn (mkThreads e AfterLoop c) = mkThreads (exec loop_end e) AfterLoop c.
Proof. intros Hrun. by driver_turn_now Hrun. Qed.

(** Once the exit is requested, the turns of the driver thread are the
    rest of its thread function: the loop, then the termination of the
    driver. *)
Lemma alone_loop e c fuel :
  mDriverThread e = ThreadRunning →
  mExitRequested (mCommandBufferQueue e) = true →
  ∃ e', (loop_while true (2 + fuel) ;; lift loop_end) e = Some (tt, e')
        ∧ reaches (mkThreads e AtLoopHead c) (mkThreads e' AfterLoop c)
        ∧ mDriverThread e' = ThreadReturned.
Proof.
  intros Hrun Hexit. unfold mbind, B_bind. rewrite loop_while_fuel.
  pose proof (alone_loop_body e c Hrun) as Hone.
  destruct (mCommandBuffersToExecute (mCommandBufferQueue e))
    as [| item buffers] eqn:Hq.
  - rewrite loop_while_S.
    rewrite loop_body_exit in Hone |- * by (by rewrite ?Hq, ?Hexit).
    eexists. split; [done |]. split.
    + eapply reaches_trans; [exact Hone |].
      eapply reaches_turn; [| apply reaches_refl].
      apply alone_loop_end. by rewrite thread_set_trace.
    + by destruct e.
  - rewrite loop_while_S.
    rewrite loop_body_buffers in Hone |- * by (by rewrite Hq).
    set (e1 := set_trace _ _) in *.
    assert (Hrun1 : mDriverThread e1 = ThreadRunning) by by destruct e.
    assert (Hq1 : mCommandBuffersToExecute (mCommandBufferQueue e1) = [])
      by by destruct e.
    assert (Hexit1 : mExitRequested (mCommandBufferQueue e1) = true).
    { destruct e as [? ? ? ? ? ? [? ? ?]]. simpl in *. by subst. }
    pose proof (alone_loop_body e1 c Hrun1) as Htwo.
    rewrite loop_while_S.
    rewrite loop_body_exit in Htwo |- * by (by rewrite ?Hq1, ?Hexit1).
    eexists. split; [done |]. split.
    + eapply reaches_trans; [exact Hone |].
      eapply reaches_trans; [exact Htwo |].
      eapply reaches_turn; [| apply reaches_refl].
      apply alone_loop_end. by rewrite thread_set_trace.
    + unfold e1. by destruct e.
Qed.

(** Until the exit is requested the loop does not end. *)
Lemma loop_while_waits e fuel :
  mExitRequested (mCommandBufferQueue e) = false →
  loop_while true fuel e = None.
Proof.
  intros Hexit.
  assert (Hone : ∀ e1 n,
            mCommandBuffersToExecute (mCommandBufferQueue e1) = [] →
            mExitRequested (mCommandBufferQueue e1) = false →
            loop_while true n e1 = None).
  { intros e1 [| n] Hq1 Hexit1; [done |].
    rewrite loop_while_S. by rewrite loop_body_suspended by (by rewrite ?Hq1, ?Hexit1). }
  destruct fuel as [| fuel]; [done |].
  destruct (mCommandBuffersToExecute (mCommandBufferQueue e))
    as [| item buffers] eqn:Hq.
  - by apply Hone.
  - rewrite loop_while_S, loop_body_buffers by (by rewrite Hq).
    apply Hone; destruct e as [? ? ? ? ? ? [? ? ?]]; simpl in *; by subst.
Qed.

(** Left alone, the driver thread replays all that is pending; it then
    waits for more, or, if the exit is requested, terminates the driver
    and returns. *)
Lemma alone_drains th :
  mDriverThread (shared th) = ThreadRunning →
  (driverPc th = AfterLoop →
   mExitRequested (mCommandBufferQueue (shared th)) = true) →
  ∃ th',
    reaches th th'
    ∧ clientTodo th' = clientTodo th
    ∧ mExitRequested (mCommandBufferQueue (shared th'))
      = mExitRequested (mCommandBufferQueue (shared th))
    ∧ (driverPc th ≠ AfterLoop →
       mCommandBuffersToExecute (mCommandBufferQueue (shared th')) = []
       ∧ unfinished (driverPc th') = [])
    ∧ (if mExitRequested (mCommandBufferQueue (shared th))
       then mDriverThread (shared th') = ThreadReturned
       else mDriverThread (shared th') = ThreadRunning
            ∧ driverPc th' = InWaitForCommands).
Proof.
  assert (Hhead : ∀ e c, mDriverThread e = ThreadRunning →
    ∃ th', reaches (mkThreads e AtLoopHead c) th'
      ∧ clientTodo th' = c
      ∧ mExitRequested (mCommandBufferQueue (shared th'))
        = mExitRequested (mCommandBufferQueue e)
      ∧ mCommandBuffersToExecute (mCommandBufferQueue (shared th')) = []
      ∧ unfinished (driverPc th') = []
      ∧ (if mExitRequested (mCommandBufferQueue e)
         then mDriverThread (shared th') = ThreadReturned
         else mDriverThread (shared th') = ThreadRunning
              ∧ driverPc th' = InWaitForCommands)).
  { assert (Hidle : ∀ e c, mDriverThread e = ThreadRunning →
      mCommandBuffersToExecute (mCommandBufferQueue e) = [] →
      ∃ th', reaches (mkThreads e AtLoopHead c) th'
        ∧ clientTodo th' = c
        ∧ mExitRequested (mCommandBufferQueue (shared th'))
          = mExitRequested (mCommandBufferQueue e)
        ∧ mCommandBuffersToExecute (mCommandBufferQueue (shared th')) = []
        ∧ unfinished (driverPc th') = []
        ∧ (if mExitRequested (mCommandBufferQueue e)
           then mDriverThread (shared th') = ThreadReturned
           else mDriverThread (shared th') = ThreadRunning
                ∧ driverPc th' = InWaitForCommands)).
    { intros e c Hrun Hq.
      pose proof (alone_loop_body e c Hrun) as Hone.
      destruct (mExitRequested (mCommandBufferQueue e)) eqn:Hexit.
      - rewrite loop_body_exit in Hone by (by rewrite ?Hq, ?Hexit).
        eexists. split.
        { eapply reaches_trans; [exact Hone |].
          eapply reaches_turn; [| apply reaches_refl].
          apply alone_loop_end. by rewrite thread_set_trace. }
        destruct e as [? ? ? ? ? ? [? ? ?]]. simpl in *. by subst.
      - rewrite loop_body_suspended in Hone by (by rewrite ?Hq, ?Hexit).
        eexists. split; [exists 2%nat; apply (Hone 0%nat) |].
        destruct e as [? ? ? ? ? ? [? ? ?]]. simpl in *. by subst. }
    intros e c Hrun.
    destruct (mCommandBuffersToExecute (mCommandBufferQueue e))
      as [| item buffers] eqn:Hq; [by apply Hidle |].
    pose proof (alone_loop_body e c Hrun) as Hone.
    rewrite loop_body_buffers in Hone by (by rewrite Hq).
    set (e1 := set_trace _ _) in *.
    destruct (Hidle e1 c) as (th' & Hreach & Hrest).
    { by destruct e. }
    { by destruct e. }
    exists th'. split; [by eapply reaches_trans |].
    replace (mExitRequested (mCommandBufferQueue e))
      with (mExitRequested (mCommandBufferQueue e1)); [done |].
    by destruct e as [? ? ? ? ? ? [? ? ?]]. }
  destruct th as [e pc c]. cbn [shared driverPc clientTodo].
  intros Hrun Hafter.
  destruct pc as [| | buffers | item buffers |].
  - destruct (Hhead e c Hrun) as (th' & ? & ? & ? & ? & ? & ?).
    exists th'. by split_and!.
  - destruct (mCommandBuffersToExecute (mCommandBufferQueue e))
      as [| item buffers] eqn:Hq.
    + destruct (mExitRequested (mCommandBufferQueue e)) eqn:Hexit.
      * eexists. split.
        { eapply reaches_turn; [done |]. driver_turn_now Hrun.
          unfold mbind, B_bind, waitForCommands, Queue.waitForCommands.
          rewrite Hq, Hexit. simpl.
          eapply reaches_turn; [| apply reaches_refl].
          apply alone_loop_end. by destruct e. }
        destruct e as [? ? ? ? ? ? [? ? ?]]. simpl in *. by subst.
      * exists (mkThreads e InWaitForCommands c).
        split; [apply reaches_refl |]. simpl. by rewrite Hq.
    + set (e1 := set_mCommandBufferQueue
                   (mkQueue (mCircularBuffer (mCommandBufferQueue e)) []
                            (mExitRequested (mCommandBufferQueue e)))
                   (set_trace (trace e ++ [WaitForCommands (item :: buffers)]) e)).
      destruct (Hhead (set_trace (trace e1 ++ replay (item :: buffers)) e1) c)
        as (th' & Hreach & Hrest).
      { by destruct e. }
      exists th'. split.
      { eapply reaches_turn; [done |]. driver_turn_now Hrun.
        unfold mbind, B_bind, waitForCommands, Queue.waitForCommands.
        rewrite Hq. cbn [mret B_ret].
        rewrite bool_decide_eq_false_2 by done.
        eapply reaches_trans; [apply alone_replaying; by destruct e |].
        exact Hreach. }
      replace (mExitRequested (mCommandBufferQueue e))
        with (mExitRequested (mCommandBufferQueue
                (set_trace (trace e1 ++ replay (item :: buffers)) e1)));
        [by destruct Hrest as (? & ? & ? & ? & ?) |].
      by destruct e as [? ? ? ? ? ? [? ? ?]].
  - destruct (Hhead (set_trace (trace e ++ replay buffers) e) c)
      as (th' & Hreach & Hrest).
    { by destruct e. }
    exists th'. split.
    { eapply reaches_trans; [by apply alone_replaying |]. exact Hreach. }
    replace (mExitRequested (mCommandBufferQueue e))
      with (mExitRequested (mCommandBufferQueue
              (set_trace (trace e ++ replay buffers) e)));
      [by destruct Hrest as (? & ? & ? & ? & ?) |].
    by destruct e as [? ? ? ? ? ? [? ? ?]].
  - set (e1 := set_trace (trace e ++ [ReleaseBuffer item]) e).
    destruct (Hhead (set_trace (trace e1 ++ replay buffers) e1) c)
      as (th' & Hreach & Hrest).
    { by destruct e. }
    exists th'. split.
    { eapply reaches_turn; [done |]. driver_turn_now Hrun.
      unfold mbind, B_bind, lift, releaseBuffer, emit, mret, B_ret.
      cbn [fst snd].
      eapply reaches_trans; [apply alone_replaying; by destruct e |].
      exact Hreach. }
    replace (mExitRequested (mCommandBufferQueue e))
      with (mExitRequested (mCommandBufferQueue
              (set_trace (trace e1 ++ replay buffers) e1)));
      [by destruct Hrest as (? & ? & ? & ? & ?) |].
    by destruct e as [? ? ? ? ? ? [? ? ?]].
  - rewrite Hafter by done. eexists. split.
    { eapply reaches_turn; [| apply reaches_refl]. by apply alone_loop_end. }
    specialize (Hafter eq_refl).
    destruct e as [? ? ? ? ? ? [? ? ?]]. simpl in *. by split_and!.
Qed.

(** C5: the client thread writes commands, flushes and requests the exit;
    the driver thread makes the calls of its loop; the two take turns in
    any order.  The calls the driver thread has made, followed by those
    the iteration under way has still to make, are always one iteration
    per batch of buffers that [waitForCommands] handed out: the thread
    affinity is set, the batch is taken, and each of its buffers that has
    commands is replayed, then released, in the order of the batch.  The
    batches handed out, followed by the buffers still pending, are the
    buffers pending at the start followed by the buffers flushed since, in
    the order of the flushes.  No batch is empty but the last one, which
    is handed out exactly when the thread leaves its loop; the driver is
    then terminated once and the thread returns.  Left alone, the driver
    thread replays all that is pending, and then waits for more, or
    returns if the exit is requested.  The turns of the driver thread are
    the iterations of [loop_body]; and the thread function [loop], once it
    has created the driver, is these turns from the head of the loop: it
    returns if the exit is requested, and until then does not. *)
Theorem driver_loop_fifo (actions : list Action) (schedule : list Turn)
    (e0 : FEngine) :
  mDriverThread e0 = ThreadRunning →
  let th := run schedule (mkThreads e0 AtLoopHead (produce <$> actions)) in
  let e := shared th in
  let pending0 := mCommandBuffersToExecute (mCommandBufferQueue e0) in
  (∃ tr batches,
     trace e = trace e0 ++ tr
     ∧ Forall (λ buffers, buffers ≠ []) batches
     ∧ concat batches ++ mCommandBuffersToExecute (mCommandBufferQueue e)
       = pending0 ++ flushed tr
     ∧ filter is_driver tr ++ unfinished (driverPc th)
       = (batches ≫= λ buffers,
            SetThreadAffinity :: WaitForCommands buffers
            :: (buffers ≫= λ item,
                  if bool_decide (begin item ≠ nullptr)
                  then [StreamExecute (begin item); ReleaseBuffer item]
                  else []))
         ++ match mDriverThread e, driverPc th with
            | ThreadReturned, _ =>
                [SetThreadAffinity; WaitForCommands []; DriverTerminate]
            | _, AfterLoop => [SetThreadAffinity; WaitForCommands []]
            | _, InWaitForCommands => [SetThreadAffinity]
            | _, _ => []
            end
     ∧ (driverPc th = AfterLoop ↔ WaitForCommands [] ∈ tr)
     ∧ (mDriverThread e = ThreadReturned → driverPc th = AfterLoop)
     ∧ occurrences DriverTerminate tr
       = (if bool_decide (mDriverThread e = ThreadReturned) then 1 else 0)%nat)
  ∧ (∃ k, let th' := run (replicate k DriverTurn) th in
       (driverPc th ≠ AfterLoop →
        mCommandBuffersToExecute (mCommandBufferQueue (shared th')) = []
        ∧ unfinished (driverPc th') = [])
       ∧ (if mExitRequested (mCommandBufferQueue e)
          then mDriverThread (shared th') = ThreadReturned
          else mDriverThread (shared th') = ThreadRunning
               ∧ driverPc th' = InWaitForCommands))
  ∧ (∀ e1 c, mDriverThread e1 = ThreadRunning →
       match loop_body true e1 with
       | Some (continue, e2) =>
           ∃ k, run (replicate k DriverTurn) (mkThreads e1 AtLoopHead c)
                = mkThreads e2 (if continue : bool then AtLoopHead else AfterLoop) c
       | None =>
           ∀ k, run (replicate (2 + k) DriverTurn) (mkThreads e1 AtLoopHead c)
                = mkThreads (exec (emit SetThreadAffinity) e1) InWaitForCommands c
       end)
  ∧ (∀ createDriver DefaultPlatform_create e1 c fuel,
       let started := loop_begin createDriver DefaultPlatform_create e1 in
       let e2 := exec (emit SetThreadName ;; emit SetThreadPriority) started.2 in
       started.1 = true →
       mDriverThread e2 = ThreadRunning →
       if mExitRequested (mCommandBufferQueue e2) then
         ∃ k e3,
           loop true createDriver DefaultPlatform_create (2 + fuel) e1
           = Some (tt, e3)
           ∧ run (replicate k DriverTurn) (mkThreads e2 AtLoopHead c)
             = mkThreads e3 AfterLoop c
           ∧ mDriverThread e3 = ThreadReturned
       else loop true createDriver DefaultPlatform_create fuel e1 = None).
Proof.
  intros Hrunning th e pending0.
  destruct (loop_inv_run e0 schedule
              (mkThreads e0 AtLoopHead (produce <$> actions)) actions [] [])
    as (actions' & tr & batches & Htodo & Hinv); [done | |].
  { unfold loop_inv. simpl. rewrite Hrunning, !app_nil_r.
    split_and!; try done. split; [done |]. by intros ?%elem_of_nil. }
  fold th in Htodo, Hinv.
  destruct Hinv as (Htr & Hne & Hfifo & Hcalls & Hstarted & Hret & Hexit
                    & Hterm & Hafter).
  fold e in Htr, Hfifo, Hcalls, Hstarted, Hret, Hterm, Hafter.
  split_and!.
  - exists tr, batches. by split_and!.
  - destruct (mDriverThread e) eqn:Hthread; [done | |].
    + destruct (alone_drains th Hthread Hafter)
        as (th' & [k <-] & _ & _ & Hdrained & Hstate).
      exists k. by split.
    + exists 0%nat. simpl. rewrite (Hret eq_refl). split; [done |].
      rewrite Hafter by by apply Hret. done.
  - intros e1 c Hrun1. pose proof (alone_loop_body e1 c Hrun1) as Hone.
    by destruct (loop_body true e1) as [[[|] e2] |].
  - intros createDriver DefaultPlatform_create e1 c fuel. cbv zeta.
    destruct (loop_begin createDriver DefaultPlatform_create e1)
      as [ok e1'] eqn:Hbegin.
    cbn [fst snd]. intros -> Hrun2.
    set (e2 := exec (emit SetThreadName ;; emit SetThreadPriority) e1') in *.
    assert (Hloop : ∀ n,
      loop true createDriver DefaultPlatform_create n e1
      = (loop_while true n ;; lift loop_end) e2).
    { intros n. unfold loop. unfold mbind at 1, B_bind at 1, lift at 1.
      rewrite Hbegin.
      unfold mbind at 1, B_bind at 1, lift at 1. unfold e2, exec.
      by destruct ((emit SetThreadName ;; emit SetThreadPriority) e1')
        as [[] ?]. }
    destruct (mExitRequested (mCommandBufferQueue e2)) eqn:Hexit2.
    + destruct (alone_loop e2 c fuel Hrun2 Hexit2)
        as (e3 & Hwhile & [k Hk] & Hret3).
      exists k, e3. by rewrite Hloop.
    + rewrite Hloop. unfold mbind, B_bind.
      by rewrite loop_while_waits.
Qed.

Lemma driver_loop_fifo_witness :
  let actions := [ClientWrite 64; ClientFlush; ClientWrite 128; ClientFlush;
                  ClientWrite 32; ClientFlush; ClientRequestExit] in
  let schedule :=
    [ClientTurn; ClientTurn; DriverTurn; DriverTurn; DriverTurn; ClientTurn;
     ClientTurn; DriverTurn; ClientTurn; ClientTurn; DriverTurn; DriverTurn;
     DriverTurn; DriverTurn; DriverTurn; DriverTurn; ClientTurn;
     DriverTurn; DriverTurn; DriverTurn; DriverTurn; DriverTurn; DriverTurn] in
  let th := run schedule
              (mkThreads runningEngine AtLoopHead (produce <$> actions)) in
  mDriverThread (shared th) = ThreadReturned
  ∧ ∃ tr, trace (shared th) = trace runningEngine ++ tr
          ∧ executed tr = [4096; 4160; 4288]%N
          ∧ occurrences DriverTerminate tr = 1%nat.
Proof.
  intros actions schedule th. split; [by vm_compute |].
  destruct (driver_loop_fifo actions schedule runningEngine eq_refl)
    as ((tr & batches & Htr & _ & _ & _ & _ & _ & Hterm) & _).
  fold th in Htr, Hterm. exists tr. split_and!; [done | |].
  - replace tr with (drop (length (trace runningEngine)) (trace (shared th)))
      by by rewrite Htr, drop_app_length.
    by vm_compute.
  - rewrite Hterm. by vm_compute.
Defined.

(** ** Shutdown while the driver thread runs *)

(** *** The cleanup does not look at the driver thread *)

Lemma driver_view_id e :
  driver_view (trace e) (mCommandBufferQueue e) (mDriverThread e) e = e.
Proof. by destruct e. Qed.

Lemma uniform_ret {A} (a : A) : uniform (mret a).
Proof.
  intros e. exists a, (lists e), []. intros t q s.
  rewrite app_nil_r. by destruct e.
Qed.

Lemma uniform_bind {A B} (m : M A) (k : A → M B) :
  uniform m → (∀ a, uniform (k a)) → uniform (m ≫= k).
Proof.
  intros Hm Hk e. destruct (Hm e) as (a & l & evs & Hm').
  destruct (Hk a (set_lists l e)) as (b & l2 & evs2 & Hk').
  exists b, l2, (evs ++ evs2). intros t q s.
  unfold mbind, M_bind. rewrite Hm'.
  replace (set_lists l (driver_view (t ++ evs) q s e))
    with (driver_view (t ++ evs) q s (set_lists l e)) by by destruct e.
  rewrite Hk'. f_equal. rewrite app_assoc. by destruct e.
Qed.

Lemma uniform_emit ev : uniform (emit ev).
Proof.
  intros e. exists tt, (lists e), [ev]. intros t q s. by destruct e.
Qed.

Lemma uniform_forEach {A} (l : list A) (f : A → M unit) :
  (∀ a, uniform (f a)) → uniform (forEach l f).
Proof.
  intros Hf. induction l as [| a l IH]; simpl.
  - apply uniform_ret.
  - by apply uniform_bind.
Qed.

(** An operation that reads [proj e], which the driver thread does not
    change, and goes on with it. *)
Lemma uniform_read {A X} (proj : FEngine → X) (f : X → M A) :
  (∀ e t q s, proj (driver_view t q s e) = proj e) →
  (∀ x, uniform (f x)) →
  uniform (λ e, f (proj e) e).
Proof.
  intros Hproj Hf e. destruct (Hf (proj e) e) as (a & l & evs & Hf').
  exists a, l, evs. intros t q s. by rewrite Hproj.
Qed.

Lemma uniform_get_proj {A X} (proj : FEngine → X) (f : X → M A) :
  (∀ e t q s, proj (driver_view t q s e) = proj e) →
  (∀ x, uniform (f x)) →
  uniform (e ← get; f (proj e)).
Proof.
  intros Hproj Hf e.
  destruct (uniform_read proj f Hproj Hf e) as (a & l & evs & Hm).
  exists a, l, evs. intros t q s. exact (Hm t q s).
Qed.

Lemma uniform_list_remove list ptr : uniform (list_remove list ptr).
Proof.
  intros e. unfold list_remove.
  exists (ResourceList.remove ptr (getList list (lists e))).1,
    (setList list (ResourceList.remove ptr (getList list (lists e))).2 (lists e)),
    [ListRemove list ptr (ResourceList.remove ptr (getList list (lists e))).1].
  intros t q s. by destruct e.
Qed.

Lemma uniform_list_empty list : uniform (list_empty list).
Proof.
  intros e. exists (ResourceList.empty (getList list (lists e))), (lists e), [].
  intros t q s. rewrite app_nil_r. by destruct e.
Qed.

Lemma uniform_list_size list : uniform (list_size list).
Proof.
  intros e. exists (ResourceList.size (getList list (lists e))), (lists e), [].
  intros t q s. rewrite app_nil_r. by destruct e.
Qed.

Lemma uniform_list_getListAndClear list : uniform (list_getListAndClear list).
Proof.
  intros e. unfold list_getListAndClear.
  exists (ResourceList.getListAndClear (getList list (lists e))).1,
    (setList list (ResourceList.getListAndClear (getList list (lists e))).2
       (lists e)),
    [ListGetListAndClear list].
  intros t q s. by destruct e.
Qed.

Section Uniform.

Variable NDEBUG : bool.

Lemma uniform_debug_log ev : uniform (debug_log NDEBUG ev).
Proof.
  unfold debug_log. destruct NDEBUG; [apply uniform_ret | apply uniform_emit].
Qed.

Lemma uniform_terminateAndDestroy ptr list :
  uniform (terminateAndDestroy NDEBUG ptr list).
Proof.
  unfold terminateAndDestroy. case_bool_decide; [| apply uniform_ret].
  apply uniform_bind; [apply uniform_list_remove |].
  intros [|].
  - apply uniform_bind; [apply uniform_emit | intros _; apply uniform_emit].
  - apply uniform_debug_log.
Qed.

Lemma uniform_cleanupResourceList list :
  uniform (cleanupResourceList NDEBUG list).
Proof.
  unfold cleanupResourceList.
  apply uniform_bind; [apply uniform_list_empty |].
  intros [|]; simpl; [apply uniform_ret |].
  apply uniform_bind; [apply uniform_list_size | intros n].
  apply uniform_bind; [apply uniform_debug_log | intros _].
  apply uniform_bind; [apply uniform_list_getListAndClear | intros copy].
  apply uniform_forEach. intros item.
  apply uniform_bind; [apply uniform_emit | intros _; apply uniform_emit].
Qed.

Lemma uniform_destroy_FMaterial ptr : uniform (destroy_FMaterial NDEBUG ptr).
Proof.
  unfold destroy_FMaterial. case_bool_decide; [| apply uniform_ret].
  intros e.
  assert (Hbranch : ∀ x : option (gset Ptr), uniform
    (match x with
     | Some instances =>
         ok ← ASSERT_PRECONDITION_NON_FATAL (ResourceList.empty instances)
                (PanicLog ptr (ResourceList.size instances));
         if negb ok then mret tt else terminateAndDestroy NDEBUG ptr Materials
     | None => terminateAndDestroy NDEBUG ptr Materials
     end)).
  { intros [instances |]; [| apply uniform_terminateAndDestroy].
    apply uniform_bind.
    - unfold ASSERT_PRECONDITION_NON_FATAL.
      destruct (ResourceList.empty instances); [apply uniform_ret |].
      apply uniform_bind; [apply uniform_emit | intros _; apply uniform_ret].
    - intros [|]; simpl; [apply uniform_terminateAndDestroy | apply uniform_ret]. }
  destruct (Hbranch (mMaterialInstances (lists e) !! ptr) e)
    as (a & l & evs & Hm).
  exists a, l, evs. intros t q s. rewrite <- Hm.
  replace (lists (driver_view t q s e)) with (lists e) by by destruct e.
  by destruct (mMaterialInstances (lists e) !! ptr).
Qed.

Lemma uniform_shutdown_cleanup : uniform (shutdown_cleanup NDEBUG).
Proof.
  unfold shutdown_cleanup.
  repeat lazymatch goal with
  | |- uniform (get ≫= _) =>
      apply uniform_get_proj;
      [ intros e t q s; by destruct e
      | intros ?;
        first [ apply uniform_terminateAndDestroy
              | apply uniform_destroy_FMaterial
              | apply uniform_forEach; intros ?;
                apply uniform_cleanupResourceList ] ]
  | |- uniform (mbind _ _) => apply uniform_bind; [| intros ?]
  | |- uniform (debug_log _ _) => apply uniform_debug_log
  | |- uniform (emit _) => apply uniform_emit
  | |- uniform (cleanupResourceList _ _) => apply uniform_cleanupResourceList
  end.
  apply (uniform_get_proj
           (λ e, map_to_list (mMaterialInstances (lists e)))
           (λ l, forEach l (λ item,
                   cleanupResourceList NDEBUG (MaterialInstances item.1)))).
  - intros e t q s. by destruct e.
  - intros l. apply uniform_forEach. intros item.
    apply uniform_cleanupResourceList.
Qed.

End Uniform.

(** *** A turn of the driver thread *)

Lemma driver_view_driver_view t q s t' q' s' e :
  driver_view t' q' s' (driver_view t q s e) = driver_view t' q' s' e.
Proof. by destruct e. Qed.

Lemma executed_snoc_other d ev :
  (∀ p, ev ≠ StreamExecute p) → executed (d ++ [ev]) = executed d.
Proof.
  intros Hev. rewrite executed_app. destruct ev; simpl; try by rewrite app_nil_r.
  by edestruct Hev.
Qed.

Lemma released_snoc_other d ev :
  (∀ x, ev ≠ ReleaseBuffer x) → released (d ++ [ev]) = released d.
Proof.
  intros Hev. rewrite released_app. destruct ev; simpl; try by rewrite app_nil_r.
  by edestruct Hev.
Qed.

(** What a turn of the running driver thread does. *)
Lemma driver_turn_spec th :
  mDriverThread (shared th) = ThreadRunning →
  let th' := driver_turn th in
  ∃ evs,
    Forall is_driver evs
    ∧ shared th' = driver_view (trace (shared th) ++ evs)
                     (mCommandBufferQueue (shared th'))
                     (mDriverThread (shared th')) (shared th)
    ∧ mCircularBuffer (mCommandBufferQueue (shared th'))
      = mCircularBuffer (mCommandBufferQueue (shared th))
    ∧ mExitRequested (mCommandBufferQueue (shared th'))
      = mExitRequested (mCommandBufferQueue (shared th))
    ∧ clientTodo th' = clientTodo th
    ∧ (in_loop th → in_loop th')
    ∧ (∀ b d, replayed b th d → replayed b th' (d ++ evs))
    ∧ (∀ d, leaving th d → leaving th' (d ++ evs)).
Proof.
  intros Hrun th'. unfold th', driver_turn. rewrite Hrun.
  destruct th as [e pc c]. cbn [shared driverPc clientTodo] in *.
  destruct e as [? ? ? ? ? thread [circ pend exit] ? ? ? ? ? ? ? ? ? ? ? ? ? ? tr].
  simpl in Hrun. subst thread.
  unfold in_loop, replayed, leaving.
  destruct pc as [| | [| item buffers] | item buffers |]; cbn [driver_step].
  - run_driver_step. exists [SetThreadAffinity].
    split_and!; [by repeat constructor | done | done | done | done
                | by intros (? & ? & ?) | | done].
    intros b d [[Ha ?] | [(? & _) | (? & ? & ? & Hdone)]]; [by left | done |].
    right; right. split_and!; try done. intros Hb.
    rewrite executed_snoc_other, released_snoc_other by done.
    by apply Hdone.
  - run_driver_step. destruct pend as [| item buffers].
    + destruct exit; simpl.
      * exists [WaitForCommands []].
        split_and!; [by repeat constructor | done | done | done | done
                    | by intros (? & ? & ?) | |].
        -- intros b d [[[pre Ha] ?] | [(? & _) | (? & ? & ? & Hdone)]];
             [by destruct pre | done |].
           right; right. split_and!; try done. intros Hb.
           rewrite executed_snoc_other, released_snoc_other by done.
    by apply Hdone.
        -- intros d _ _. by exists d.
      * exists []. rewrite app_nil_r.
        split_and!; [done | done | done | done | done | done | |].
        -- intros b d. by rewrite app_nil_r.
        -- intros d. by rewrite app_nil_r.
    + exists [WaitForCommands (item :: buffers)].
      split_and!; [by repeat constructor | done | done | done | done
                  | by intros (? & ? & ?) | | done].
      intros b d [[[pre Ha] ?] | [(? & _) | (? & ? & _)]]; [| done | done].
      left. split; [| done]. exists pre. simpl in *. by rewrite app_nil_r.
  - run_driver_step. exists []. rewrite app_nil_r.
    split_and!; [done | done | done | done | done
                | by intros (? & ? & ?) | |].
    + intros b d. rewrite app_nil_r.
      intros [[Ha ?] | [(? & _) | (? & ? & ? & Hdone)]]; [by left | done |].
      right; right. by split_and!.
    + intros d. by rewrite app_nil_r.
  - case_bool_decide as Hbegin.
    + run_driver_step. exists [StreamExecute (begin item)].
      split_and!; [by repeat constructor | done | done | done | done
                  | by intros (? & ? & ?) | | done].
      intros b d [[[pre Ha] ?] | [(? & _) | (? & _)]]; [| done | done].
      simpl in Ha. destruct (buffers ++ pend) as [| y rest] eqn:Hrest.
      * apply app_eq_nil in Hrest as [-> ->].
        destruct pre as [| z [| ? ?]]; simpl in Ha; simplify_eq.
        right; left. split_and!; try done.
        rewrite executed_app. simpl. by rewrite last_snoc.
      * left. split; [| done]. simpl. rewrite ?Hrest.
        destruct pre as [| z pre]; simpl in Ha; simplify_eq. by exists pre.
    + run_driver_step. exists []. rewrite app_nil_r.
      split_and!; [done | done | done | done | done
                  | by intros (? & ? & ?) | |].
      * intros b d. rewrite app_nil_r.
        intros [[[pre Ha] ?] | [(? & _) | (? & _)]]; [| done | done].
        simpl in Ha. destruct (buffers ++ pend) as [| y rest] eqn:Hrest.
        -- apply app_eq_nil in Hrest as [-> ->].
           destruct pre as [| z [| ? ?]]; simpl in Ha; simplify_eq.
           right; right. split_and!; try done.
        -- left. split; [| done]. simpl. rewrite ?Hrest.
           destruct pre as [| z pre]; simpl in Ha; simplify_eq. by exists pre.
      * intros d. by rewrite app_nil_r.
  - run_driver_step. exists [ReleaseBuffer item].
    split_and!; [by repeat constructor | done | done | done | done
                | by intros (? & ? & ?) | | done].
    intros b d [[Ha ?] | [(? & ? & ? & Hlast) | (_ & _ & Hrel & _)]].
    + by left.
    + simplify_eq. right; right. split_and!; try done. intros _.
      rewrite executed_snoc_other by done.
      rewrite released_app. simpl. by rewrite last_snoc.
    + by destruct (Hrel item buffers).
  - run_driver_step. exists [DriverTerminate].
    split_and!; [by repeat constructor | done | done | done | done
                | by intros (? & ? & ?) | |].
    + intros b d [[_ ?] | [(? & _) | (? & ? & ? & Hdone)]]; [done | done |].
      right; right. split_and!; try done. intros Hb.
      rewrite executed_snoc_other, released_snoc_other by done.
    by apply Hdone.
    + intros d Hd. split; [done |]. destruct (Hd eq_refl) as [d' ->].
      exists d'. by rewrite <- app_assoc.
Qed.

(** *** With threads *)

Lemma callerCalls_app tr tr' :
  callerCalls (tr ++ tr') = callerCalls tr ++ callerCalls tr'.
Proof. apply filter_app. Qed.

Lemma callerCalls_driver tr : Forall is_driver tr → callerCalls tr = [].
Proof.
  induction 1 as [| ev tr Hev _ IH]; [done |].
  unfold callerCalls in *. rewrite filter_cons. by case_decide.
Qed.

Lemma callerCalls_cleanup tr : Forall is_cleanup tr → callerCalls tr = tr.
Proof.
  induction 1 as [| ev tr Hev _ IH]; [done |].
  unfold callerCalls in *. rewrite filter_cons, IH.
  case_decide as Hd; [done |]. by destruct ev.
Qed.

Lemma trace_driver_view t q s e : trace (driver_view t q s e) = t.
Proof. by destruct e. Qed.
Lemma queue_driver_view t q s e : mCommandBufferQueue (driver_view t q s e) = q.
Proof. by destruct e. Qed.
Lemma thread_driver_view t q s e : mDriverThread (driver_view t q s e) = s.
Proof. by destruct e. Qed.
Lemma terminated_driver_view t q s e :
  mTerminated (driver_view t q s e) = mTerminated e.
Proof. by destruct e. Qed.

Section ShutdownThreads.

Variable NDEBUG : bool.
Variable commandBytes : Event → N.
Variable e0 : FEngine.

Local Abbreviation prog := (shutdown_statements commandBytes true NDEBUG).

Lemma shutdown_inv_driver th : (shutdown_inv NDEBUG commandBytes e0) th → (shutdown_inv NDEBUG commandBytes e0) (driver_turn th).
Proof.
  intros (k & tr & Htodo & Htr & Hpos).
  destruct (mDriverThread (shared th)) eqn:Hthread.
  1,3: unfold driver_turn; rewrite Hthread; by exists k, tr.
  destruct (driver_turn_spec th Hthread)
    as (evs & Hevs & Hview & Hcirc & Hexit & Htodo' & Hloop & Hreplayed
        & Hleaving).
  assert (Htr' : trace (shared (driver_turn th)) = trace e0 ++ tr ++ evs).
  { rewrite Hview, trace_driver_view, Htr. by rewrite <- app_assoc. }
  assert (Hterm : mTerminated (shared (driver_turn th)) = mTerminated (shared th)).
  { by rewrite Hview, terminated_driver_view. }
  assert (Hcalls : ∀ l, callerCalls (l ++ evs) = callerCalls l).
  { intros l. by rewrite callerCalls_app, (callerCalls_driver evs), app_nil_r. }
  rewrite <- Htodo' in Htodo.
  destruct Hpos as [th tr q Hv Hc He Hpc Hd
                   | th tr Hin Hcl Hb Ht
                   | th tr Hin Hcl Hb Ht
                   | th tr1 tr2 Hin Hcl Hd2 Hrep Ht
                   | th tr1 tr2 tr3 Hex Hcl Hd2 Hd3 Hrep Hlv Ht
                   | j th tr1 tr2 tr3 Hj Hret Hcl Hd2 Hd3 Hq Hdone Hend Ht].
  - exists 0%nat, (tr ++ evs). split_and!; [done | done |].
    assert (Hin : in_loop th).
    { unfold in_loop. by rewrite Hv, thread_driver_view, queue_driver_view. }
    destruct (Hloop Hin) as (Hrun' & Hpc' & Hexit').
    apply ((at_cleanup NDEBUG commandBytes e0) _ _ (mCommandBufferQueue (shared (driver_turn th)))).
    + rewrite Hview at 1. rewrite Hrun'.
      rewrite Htr, Hv, driver_view_driver_view. by rewrite <- app_assoc.
    + rewrite Hcirc, Hv. by rewrite queue_driver_view.
    + done.
    + done.
    + by apply Forall_app.
  - exists 1%nat, (tr ++ evs). split_and!; [done | done |].
    apply (at_purge NDEBUG commandBytes e0); [by apply Hloop | by rewrite Hcalls | by rewrite Hcirc
                    | by rewrite Hterm].
  - exists 2%nat, (tr ++ evs). split_and!; [done | done |].
    apply (at_flush NDEBUG commandBytes e0); [by apply Hloop | by rewrite Hcalls | by rewrite Hcirc
                    | by rewrite Hterm].
  - exists 3%nat, (tr1 ++ QueueFlush (flushedBuffer NDEBUG commandBytes e0) :: (tr2 ++ evs)).
    split_and!; [done | by rewrite Htr', <- !app_assoc |].
    apply (at_requestExit NDEBUG commandBytes e0); [by apply Hloop | done | by apply Forall_app
                          | by apply Hreplayed | by rewrite Hterm].
  - exists 4%nat,
      (tr1 ++ QueueFlush (flushedBuffer NDEBUG commandBytes e0) :: tr2 ++ QueueRequestExit :: (tr3 ++ evs)).
    split_and!; [done | |].
    { rewrite Htr', <- !app_assoc. simpl. by rewrite <- !app_assoc. }
    apply (at_join NDEBUG commandBytes e0); [by rewrite Hexit | done | done | by apply Forall_app
                   | | by apply Hleaving | by rewrite Hterm].
    rewrite app_assoc. by apply Hreplayed.
  - by rewrite Hret in Hthread.
Qed.

Lemma client_turn_lift th (m : M unit) rest :
  clientTodo th = lift m :: rest →
  client_turn th = mkThreads (exec m (shared th)) (driverPc th) rest.
Proof.
  intros Htodo. unfold client_turn. rewrite Htodo. unfold lift, exec.
  by destruct (m (shared th)).
Qed.

Lemma cleanupCalls_cleanup : Forall is_cleanup (cleanupCalls NDEBUG e0).
Proof.
  destruct (shutdown_cleanup_sweeps NDEBUG) as [Hclean _].
  destruct (Hclean e0) as (evs & _ & Htr & Hevs & _).
  unfold cleanupCalls, exec. by rewrite Htr, drop_app_length.
Qed.

(** The cleanup makes the same calls whatever the driver thread has done
    meanwhile, and their commands are added to the circular buffer. *)
Lemma recording_cleanup :
  ∃ l, ∀ t q s,
    recording commandBytes (shutdown_cleanup NDEBUG) (driver_view t q s e0)
    = (tt, set_lists l
             (driver_view (t ++ (cleanupCalls NDEBUG e0))
                (mkQueue
                   (mkSlice (begin (mCircularBuffer q))
                      (sliceSize (mCircularBuffer q)
                       + serialised commandBytes (cleanupCalls NDEBUG e0)))
                   (mCommandBuffersToExecute q) (mExitRequested q))
                s e0)).
Proof.
  destruct (uniform_shutdown_cleanup NDEBUG e0) as ([] & l & evs & Hm).
  assert (Hevs : (cleanupCalls NDEBUG e0) = evs).
  { unfold cleanupCalls, exec.
    rewrite <- (driver_view_id e0) at 2. rewrite Hm. cbn [snd].
    rewrite trace_set_lists, trace_driver_view. by rewrite drop_app_length. }
  exists l. intros t q s. unfold recording. rewrite Hm, Hevs.
  rewrite trace_set_lists, !trace_driver_view, drop_app_length. unfold exec.
  f_equal. by destruct e0.
Qed.

Lemma prog_eq :
  prog = [ lift (recording commandBytes (shutdown_cleanup NDEBUG));
           lift (emit DriverPurge); lift queue_flush; lift requestExit;
           thread_join; lift (emit JobSystemEmancipate); lift mark_terminated ].
Proof. done. Qed.

Lemma shutdown_inv_client th : (shutdown_inv NDEBUG commandBytes e0) th → (shutdown_inv NDEBUG commandBytes e0) (client_turn th).
Proof.
  intros (k & tr & Htodo & Htr & Hpos). rewrite prog_eq in Htodo.
  destruct Hpos as [th tr q Hv Hc He Hpc Hd
                   | th tr Hin Hcl Hb Ht
                   | th tr Hin Hcl Hb Ht
                   | th tr1 tr2 Hin Hcl Hd2 Hrep Ht
                   | th tr1 tr2 tr3 Hex Hcl Hd2 Hd3 Hrep Hlv Ht
                   | j th tr1 tr2 tr3 Hj Hret Hcl Hd2 Hd3 Hq Hdone Hend Ht].
  - destruct recording_cleanup as [l Hm].
    rewrite (client_turn_lift th _ _ Htodo). unfold exec. rewrite Hv, Hm.
    cbn [snd]. exists 1%nat, (tr ++ (cleanupCalls NDEBUG e0)).
    split_and!; [done | | ].
    { cbn [shared]. rewrite trace_set_lists, trace_driver_view.
      by rewrite app_assoc. }
    apply (at_purge NDEBUG commandBytes e0).
    + unfold in_loop. cbn [shared driverPc]. by destruct e0.
    + rewrite callerCalls_app, (callerCalls_driver tr) by done.
      by rewrite callerCalls_cleanup by apply cleanupCalls_cleanup.
    + cbn [shared]. unfold flushedBuffer. rewrite <- Hc. by destruct e0.
    + cbn [shared]. by destruct e0.
  - rewrite (client_turn_lift th _ _ Htodo).
    exists 2%nat, (tr ++ [DriverPurge]).
    destruct Hin as (Hrun & Hpc & Hexit).
    destruct th as [e pc c]. cbn [shared driverPc clientTodo] in *.
    destruct e as [? ? ? ? ? thread [circ pend exit]
                     ? ? ? ? ? ? ? ? ? ? ? ? ? ? tr0].
    unfold exec, requestExit, queue_flush, emit, mark_terminated.
    simpl in *. subst.
    split_and!; [done | by rewrite app_assoc |].
    apply (at_flush NDEBUG commandBytes e0); [done | | done | done].
    rewrite callerCalls_app, Hcl. done.
  - rewrite (client_turn_lift th _ _ Htodo).
    exists 3%nat, (tr ++ QueueFlush (flushedBuffer NDEBUG commandBytes e0) :: []).
    destruct Hin as (Hrun & Hpc & Hexit).
    destruct th as [e pc c]. cbn [shared driverPc clientTodo] in *.
    destruct e as [? ? ? ? ? thread [circ pend exit]
                     ? ? ? ? ? ? ? ? ? ? ? ? ? ? tr0].
    unfold exec, requestExit, queue_flush, emit, mark_terminated.
    simpl in *. subst.
    split_and!; [done | by rewrite app_assoc |].
    apply (at_requestExit NDEBUG commandBytes e0); [done | done | done | | done].
    left. simpl. split; [| done]. exists (taken pc ++ pend).
    by rewrite app_assoc.
  - rewrite (client_turn_lift th _ _ Htodo).
    exists 4%nat,
      (tr1 ++ QueueFlush (flushedBuffer NDEBUG commandBytes e0) :: tr2 ++ QueueRequestExit :: []).
    destruct Hin as (Hrun & Hpc & Hexit).
    destruct th as [e pc c]. cbn [shared driverPc clientTodo] in *.
    destruct e as [? ? ? ? ? thread [circ pend exit]
                     ? ? ? ? ? ? ? ? ? ? ? ? ? ? tr0].
    unfold exec, requestExit, queue_flush, emit, mark_terminated.
    simpl in *. subst.
    split_and!; [done | |].
    { by repeat (rewrite <- app_assoc; simpl). }
    apply (at_join NDEBUG commandBytes e0); [done | done | done | done | | | done].
    + by rewrite app_nil_r.
    + unfold leaving. simpl. by intros ?.
  - unfold leaving in Hlv.
    destruct (mDriverThread (shared th)) eqn:Hthread; [done | |].
    { replace (client_turn th) with th.
      2:{ unfold client_turn. rewrite Htodo. cbn [drop]. unfold thread_join.
          by rewrite Hthread. }
      exists 4%nat,
        (tr1 ++ QueueFlush (flushedBuffer NDEBUG commandBytes e0) :: tr2 ++ QueueRequestExit :: tr3).
      split_and!; [by rewrite prog_eq | done |].
      apply (at_join NDEBUG commandBytes e0); try done. unfold leaving. by rewrite Hthread. }
    unfold client_turn. rewrite Htodo. cbn [drop]. unfold thread_join.
    rewrite Hthread.
    destruct Hlv as [Hpc Hend].
    assert (Hq : mCommandBuffersToExecute (mCommandBufferQueue (shared th)) = []
                 ∧ (begin (flushedBuffer NDEBUG commandBytes e0) ≠ nullptr →
                    last (executed (tr2 ++ tr3)) = Some (begin (flushedBuffer NDEBUG commandBytes e0))
                    ∧ last (released (tr2 ++ tr3)) = Some (flushedBuffer NDEBUG commandBytes e0))).
    { destruct Hrep as [[_ Hne] | [(Hrel & _) | (_ & ? & _ & ?)]];
        [done | by rewrite Hpc in Hrel | done]. }
    destruct Hq as [Hq Hdone].
    exists 5%nat,
      (tr1 ++ QueueFlush (flushedBuffer NDEBUG commandBytes e0) :: tr2 ++ QueueRequestExit :: tr3
       ++ take 1 [ThreadJoin; JobSystemEmancipate; MarkTerminated]).
    unfold lift, emit. cbn [shared driverPc clientTodo].
    destruct th as [e pc c]. cbn [shared driverPc clientTodo] in *.
    destruct e as [? ? ? ? ? thread [circ pend exit]
                     ? ? ? ? ? ? ? ? ? ? ? ? ? ? tr0].
    unfold exec, requestExit, queue_flush, emit, mark_terminated.
    simpl in *. subst.
    split_and!; [done | |].
    { by repeat (rewrite <- app_assoc; simpl). }
    by apply ((at_end NDEBUG commandBytes e0) 0); [lia | ..].
  - destruct j as [| [| [|]]]; [| | | lia].
    + rewrite (client_turn_lift th _ _ Htodo).
      exists 6%nat,
        (tr1 ++ QueueFlush (flushedBuffer NDEBUG commandBytes e0) :: tr2 ++ QueueRequestExit :: tr3
         ++ take 2 [ThreadJoin; JobSystemEmancipate; MarkTerminated]).
      destruct th as [e pc c]. cbn [shared driverPc clientTodo] in *.
      destruct e as [? ? ? ? ? thread [circ pend exit]
                       ? ? ? ? ? ? ? ? ? ? ? ? ? ? tr0].
      unfold exec, requestExit, queue_flush, emit, mark_terminated.
      simpl in *. subst.
      split_and!; [done | |].
      { by repeat (rewrite <- app_assoc; simpl). }
      by apply ((at_end NDEBUG commandBytes e0) 1); [lia | ..].
    + rewrite (client_turn_lift th _ _ Htodo).
      exists 7%nat,
        (tr1 ++ QueueFlush (flushedBuffer NDEBUG commandBytes e0) :: tr2 ++ QueueRequestExit :: tr3
         ++ take 3 [ThreadJoin; JobSystemEmancipate; MarkTerminated]).
      destruct th as [e pc c]. cbn [shared driverPc clientTodo] in *.
      destruct e as [? ? ? ? ? thread [circ pend exit]
                       ? ? ? ? ? ? ? ? ? ? ? ? ? ? tr0].
      unfold exec, requestExit, queue_flush, emit, mark_terminated.
      simpl in *. subst.
      split_and!; [done | |].
      { by repeat (rewrite <- app_assoc; simpl). }
      by apply ((at_end NDEBUG commandBytes e0) 2); [lia | ..].
    + unfold client_turn. rewrite Htodo. simpl.
      exists 7%nat,
        (tr1 ++ QueueFlush (flushedBuffer NDEBUG commandBytes e0) :: tr2 ++ QueueRequestExit :: tr3
         ++ take 3 [ThreadJoin; JobSystemEmancipate; MarkTerminated]).
      split_and!; [by rewrite prog_eq | done |].
      by apply ((at_end NDEBUG commandBytes e0) 2).
Qed.

Lemma shutdown_inv_run schedule : ∀ th,
  (shutdown_inv NDEBUG commandBytes e0) th → (shutdown_inv NDEBUG commandBytes e0) (run schedule th).
Proof.
  induction schedule as [| t schedule IH]; intros th Hinv; [done |].
  simpl. apply IH. destruct t; simpl.
  - by apply shutdown_inv_client.
  - by apply shutdown_inv_driver.
Qed.

Lemma shutdown_inv_start pc0 :
  mDriverThread e0 = ThreadRunning →
  mExitRequested (mCommandBufferQueue e0) = false →
  pc0 ≠ AfterLoop →
  (shutdown_inv NDEBUG commandBytes e0) (mkThreads e0 pc0 prog).
Proof.
  intros Hrun Hexit Hpc. exists 0%nat, []. split_and!; [done | |].
  { by rewrite app_nil_r. }
  apply ((at_cleanup NDEBUG commandBytes e0) _ _ (mCommandBufferQueue e0)); try done.
  cbn [shared]. rewrite app_nil_r, <- Hrun. by rewrite driver_view_id.
Qed.

(** What [shutdown] has done when it returns. *)
Lemma shutdown_inv_returned th :
  (shutdown_inv NDEBUG commandBytes e0) th → clientTodo th = [] →
  mTerminated (shared th) = true
  ∧ mCommandBuffersToExecute (mCommandBufferQueue (shared th)) = []
  ∧ mDriverThread (shared th) = ThreadReturned
  ∧ ∃ tr1 tr2 tr3,
      trace (shared th)
      = trace e0 ++ tr1 ++ QueueFlush (flushedBuffer NDEBUG commandBytes e0) :: tr2
        ++ QueueRequestExit :: tr3
        ++ [ThreadJoin; JobSystemEmancipate; MarkTerminated]
      ∧ callerCalls tr1 = (cleanupCalls NDEBUG e0) ++ [DriverPurge]
      ∧ Forall is_driver tr2 ∧ Forall is_driver tr3
      ∧ (begin (flushedBuffer NDEBUG commandBytes e0) ≠ nullptr →
         last (executed (tr2 ++ tr3)) = Some (begin (flushedBuffer NDEBUG commandBytes e0))
         ∧ last (released (tr2 ++ tr3)) = Some (flushedBuffer NDEBUG commandBytes e0))
      ∧ ∃ d, tr3 = d ++ [WaitForCommands []; DriverTerminate].
Proof.
  intros (k & tr & Htodo & Htr & Hpos) Hnil.
  rewrite Hnil, prog_eq in Htodo.
  destruct Hpos as [th tr q Hv Hc He Hpc Hd
                   | th tr Hin Hcl Hb Ht
                   | th tr Hin Hcl Hb Ht
                   | th tr1 tr2 Hin Hcl Hd2 Hrep Ht
                   | th tr1 tr2 tr3 Hex Hcl Hd2 Hd3 Hrep Hlv Ht
                   | j th tr1 tr2 tr3 Hj Hret Hcl Hd2 Hd3 Hq Hdone Hend Ht];
    try done.
  destruct j as [| [| [|]]]; [done | done | | lia].
  split_and!; [done | done | done |]. exists tr1, tr2, tr3. by split_and!.
Qed.

(** Until its last statement, [shutdown] leaves [mTerminated] alone. *)
Lemma shutdown_inv_not_returned th :
  (shutdown_inv NDEBUG commandBytes e0) th → clientTodo th ≠ [] →
  mTerminated (shared th) = mTerminated e0.
Proof.
  intros (k & tr & Htodo & Htr & Hpos) Hnil.
  rewrite prog_eq in Htodo.
  destruct Hpos as [th tr q Hv Hc He Hpc Hd
                   | th tr Hin Hcl Hb Ht
                   | th tr Hin Hcl Hb Ht
                   | th tr1 tr2 Hin Hcl Hd2 Hrep Ht
                   | th tr1 tr2 tr3 Hex Hcl Hd2 Hd3 Hrep Hlv Ht
                   | j th tr1 tr2 tr3 Hj Hret Hcl Hd2 Hd3 Hq Hdone Hend Ht];
    try done.
  - by rewrite Hv, terminated_driver_view.
  - destruct j as [| [| [|]]]; [done | done | done | lia].
Qed.

(** The client thread gets through its next statement, if need be after
    turns of the driver thread. *)
Lemma shutdown_inv_progress th :
  (shutdown_inv NDEBUG commandBytes e0) th → clientTodo th ≠ [] →
  ∃ more, (length (clientTodo (run more th)) < length (clientTodo th))%nat.
Proof.
  intros (k & tr & Htodo & Htr & Hpos) Hnil.
  rewrite prog_eq in Htodo.
  assert (Hlift : ∀ (m : M unit) rest, clientTodo th = lift m :: rest →
    ∃ more, (length (clientTodo (run more th)) < length (clientTodo th))%nat).
  { intros m rest Hm. exists [ClientTurn]. simpl.
    rewrite (client_turn_lift th m rest Hm), Hm. simpl. lia. }
  destruct Hpos as [th tr q Hv Hc He Hpc Hd
                   | th tr Hin Hcl Hb Ht
                   | th tr Hin Hcl Hb Ht
                   | th tr1 tr2 Hin Hcl Hd2 Hrep Ht
                   | th tr1 tr2 tr3 Hex Hcl Hd2 Hd3 Hrep Hlv Ht
                   | j th tr1 tr2 tr3 Hj Hret Hcl Hd2 Hd3 Hq Hdone Hend Ht];
    try (by eapply Hlift).
  - assert (Hjoin : ∀ th', clientTodo th' = clientTodo th →
              mDriverThread (shared th') = ThreadReturned →
              (length (clientTodo (client_turn th')) < length (clientTodo th))%nat).
    { intros th' Htodo' Hret. unfold client_turn. rewrite Htodo', Htodo.
      cbn [drop]. unfold thread_join. rewrite Hret. simpl. lia. }
    unfold leaving in Hlv.
    destruct (mDriverThread (shared th)) eqn:Hthread; [done | |].
    + destruct (alone_drains th Hthread) as (th' & [n <-] & Htodo' & _ & _ & Hret).
      { by intros _. }
      rewrite Hex in Hret.
      exists (replicate n DriverTurn ++ [ClientTurn]).
      rewrite run_app. simpl. by apply Hjoin.
    + exists [ClientTurn]. simpl. by apply Hjoin.
  - destruct j as [| [| [|]]]; simpl in Htodo;
      [by eapply Hlift | by eapply Hlift | | lia].
    by rewrite Htodo in Hnil.
Qed.

Lemma shutdown_inv_finishes th :
  (shutdown_inv NDEBUG commandBytes e0) th → ∃ more, clientTodo (run more th) = [].
Proof.
  intros Hinv.
  assert (Hn : ∀ n th', (shutdown_inv NDEBUG commandBytes e0) th' →
            (length (clientTodo th') ≤ n)%nat →
            ∃ more, clientTodo (run more th') = []).
  { induction n as [| n IH]; intros th' Hinv' Hlen.
    - exists []. simpl. apply nil_length_inv. lia.
    - destruct (decide (clientTodo th' = [])) as [Hnil | Hnil].
      { by exists []. }
      destruct (shutdown_inv_progress th' Hinv' Hnil) as [more Hless].
      destruct (IH (run more th')) as [more' Hdone].
      { by apply shutdown_inv_run. }
      { lia. }
      exists (more ++ more'). by rewrite run_app. }
  by apply (Hn (length (clientTodo th)) th).
Qed.

End ShutdownThreads.

(** *** Without threads *)

Lemma seq_run_app l1 l2 e :
  seq_run (l1 ++ l2) e
  = match seq_run l1 e with Some e' => seq_run l2 e' | None => None end.
Proof.
  revert e. induction l1 as [| s l1 IH]; intros e; [done |].
  simpl. by destruct (s e) as [[[] e'] |].
Qed.

(** Where no driver thread runs, the turns of the client thread are a
    sequential run of its statements, and the turns given to the driver
    thread change nothing. *)
Lemma run_without_driver program e0 schedule : ∀ th k,
  (∀ k e, seq_run (take k program) e0 = Some e →
          mDriverThread e ≠ ThreadRunning) →
  clientTodo th = drop k program →
  seq_run (take k program) e0 = Some (shared th) →
  ∃ k', clientTodo (run schedule th) = drop k' program
        ∧ seq_run (take k' program) e0 = Some (shared (run schedule th)).
Proof.
  induction schedule as [| t schedule IH]; intros th k Hidle Htodo Hseq.
  { by exists k. }
  simpl. destruct t; simpl.
  - destruct (clientTodo th) as [| s rest] eqn:Hc.
    { replace (client_turn th) with th
        by (unfold client_turn; by rewrite Hc).
      apply (IH _ k); [done | by rewrite Hc | done]. }
    destruct (s (shared th)) as [[[] e'] |] eqn:Hs.
    2:{ replace (client_turn th) with th
          by (unfold client_turn; by rewrite Hc, Hs).
        apply (IH _ k); [done | by rewrite Hc | done]. }
    replace (client_turn th) with (mkThreads e' (driverPc th) rest)
      by (unfold client_turn; by rewrite Hc, Hs).
    assert (Hk : program !! k = Some s ∧ drop (S k) program = rest).
    { assert (Hd : drop k program = s :: rest) by done.
      split.
      - rewrite <- (take_drop k program) at 1.
        assert (Hlen : (k < length program)%nat).
        { destruct (decide (k < length program)%nat); [done |].
          rewrite drop_ge in Hd by lia. done. }
        rewrite lookup_app_r by (rewrite length_take; lia).
        rewrite length_take, Hd.
        by replace (k - k `min` length program)%nat with 0%nat by lia.
      - replace (S k) with (k + 1)%nat by lia.
        by rewrite <- drop_drop, Hd. }
    destruct Hk as [Hk Hrest].
    apply (IH _ (S k)); [done | by simpl |]. cbn [shared].
    rewrite (take_S_r _ _ _ Hk), seq_run_app, Hseq. simpl. by rewrite Hs.
  - destruct (mDriverThread (shared th)) eqn:Hthread.
    2:{ by destruct (Hidle k (shared th) Hseq). }
    all: replace (driver_turn th) with th
           by (unfold driver_turn; by rewrite Hthread).
    all: by apply (IH _ k).
Qed.

(** The client thread alone runs all its statements if none suspends
    it. *)
Lemma client_runs todo : ∀ e pc e',
  seq_run todo e = Some e' →
  run (replicate (length todo) ClientTurn) (mkThreads e pc todo)
  = mkThreads e' pc [].
Proof.
  induction todo as [| s todo IH]; intros e pc e' Hseq; simpl in Hseq.
  { by simplify_eq. }
  destruct (s e) as [[[] e1] |] eqn:Hs; [| done].
  rewrite <- (IH e1 pc e' Hseq). simpl. f_equal.
  unfold client_turn. simpl. by rewrite Hs.
Qed.

Section ShutdownWithoutThreads.

Variable NDEBUG : bool.
Variable commandBytes : Event → N.
Variable e0 : FEngine.

Local Abbreviation program := (shutdown_statements commandBytes false NDEBUG).
Local Abbreviation calls := (cleanupCalls NDEBUG e0).
Local Abbreviation b := (flushedBuffer NDEBUG commandBytes e0).

Lemma unthreaded_fields l t q :
  trace ((unthreaded e0) l t q) = trace e0 ++ t
  ∧ mCommandBufferQueue ((unthreaded e0) l t q) = q
  ∧ mDriverThread ((unthreaded e0) l t q) = ThreadNotStarted
  ∧ mTerminated ((unthreaded e0) l t q) = mTerminated e0.
Proof. unfold unthreaded. by destruct e0. Qed.

Lemma unthreaded_terminated_fields l t q :
  trace (set_mTerminated true ((unthreaded e0) l t q)) = trace e0 ++ t
  ∧ mCommandBufferQueue (set_mTerminated true ((unthreaded e0) l t q)) = q
  ∧ mDriverThread (set_mTerminated true ((unthreaded e0) l t q)) = ThreadNotStarted
  ∧ mTerminated (set_mTerminated true ((unthreaded e0) l t q)) = true.
Proof. unfold unthreaded. by destruct e0. Qed.

Lemma unthreaded_emit ev l t q :
  lift (emit ev) ((unthreaded e0) l t q) = Some (tt, (unthreaded e0) l (t ++ [ev]) q).
Proof.
  unfold lift, emit, unthreaded. destruct e0. simpl. by rewrite <- app_assoc.
Qed.

Lemma unthreaded_flush l t q :
  lift queue_flush ((unthreaded e0) l t q)
  = Some (tt, (unthreaded e0) l (t ++ [QueueFlush (mCircularBuffer q)])
                (Queue.flush q)).
Proof.
  unfold lift, queue_flush, unthreaded. destruct e0. simpl.
  by rewrite <- app_assoc.
Qed.

Lemma unthreaded_execute l t q :
  mCommandBuffersToExecute q ≠ [] →
  (execute false ;; mret tt) ((unthreaded e0) l t q)
  = Some (tt, (unthreaded e0) l
                (t ++ WaitForCommands (mCommandBuffersToExecute q)
                 :: replay (mCommandBuffersToExecute q))
                (mkQueue (mCircularBuffer q) [] (mExitRequested q))).
Proof.
  intros Hq. unfold mbind, B_bind.
  rewrite execute_buffers by (unfold unthreaded; by destruct e0).
  unfold mret, B_ret, unthreaded. destruct e0. simpl.
  by rewrite <- app_assoc.
Qed.

Lemma unthreaded_requestExit l t q :
  lift requestExit ((unthreaded e0) l t q)
  = Some (tt, (unthreaded e0) l (t ++ [QueueRequestExit]) (Queue.requestExit q)).
Proof.
  unfold lift, requestExit, unthreaded. destruct e0. simpl.
  by rewrite <- app_assoc.
Qed.

Lemma unthreaded_mark l t q :
  lift mark_terminated ((unthreaded e0) l t q)
  = Some (tt, set_mTerminated true ((unthreaded e0) l (t ++ [MarkTerminated]) q)).
Proof.
  unfold lift, mark_terminated, unthreaded. destruct e0. simpl.
  by rewrite <- app_assoc.
Qed.

Lemma unthreaded_cleanup :
  mDriverThread e0 = ThreadNotStarted →
  ∃ l, lift (recording commandBytes (shutdown_cleanup NDEBUG)) e0
       = Some (tt, (unthreaded e0) l calls
                     (mkQueue b (mCommandBuffersToExecute (mCommandBufferQueue e0))
                        (mExitRequested (mCommandBufferQueue e0)))).
Proof.
  intros Hthread. destruct (recording_cleanup NDEBUG commandBytes e0) as [l Hm].
  exists l. unfold lift. rewrite <- (driver_view_id e0) at 1.
  by rewrite Hm, Hthread.
Qed.

(** The engine after the first [k] statements of [shutdown]. *)
Lemma unthreaded_prefix k :
  mDriverThread e0 = ThreadNotStarted →
  let pending := mCommandBuffersToExecute (mCommandBufferQueue e0) ++ [b] in
  ∃ l t q,
    seq_run (take k program) e0
    = Some (if bool_decide (k < 7)%nat then (unthreaded e0) l t q
            else set_mTerminated true ((unthreaded e0) l t q))
    ∧ ((7 ≤ k)%nat →
       t = calls ++ [DriverPurge; QueueFlush b]
           ++ WaitForCommands pending :: replay pending
           ++ [QueueRequestExit; JobSystemEmancipate; MarkTerminated]
       ∧ mCommandBuffersToExecute q = []).
Proof.
  intros Hthread pending.
  destruct (unthreaded_cleanup Hthread) as [l Hcleanup].
  assert (Hstart : e0 = (unthreaded e0) (lists e0) [] (mCommandBufferQueue e0)).
  { unfold unthreaded. rewrite app_nil_r, <- Hthread.
    by rewrite driver_view_id, set_lists_id. }
  destruct k as [| [| [| [| [| [| [| k]]]]]]].
  all: cbn [take shutdown_statements negb app seq_run].
  { exists (lists e0), [], (mCommandBufferQueue e0).
    split; [by rewrite <- Hstart | lia]. }
  all: rewrite Hcleanup; cbn [take seq_run].
  { eexists _, _, _. split; [done | lia]. }
  all: rewrite unthreaded_emit; cbn [take seq_run].
  { eexists _, _, _. split; [done | lia]. }
  all: rewrite unthreaded_flush; cbn [take seq_run].
  { eexists _, _, _. split; [done | lia]. }
  all: rewrite unthreaded_execute by (simpl; by destruct
         (mCommandBuffersToExecute (mCommandBufferQueue e0))).
  all: cbn [take seq_run].
  { eexists _, _, _. split; [done | lia]. }
  all: rewrite unthreaded_requestExit; cbn [take seq_run].
  { eexists _, _, _. split; [done | lia]. }
  all: rewrite unthreaded_emit; cbn [take seq_run].
  { eexists _, _, _. split; [done | lia]. }
  rewrite unthreaded_mark. rewrite take_nil. cbn [seq_run].
  eexists _, _, _. rewrite bool_decide_eq_false_2 by lia.
  split; [done |]. intros _. split; [| done].
  by repeat (rewrite <- app_assoc; simpl).
Qed.

End ShutdownWithoutThreads.

(** *** [shutdown] as one of the runs *)

Lemma serialised_zero calls : serialised (λ _, 0%N) calls = 0%N.
Proof. induction calls as [| ev calls IH]; [done |]. simpl. by rewrite IH. Qed.

Lemma client_write_zero e : client_write 0 e = (tt, e).
Proof.
  unfold client_write. destruct e as [? ? ? ? ? ? [[? ?] ? ?]]. simpl.
  by rewrite N.add_0_r.
Qed.

(** Calls that serialise nothing leave the operation as it is. *)
Lemma recording_zero {A} (m : M A) e : recording (λ _, 0%N) m e = m e.
Proof.
  unfold recording. destruct (m e) as [a e']. unfold exec.
  by rewrite serialised_zero, client_write_zero.
Qed.

Lemma client_runs_prefix l1 l2 : ∀ e pc e1,
  seq_run l1 e = Some e1 →
  run (replicate (length l1) ClientTurn) (mkThreads e pc (l1 ++ l2))
  = mkThreads e1 pc l2.
Proof.
  induction l1 as [| s l1 IH]; intros e pc e1 Hseq; simpl in Hseq.
  { by simplify_eq. }
  destruct (s e) as [[[] e'] |] eqn:Hs; [| done].
  rewrite <- (IH e' pc e1 Hseq). simpl. f_equal.
  unfold client_turn. simpl. by rewrite Hs.
Qed.

(** [shutdown], which lets the driver thread run when the caller waits
    for it in [join], is one of the interleaved runs of the statements of
    [shutdown_statements], for calls that serialise no commands. *)
Lemma shutdown_is_a_run (UTILS_HAS_THREADING NDEBUG : bool) e0 e' :
  (UTILS_HAS_THREADING = true → mDriverThread e0 = ThreadRunning) →
  shutdown UTILS_HAS_THREADING NDEBUG e0 = Some (tt, e') →
  ∃ schedule pc,
    run schedule
      (mkThreads e0 AtLoopHead
         (shutdown_statements (λ _, 0%N) UTILS_HAS_THREADING NDEBUG))
    = mkThreads e' pc [].
Proof.
  intros Hthread Hrun. unfold shutdown in Hrun.
  unfold mbind at 1, B_bind at 1, lift at 1 in Hrun.
  destruct (shutdown_cleanup NDEBUG e0) as [[] e1] eqn:Hc.
  unfold mbind at 1, B_bind at 1, lift at 1 in Hrun.
  unfold flushCommandBuffer in Hrun.
  unfold mbind at 1, M_bind at 1 in Hrun.
  destruct UTILS_HAS_THREADING; cbn [negb] in Hrun.
  - unfold mbind, B_bind, mret, B_ret, lift in Hrun.
    destruct (emit DriverPurge e1) as [[] e2] eqn:H2.
    destruct (queue_flush e2) as [[] e3] eqn:H3.
    destruct (requestExit e3) as [[] e4] eqn:H4.
    assert (Hrun4 : mDriverThread e4 = ThreadRunning).
    { destruct (shutdown_cleanup_sweeps NDEBUG) as [Hclean _].
      destruct (Hclean e0) as (evs & Hsame & _). rewrite Hc in Hsame.
      apply same_but_lists_trace_thread in Hsame. rewrite Hthread in Hsame by done.
      unfold emit, queue_flush, requestExit in *. simplify_eq.
      by destruct e1. }
    assert (Hexit4 : mExitRequested (mCommandBufferQueue e4) = true).
    { unfold requestExit in H4. simplify_eq. by destruct e3. }
    unfold join in Hrun. rewrite Hrun4 in Hrun.
    destruct (alone_loop e4
                [thread_join; lift (emit JobSystemEmancipate);
                 lift mark_terminated] 0 Hrun4 Hexit4)
      as (e5 & Hloop & [k Hk] & Hret5).
    unfold mbind, B_bind, lift in Hloop, Hrun. cbn [Nat.add] in Hloop.
    destruct (loop_while true 2 e4) as [[[] ea] |]; [| done].
    destruct (loop_end ea) as [[] eb]. simplify_eq.
    destruct (emit ThreadJoin e5) as [[] e6] eqn:H6.
    destruct (emit JobSystemEmancipate e6) as [[] e7] eqn:H7.
    destruct (mark_terminated e7) as [[] e8] eqn:H8. simplify_eq.
    exists (replicate 4 ClientTurn ++ replicate k DriverTurn
            ++ replicate 3 ClientTurn), AfterLoop.
    rewrite !run_app.
    replace (run (replicate 4 ClientTurn)
               (mkThreads e0 AtLoopHead (shutdown_statements (λ _, 0%N) true NDEBUG)))
      with (mkThreads e4 AtLoopHead
              [thread_join; lift (emit JobSystemEmancipate);
               lift mark_terminated]).
    2:{ symmetry.
        apply (client_runs_prefix
                 [lift (recording (λ _, 0%N) (shutdown_cleanup NDEBUG));
                  lift (emit DriverPurge); lift queue_flush; lift requestExit]
                 [thread_join; lift (emit JobSystemEmancipate);
                  lift mark_terminated] e0 AtLoopHead e4).
        cbn [seq_run]. unfold lift. by rewrite recording_zero, Hc, H2, H3, H4. }
    rewrite Hk.
    apply (client_runs [thread_join; lift (emit JobSystemEmancipate);
                        lift mark_terminated]).
    cbn [seq_run]. unfold thread_join, lift. by rewrite Hret5, H6, H7, H8.
  - exists (replicate 7 ClientTurn), AtLoopHead.
    apply (client_runs (shutdown_statements (λ _, 0%N) false NDEBUG)).
    cbn [shutdown_statements negb app seq_run]. unfold lift at 1.
    rewrite recording_zero, Hc. unfold lift at 1 2.
    unfold mbind, B_bind, mret, B_ret, lift in *.
    destruct (emit DriverPurge e1) as [[] e2].
    destruct (queue_flush e2) as [[] e3].
    destruct (execute false e3) as [[? e4] |]; [| done].
    destruct (requestExit e4) as [[] e5].
    destruct (emit JobSystemEmancipate e5) as [[] e6].
    destruct (mark_terminated e6) as [[] e7]. by simplify_eq.
Qed.

(** *** The order of shutdown *)

Lemma replay_is_driver buffers : Forall is_driver (replay buffers).
Proof.
  induction buffers as [| item buffers IH]; [constructor |].
  rewrite replay_cons. apply Forall_app. split; [| done].
  case_bool_decide; by repeat constructor.
Qed.

Lemma nonEmpty_singleton b : begin b ≠ nullptr → nonEmpty [b] = [b].
Proof.
  intros Hb. unfold nonEmpty. rewrite filter_cons, filter_nil.
  by case_decide.
Qed.

(** C6, amended: the client thread runs the statements of [shutdown]
    while the driver thread, if the build has threads, makes the calls of
    its loop, from wherever it stands; the two take turns in any order.
    The calls of the cleanup serialise their commands into the circular
    buffer.  The run that [shutdown] stands for, in which the driver
    thread takes its turns while the caller waits in [join], is one of
    them.  Whatever the order of the turns, the statements of [shutdown]
    can always run to their end, and when the last has returned: all the calls of the client
    thread before the flush are those of the cleanup, then the purge of
    the driver; the buffer flushed holds the commands of the cleanup; the
    exit is requested after the flush, and all that happens in between,
    and from then until the join, are calls of the driver thread or, in a
    build without threads, of the inline [execute]; the flushed buffer, if
    it has commands, is the last one replayed and the last one released,
    after the flush; no buffer is left pending.  With threads the driver
    thread then leaves its loop on an empty batch, terminates the driver
    and is joined; without threads nothing is joined, and the buffers are
    replayed between the flush and the request of the exit.  In both
    builds the calling thread is then detached from the job system and
    the engine is marked terminated, last, and not before. *)
Theorem shutdown_order (UTILS_HAS_THREADING NDEBUG : bool)
    (commandBytes : Event → N) (e0 : FEngine) (pc0 : DriverPc)
    (schedule : list Turn) :
  mDriverThread e0
  = (if UTILS_HAS_THREADING then ThreadRunning else ThreadNotStarted) →
  mExitRequested (mCommandBufferQueue e0) = false →
  pc0 ≠ AfterLoop →
  let b0 := mCircularBuffer (mCommandBufferQueue e0) in
  let pending0 := mCommandBuffersToExecute (mCommandBufferQueue e0) in
  let cleanup :=
    drop (length (trace e0)) (trace (exec (shutdown_cleanup NDEBUG) e0)) in
  let b := mkSlice (begin b0) (sliceSize b0 + serialised commandBytes cleanup) in
  let th := run schedule
              (mkThreads e0 pc0
                 (shutdown_statements commandBytes UTILS_HAS_THREADING NDEBUG)) in
  Forall is_cleanup cleanup
  ∧ (∀ e', shutdown UTILS_HAS_THREADING NDEBUG e0 = Some (tt, e') →
       ∃ schedule pc,
         run schedule
           (mkThreads e0 AtLoopHead
              (shutdown_statements (λ _, 0%N) UTILS_HAS_THREADING NDEBUG))
         = mkThreads e' pc [])
  ∧ (∃ more, clientTodo (run more th) = [])
  ∧ (clientTodo th ≠ [] → mTerminated (shared th) = mTerminated e0)
  ∧ (clientTodo th = [] →
     mTerminated (shared th) = true
     ∧ mCommandBuffersToExecute (mCommandBufferQueue (shared th)) = []
     ∧ ∃ tr1 tr2 tr3,
         trace (shared th)
         = trace e0 ++ tr1 ++ QueueFlush b :: tr2 ++ QueueRequestExit :: tr3
           ++ (if UTILS_HAS_THREADING then [ThreadJoin] else [])
           ++ [JobSystemEmancipate; MarkTerminated]
         ∧ filter (λ ev, ¬ is_driver ev) tr1 = cleanup ++ [DriverPurge]
         ∧ Forall is_driver tr2
         ∧ Forall is_driver tr3
         ∧ (begin b ≠ nullptr →
            last (executed (tr2 ++ tr3)) = Some (begin b)
            ∧ last (released (tr2 ++ tr3)) = Some b)
         ∧ if UTILS_HAS_THREADING then
             mDriverThread (shared th) = ThreadReturned
             ∧ ∃ d, tr3 = d ++ [WaitForCommands []; DriverTerminate]
           else
             tr1 = cleanup ++ [DriverPurge]
             ∧ tr2 = WaitForCommands (pending0 ++ [b])
                     :: ((pending0 ++ [b]) ≫= λ item,
                           if bool_decide (begin item ≠ nullptr)
                           then [StreamExecute (begin item); ReleaseBuffer item]
                           else [])
             ∧ tr3 = []).
Proof.
  intros Hthread Hexit Hpc b0 pending0 cleanup b th.
  change cleanup with (cleanupCalls NDEBUG e0) in *.
  change b with (flushedBuffer NDEBUG commandBytes e0) in *.
  split; [apply cleanupCalls_cleanup |].
  split.
  { intros e' Hrun. apply (shutdown_is_a_run _ NDEBUG e0 e'); [| done].
    intros ->. done. }
  destruct UTILS_HAS_THREADING.
  - assert (Hinv : shutdown_inv NDEBUG commandBytes e0 th).
    { apply shutdown_inv_run. by apply shutdown_inv_start. }
    split_and!.
    + by eapply shutdown_inv_finishes.
    + by eapply shutdown_inv_not_returned.
    + intros Hnil.
      destruct (shutdown_inv_returned NDEBUG commandBytes e0 th Hinv Hnil)
        as (Hterm & Hq & Hret & tr1 & tr2 & tr3 & Htr & Hcl & Hd2 & Hd3
            & Hdone & Hend).
      split_and!; [done | done |]. exists tr1, tr2, tr3. by split_and!.
  - assert (Hidle : ∀ k e,
      seq_run (take k (shutdown_statements commandBytes false NDEBUG)) e0 = Some e →
      mDriverThread e ≠ ThreadRunning).
    { intros k e Hk.
      destruct (unthreaded_prefix NDEBUG commandBytes e0 k Hthread)
        as (l & t & q & Hseq & _).
      rewrite Hk in Hseq. simplify_eq.
      destruct (unthreaded_fields e0 l t q) as (_ & _ & H1 & _).
      destruct (unthreaded_terminated_fields e0 l t q) as (_ & _ & H2 & _).
      case_bool_decide; by rewrite ?H1, ?H2. }
    destruct (run_without_driver _ e0 schedule
                (mkThreads e0 pc0 (shutdown_statements commandBytes false NDEBUG))
                0%nat Hidle eq_refl eq_refl) as (k & Htodo & Hseq).
    fold th in Htodo, Hseq.
    destruct (unthreaded_prefix NDEBUG commandBytes e0 k Hthread)
      as (l & t & q & Hk & Hlast).
    rewrite Hseq in Hk. injection Hk as Hshared.
    assert (Hlen : length (shutdown_statements commandBytes false NDEBUG) = 7%nat)
      by done.
    split_and!.
    + destruct (unthreaded_prefix NDEBUG commandBytes e0 7 Hthread)
        as (l7 & t7 & q7 & H7 & _).
      rewrite firstn_all2 in H7 by (rewrite Hlen; lia).
      rewrite <- (take_drop k (shutdown_statements commandBytes false NDEBUG)) in H7.
      rewrite seq_run_app, Hseq, <- Htodo in H7.
      exists (replicate (length (clientTodo th)) ClientTurn).
      destruct th as [e pc todo]. cbn [shared clientTodo] in *.
      by rewrite (client_runs todo e pc _ H7).
    + intros Hnil. rewrite Hshared. rewrite bool_decide_eq_true_2.
      { apply unthreaded_fields. }
      destruct (decide (k < 7)%nat); [done |].
      rewrite Htodo, drop_ge in Hnil by (rewrite Hlen; lia). done.
    + intros Hnil. rewrite Hnil in Htodo.
      assert (Hk : (7 ≤ k)%nat).
      { destruct (decide (7 ≤ k)%nat); [done |].
        assert (length (drop k (shutdown_statements commandBytes false NDEBUG)) = 0%nat)
          by by rewrite <- Htodo.
        rewrite length_drop, Hlen in *. lia. }
      destruct (Hlast Hk) as [-> Hq].
      rewrite Hshared, bool_decide_eq_false_2 by lia.
      destruct (unthreaded_terminated_fields e0 l
                  (cleanupCalls NDEBUG e0
                   ++ [DriverPurge; QueueFlush (flushedBuffer NDEBUG commandBytes e0)]
                   ++ WaitForCommands
                        (mCommandBuffersToExecute (mCommandBufferQueue e0)
                         ++ [flushedBuffer NDEBUG commandBytes e0])
                      :: replay
                           (mCommandBuffersToExecute (mCommandBufferQueue e0)
                            ++ [flushedBuffer NDEBUG commandBytes e0])
                      ++ [QueueRequestExit; JobSystemEmancipate; MarkTerminated])
                  q)
        as (Htr & Hqueue & _ & Hterm).
      split_and!; [done | by rewrite Hqueue |].
      eexists (cleanupCalls NDEBUG e0 ++ [DriverPurge]),
        (WaitForCommands _ :: replay _), [].
      split_and!.
      * rewrite Htr. by repeat (rewrite <- app_assoc; simpl).
      * change (filter _ ?l) with (callerCalls l).
        rewrite callerCalls_app.
        by rewrite callerCalls_cleanup by apply cleanupCalls_cleanup.
      * constructor; [done | apply replay_is_driver].
      * constructor.
      * intros Hb. rewrite app_nil_r. simpl.
        rewrite executed_replay, released_replay, !nonEmpty_app.
        rewrite nonEmpty_singleton by done.
        rewrite fmap_app. simpl. by rewrite !last_snoc.
      * done.
      * done.
      * done.
Qed.

Lemma shutdown_order_witness :
  let commandBytes := λ ev, match ev with Terminate _ _ => 16%N | _ => 0%N end in
  let e0 := exec (createTexture 6) runningEngine in
  let schedule :=
    [ClientTurn; ClientTurn; ClientTurn; DriverTurn; DriverTurn; DriverTurn;
     DriverTurn; DriverTurn; ClientTurn; ClientTurn; DriverTurn; DriverTurn;
     DriverTurn; ClientTurn; ClientTurn; ClientTurn] in
  let th := run schedule
              (mkThreads e0 InWaitForCommands
                 (shutdown_statements commandBytes true false)) in
  clientTodo th = []
  ∧ mTerminated (shared th) = true
  ∧ mDriverThread (shared th) = ThreadReturned
  ∧ executed (drop (length (trace e0)) (trace (shared th))) = [4096%N].
Proof.
  intros commandBytes e0 schedule th.
  assert (Hnil : clientTodo th = []) by by vm_compute.
  destruct (shutdown_order true false commandBytes e0 InWaitForCommands schedule)
    as (_ & _ & _ & _ & Hreturned); [done | done | done |].
  destruct (Hreturned Hnil) as (Hterm & _ & tr1 & tr2 & tr3 & _ & _ & _ & _ & _
                                & Hret & _).
  split_and!; [done | done | done | by vm_compute].
Defined.

(** ** Garbage collection: fork and join *)

Lemma gc_idempotent (em m : gset Entity) :
  Components.gc em (Components.gc em m) = Components.gc em m.
Proof. unfold Components.gc. apply set_eq. intros e. set_solver. Qed.

Lemma gcTransforms_idempotent (em : gset Entity) (tcm : gmap Entity Transform) :
  Components.gcTransforms em (Components.gcTransforms em tcm)
  = Components.gcTransforms em tcm.
Proof.
  unfold Components.gcTransforms. rewrite map_filter_filter.
  apply map_filter_ext. naive_solver.
Qed.

Lemma complete_lookup_work i js k :
  jobWork <$> JobSystem.complete i js !! k = jobWork <$> js !! k.
Proof.
  unfold JobSystem.complete. destruct (decide (i = k)) as [<- | Hne].
  - rewrite list_lookup_alter_eq. by destruct (js !! i).
  - by rewrite list_lookup_alter_ne.
Qed.

Lemma worksOn_complete i js order m :
  worksOn (JobSystem.complete i js) order m = worksOn js order m.
Proof.
  unfold worksOn. induction order as [| k order IH]; [done |]. simpl.
  by rewrite IH, complete_lookup_work.
Qed.

(** One job executed by a worker. *)
Lemma executeJob_fields job j e :
  mJobSystem e !! job = Some j →
  let e' := (executeJob job e).2 in
  let em := mEntityManager e in
  let wraps m := bool_decide (jobWork j = Some m) in
  trace e' = trace e ++ [JobExecuted job]
  ∧ mJobSystem e' = JobSystem.complete job (mJobSystem e)
  ∧ mEntityManager e' = em
  ∧ mRenderableManager e'
    = (if wraps FRenderableManager
       then Components.gc em (mRenderableManager e) else mRenderableManager e)
  ∧ mLightManager e'
    = (if wraps FLightManager
       then Components.gc em (mLightManager e) else mLightManager e)
  ∧ mTransformManager e'
    = (if wraps FTransformManager
       then Components.gcTransforms em (mTransformManager e)
       else mTransformManager e)
  ∧ mCameraManager e'
    = (if wraps FCameraManager
       then Components.gc em (mCameraManager e) else mCameraManager e)
  ∧ lists e' = lists e
  ∧ mCommandBufferQueue e' = mCommandBufferQueue e.
Proof.
  intros Hj. unfold executeJob. rewrite Hj. unfold mbind, M_bind.
  destruct j as [jp [[] |] jr jd]; destruct e; cbn; by split_and!.
Qed.

(** The workers execute the jobs [order]: each job is recorded and marked
    as completed, a manager is swept if one of the jobs wraps its sweep,
    and the entity manager is only read. *)
Lemma executeJobs_spec order : ∀ e,
  (∀ i, i ∈ order → is_Some (mJobSystem e !! i)) →
  let e' := exec (forEach order executeJob) e in
  let js := mJobSystem e in
  let em := mEntityManager e in
  trace e' = trace e ++ (JobExecuted <$> order)
  ∧ mJobSystem e' = completeAll js order
  ∧ mEntityManager e' = em
  ∧ mRenderableManager e'
    = (if worksOn js order FRenderableManager
       then Components.gc em (mRenderableManager e) else mRenderableManager e)
  ∧ mLightManager e'
    = (if worksOn js order FLightManager
       then Components.gc em (mLightManager e) else mLightManager e)
  ∧ mTransformManager e'
    = (if worksOn js order FTransformManager
       then Components.gcTransforms em (mTransformManager e)
       else mTransformManager e)
  ∧ mCameraManager e'
    = (if worksOn js order FCameraManager
       then Components.gc em (mCameraManager e) else mCameraManager e)
  ∧ lists e' = lists e
  ∧ mCommandBufferQueue e' = mCommandBufferQueue e.
Proof.
  induction order as [| i order IH]; intros e Hvalid.
  - simpl. rewrite app_nil_r. by split_and!.
  - destruct (Hvalid i) as [j Hj]; [set_solver |].
    destruct (executeJob_fields i j e Hj)
      as (Htr1 & Hjs1 & Hem1 & HR1 & HL1 & HT1 & HC1 & Hl1 & Hq1).
    cbn zeta in *. unfold exec. cbn [forEach]. unfold mbind, M_bind.
    destruct (executeJob i e) as [[] e1]. cbn [snd] in *.
    destruct (IH e1) as (Htr & Hjs & Hem & HR & HL & HT & HC & Hl & Hq).
    { intros k Hk. rewrite Hjs1. unfold JobSystem.complete.
      destruct (Hvalid k) as [jk Hjk]; [set_solver |].
      destruct (decide (i = k)) as [<- | Hne].
      - rewrite list_lookup_alter_eq, Hjk. eauto.
      - rewrite list_lookup_alter_ne by done. eauto. }
    unfold exec in *. cbn zeta in *.
    rewrite Htr, Hjs, Hem, HR, HL, HT, HC, Hl, Hq.
    rewrite Htr1, Hjs1, Hem1, HR1, HL1, HT1, HC1, Hl1, Hq1.
    rewrite !worksOn_complete.
    assert (Hwraps : ∀ m, worksOn (mJobSystem e) (i :: order) m
              = bool_decide (jobWork j = Some m)
                || worksOn (mJobSystem e) order m).
    { intros m. unfold worksOn. cbn [existsb]. rewrite Hj. f_equal.
      apply bool_decide_ext. cbn. split; [by intros [= ->] | by intros ->]. }
    rewrite !Hwraps.
    split_and!; try done.
    + by rewrite <- app_assoc.
    + generalize (bool_decide (jobWork j = Some FRenderableManager)),
        (worksOn (mJobSystem e) order FRenderableManager).
      intros [|] [|]; cbn; by rewrite ?gc_idempotent.
    + generalize (bool_decide (jobWork j = Some FLightManager)),
        (worksOn (mJobSystem e) order FLightManager).
      intros [|] [|]; cbn; by rewrite ?gc_idempotent.
    + generalize (bool_decide (jobWork j = Some FTransformManager)),
        (worksOn (mJobSystem e) order FTransformManager).
      intros [|] [|]; cbn; by rewrite ?gcTransforms_idempotent.
    + generalize (bool_decide (jobWork j = Some FCameraManager)),
        (worksOn (mJobSystem e) order FCameraManager).
      intros [|] [|]; cbn; by rewrite ?gc_idempotent.
Qed.

Lemma run_last flags l j :
  JobSystem.run (length l) flags (l ++ [j])
  = l ++ [mkJob (jobParent j) (jobWork j) (Some flags) (jobDone j)].
Proof.
  unfold JobSystem.run.
  replace (length l) with (length l + 0)%nat at 1 by lia.
  by rewrite alter_app_r.
Qed.

Lemma jobs_set_mJobSystem v e : mJobSystem (set_mJobSystem v e) = v.
Proof. by destruct e. Qed.
Lemma jobs_set_trace v e : mJobSystem (set_trace v e) = mJobSystem e.
Proof. by destruct e. Qed.
Lemma trace_set_mJobSystem v e : trace (set_mJobSystem v e) = trace e.
Proof. by destruct e. Qed.
Lemma set_jobs_set_jobs v v' e :
  set_mJobSystem v (set_mJobSystem v' e) = set_mJobSystem v e.
Proof. by destruct e. Qed.
Lemma set_trace_set_jobs v w e :
  set_trace v (set_mJobSystem w e) = set_mJobSystem w (set_trace v e).
Proof. by destruct e. Qed.

Lemma with_jobs_jobs js evs e : mJobSystem (with_jobs js evs e) = js.
Proof. by destruct e. Qed.
Lemma with_jobs_trace js evs e : trace (with_jobs js evs e) = trace e ++ evs.
Proof. by destruct e. Qed.
Lemma with_jobs_with_jobs js evs js' evs' e :
  with_jobs js evs (with_jobs js' evs' e) = with_jobs js (evs' ++ evs) e.
Proof. destruct e. unfold with_jobs. simpl. by rewrite app_assoc. Qed.

Lemma js_createJob_eq parent work e :
  js_createJob parent work e
  = (length (mJobSystem e),
     with_jobs (mJobSystem e ++ [mkJob parent work None false])
       [JobSystemCreateJob (length (mJobSystem e)) parent work] e).
Proof. done. Qed.

Lemma fork_child parent m e :
  (job ← js_createJob (Some parent) (Some m); js_run job DONT_SIGNAL) e
  = (tt, with_jobs
           (mJobSystem e
            ++ [mkJob (Some parent) (Some m) (Some DONT_SIGNAL) false])
           [JobSystemCreateJob (length (mJobSystem e)) (Some parent) (Some m);
            JobSystemRun (length (mJobSystem e)) DONT_SIGNAL] e).
Proof.
  unfold mbind, M_bind. rewrite js_createJob_eq. unfold js_run.
  rewrite with_jobs_jobs, with_jobs_trace, run_last. simpl.
  unfold with_jobs. destruct e; simpl. by rewrite <- app_assoc.
Qed.

Lemma js_submit_eq job e :
  js_submit job e
  = (tt, with_jobs (JobSystem.run job NO_FLAGS (mJobSystem e))
           [JobSystemRunAndWait job] e).
Proof. by destruct e. Qed.

(** [gc] up to the wait: the family is created and submitted. *)
Lemma gc_forks scheduler e :
  let js := mJobSystem e in
  let parent := length js in
  gc scheduler e
  = (lift (forEach (scheduler (JobSystem.runnable parent
                                 (js ++ gcFamily parent false)))
             executeJob) ;;
     js_wait parent)
      (with_jobs (js ++ gcFamily parent false) (forkCalls parent) e).
Proof.
  intros js parent. unfold gc.
  rewrite B_bind_lift, js_createJob_eq. cbn [fst snd]. fold js parent.
  do 4 (rewrite B_bind_lift, fork_child; cbn [fst snd];
        rewrite with_jobs_with_jobs, with_jobs_jobs).
  unfold js_runAndWait. rewrite B_bind_lift.
  rewrite M_bind_eq, js_submit_eq. cbn [fst snd].
  rewrite with_jobs_with_jobs, with_jobs_jobs.
  rewrite M_bind_eq. unfold get. cbn [fst snd]. rewrite with_jobs_jobs.
  rewrite <- !app_assoc. cbn [app]. rewrite !length_app. cbn [length].
  fold parent.
  assert (Hjobs : ∀ p l,
    JobSystem.run parent NO_FLAGS (js ++ p :: l)
    = js ++ mkJob (jobParent p) (jobWork p) (Some NO_FLAGS) (jobDone p) :: l).
  { intros p l. unfold JobSystem.run, parent.
    replace (length js) with (length js + 0)%nat at 1 by lia.
    by rewrite alter_app_r. }
  rewrite !Hjobs. cbn [jobParent jobWork jobDone].
  by rewrite B_bind_lift.
Qed.

Lemma family_lookup js done k :
  (js ++ gcFamily (length js) done) !! (length js + k)%nat
  = gcFamily (length js) done !! k.
Proof. by rewrite lookup_app_r, Nat.add_comm, Nat.add_sub by lia. Qed.

Lemma filter_all {A} (P : A → Prop) `{!∀ x, Decision (P x)} (l : list A) :
  Forall P l → filter P l = l.
Proof.
  induction 1 as [| x l Hx _ IH]; [done |].
  by rewrite filter_cons_True, IH.
Qed.

Lemma runnable_family js :
  wf_jobs js →
  JobSystem.runnable (length js) (js ++ gcFamily (length js) false)
  = familyIds (length js).
Proof.
  intros Hwf. unfold JobSystem.runnable.
  rewrite imap_app, filter_app, fmap_app.
  assert (Hold :
    filter (λ ij, JobSystem.inFamily (length js) ij
                  && bool_decide (is_Some (jobRun ij.2)) && negb (jobDone ij.2))
      (imap (λ i j, (i, j)) js) = []).
  { destruct (filter _ _) as [| ij l] eqn:Hfilter; [done |]. exfalso.
    assert (Hin : ij ∈ ij :: l) by set_solver. rewrite <- Hfilter in Hin.
    apply list_elem_of_filter in Hin as [HP Hin].
    apply elem_of_lookup_imap in Hin as (i & j & -> & Hj).
    apply andb_prop_elim in HP as [HP _]. apply andb_prop_elim in HP as [HP _].
    unfold JobSystem.inFamily in HP. cbn in HP.
    apply orb_prop_elim in HP as [HP | HP]; apply bool_decide_unpack in HP.
    - apply lookup_lt_Some in Hj. lia.
    - specialize (Hwf i j (length js) Hj HP). lia. }
  rewrite Hold. cbn [app gcFamily imap compose].
  rewrite filter_all.
  - unfold familyIds. cbn. by rewrite Nat.add_0_r.
  - do 5 (apply List.Forall_cons;
            [unfold JobSystem.inFamily; cbn;
             first
               [ by rewrite Nat.add_0_r,
                   (bool_decide_eq_true_2 (length js = length js)) by done
               | by rewrite
                   (bool_decide_eq_true_2 (Some (length js) = Some (length js))),
                   orb_true_r by done ] |]).
    apply List.Forall_nil.
Qed.

Lemma complete_commute i k js :
  JobSystem.complete i (JobSystem.complete k js)
  = JobSystem.complete k (JobSystem.complete i js).
Proof.
  unfold JobSystem.complete. apply list_eq. intros n.
  rewrite !list_lookup_alter.
  repeat case_decide; subst; rewrite ?list_lookup_alter_eq,
    ?list_lookup_alter_ne by done; by destruct (js !! n).
Qed.

Lemma completeAll_perm order order' : order ≡ₚ order' →
  ∀ js, completeAll js order = completeAll js order'.
Proof.
  unfold completeAll. induction 1 as [| i l l' _ IH | i k l | l1 l2 l3 _ IH1 _ IH2];
    intros js; simpl.
  - done.
  - apply IH.
  - by rewrite complete_commute.
  - by rewrite IH1.
Qed.

Lemma complete_family js k (l : list Job) :
  JobSystem.complete (length js + k) (js ++ l)
  = js ++ alter (λ j, mkJob (jobParent j) (jobWork j) (jobRun j) true) k l.
Proof. unfold JobSystem.complete. by rewrite alter_app_r. Qed.

Lemma completeAll_family js :
  completeAll (js ++ gcFamily (length js) false) (familyIds (length js))
  = js ++ gcFamily (length js) true.
Proof.
  unfold completeAll, familyIds. cbn [foldl].
  pose proof (complete_family js 0) as Hparent. rewrite Nat.add_0_r in Hparent.
  by rewrite Hparent, !complete_family.
Qed.

Lemma finished_family js :
  wf_jobs js →
  JobSystem.finished (length js) (js ++ gcFamily (length js) true) = true.
Proof.
  intros Hwf. unfold JobSystem.finished. rewrite imap_app, forallb_app.
  apply andb_true_intro. split.
  - apply forallb_forall. intros [i j] Hin.
    apply list_elem_of_In, elem_of_lookup_imap in Hin as (i' & j' & [= -> ->] & Hj).
    unfold JobSystem.inFamily. cbn.
    rewrite !bool_decide_eq_false_2; [done | |].
    + intros HP. specialize (Hwf i' j' (length js) Hj HP). lia.
    + apply lookup_lt_Some in Hj. lia.
  - cbn. by rewrite !implb_true_r.
Qed.

Lemma worksOn_family js order m :
  order ≡ₚ familyIds (length js) →
  worksOn (js ++ gcFamily (length js) false) order m = true.
Proof.
  intros Hperm. unfold worksOn. apply existsb_exists.
  assert (Hk : ∃ k, (k < 5)%nat ∧ (length js + k)%nat ∈ familyIds (length js)
                    ∧ jobWork <$> gcFamily (length js) false !! k
                      = Some (Some m)).
  { unfold familyIds.
    destruct m; [exists 1%nat | exists 2%nat | exists 3%nat | exists 4%nat];
      (split_and!; [lia | set_solver | done]). }
  destruct Hk as (k & _ & Hin & Hwork).
  exists (length js + k)%nat. split.
  - apply list_elem_of_In. by rewrite Hperm.
  - apply bool_decide_eq_true_2. by rewrite family_lookup.
Qed.

Lemma with_jobs_managers js evs e :
  mEntityManager (with_jobs js evs e) = mEntityManager e
  ∧ mRenderableManager (with_jobs js evs e) = mRenderableManager e
  ∧ mLightManager (with_jobs js evs e) = mLightManager e
  ∧ mTransformManager (with_jobs js evs e) = mTransformManager e
  ∧ mCameraManager (with_jobs js evs e) = mCameraManager e
  ∧ lists (with_jobs js evs e) = lists e.
Proof. by destruct e. Qed.

(** C8: whatever the order in which the workers pick the jobs, [gc]
    returns, and it has then created one parent job and four child jobs
    under it, one per component manager (renderable, light, transform,
    camera), each wrapping the sweep of that manager against the entity
    manager; each child was submitted with [DONT_SIGNAL]; the last call was
    [runAndWait] on the parent; all five jobs have been executed and are
    complete; and every manager has been swept. *)
Theorem gc_fork_join (scheduler : list nat → list nat) (e : FEngine) :
  (∀ l, scheduler l ≡ₚ l) →
  wf_jobs (mJobSystem e) →
  let js := mJobSystem e in
  let parent := length js in
  let em := mEntityManager e in
  ∃ e' order,
    gc scheduler e = Some (tt, e')
    ∧ order ≡ₚ familyIds parent
    ∧ trace e' = trace e ++ forkCalls parent ++ (JobExecuted <$> order)
    ∧ mJobSystem e' = js ++ gcFamily parent true
    ∧ mEntityManager e' = em
    ∧ mRenderableManager e' = Components.gc em (mRenderableManager e)
    ∧ mLightManager e' = Components.gc em (mLightManager e)
    ∧ mTransformManager e' = Components.gcTransforms em (mTransformManager e)
    ∧ mCameraManager e' = Components.gc em (mCameraManager e)
    ∧ lists e' = lists e.
Proof.
  intros Hsched Hwf js parent em.
  rewrite gc_forks. fold js parent. unfold parent, js at 1.
  rewrite runnable_family by done. fold js parent.
  set (order := scheduler (familyIds parent)).
  assert (Hperm : order ≡ₚ familyIds parent) by apply Hsched.
  set (e1 := with_jobs (js ++ gcFamily parent false) (forkCalls parent) e).
  destruct (with_jobs_managers (js ++ gcFamily parent false)
              (forkCalls parent) e) as (Hem1 & HR1 & HL1 & HT1 & HC1 & Hl1).
  fold e1 in Hem1, HR1, HL1, HT1, HC1, Hl1.
  destruct (executeJobs_spec order e1)
    as (Htr & Hjs & Hem & HR & HL & HT & HC & Hl & _).
  { intros i Hi. unfold e1. rewrite with_jobs_jobs.
    apply lookup_lt_is_Some. rewrite length_app. cbn.
    rewrite Hperm in Hi. unfold familyIds in Hi. fold parent. set_solver by lia. }
  cbn zeta in *. unfold e1 in Htr, Hjs, HR, HL, HT, HC. 
  rewrite with_jobs_jobs in *. rewrite with_jobs_trace in Htr.
  fold e1 in Htr, Hjs, HR, HL, HT, HC.
  unfold parent, js in HR, HL, HT, HC.
  rewrite !worksOn_family in * by done. fold js parent in HR, HL, HT, HC.
  rewrite (completeAll_perm order (familyIds parent) Hperm) in Hjs.
  unfold parent, js in Hjs. rewrite completeAll_family in Hjs.
  fold js parent in Hjs.
  rewrite B_bind_lift. unfold exec in *. unfold js_wait.
  rewrite Hjs. unfold parent, js. rewrite finished_family by done.
  fold js parent.
  exists (forEach order executeJob e1).2, order.
  split_and!; [by destruct (forEach order executeJob e1) as [[] ?] | done | ..].
  - by rewrite Htr, <- app_assoc.
  - done.
  - by rewrite Hem, Hem1.
  - by rewrite HR, Hem1, HR1.
  - by rewrite HL, Hem1, HL1.
  - by rewrite HT, Hem1, HT1.
  - by rewrite HC, Hem1, HC1.
  - by rewrite Hl, Hl1.
Qed.

Lemma gc_fork_join_witness :
  let e := exec (createRenderable 64 7 ;; createRenderable 64 8)
             (set_mJobSystem [mkJob None None (Some NO_FLAGS) false]
                (FEngine_new OPENGL 1 0 {[7]} 4096)) in
  ∃ e', gc reverse e = Some (tt, e')
        ∧ mRenderableManager e' = Components.gc {[7]} {[7; 8]}
        ∧ mJobSystem e' = mJobSystem e ++ gcFamily 1 true.
Proof.
  intros e.
  destruct (gc_fork_join reverse e) as (e' & order & Hrun & _ & _ & Hjs & _ & HR & _).
  - intros l. apply reverse_Permutation.
  - intros i j p Hj Hp.
    change (mJobSystem e) with [mkJob None None (Some NO_FLAGS) false] in Hj.
    destruct i as [| [| i]]; by simplify_eq/=.
  - exists e'. split_and!; [done | | done]. rewrite HR. reflexivity.
Defined.
